(** * travel-buddy: place reconciliation, result caches and trip routes

    A shallow embedding of the request handlers
      - [src/app/api/trip/init/route.ts]    (trip validation),
      - [src/app/api/trip/resolve/route.ts] (coordinate resolution),
      - [src/app/api/trip/create/route.ts]  (itinerary creation),
    together with the properties their specification states about them.

    Conventions of the embedding.
      - A JavaScript string is a [string], the sequence of the bytes of
        its UTF-8 text; on ASCII text these are its characters.
        [toLowerCase] decodes the bytes into code points and follows the
        case mappings of Unicode, the rule for a final sigma included;
        [trim] removes the white space and the line terminators of
        ECMAScript; [includes] and [split] agree with the JavaScript
        methods on well-formed text; [length16] counts UTF-16 code units.
      - A request body and a message of the generator are [JSON] values
        where a handler reads them property by property, so that [null]
        and a missing or ill-typed property are inputs like any other.
      - A JSON number is a rational [Q]: every finite double is one, and
        the handlers only compare numbers with constants and floor them.
      - A property that may be [undefined] in the JSON data is an [option].
      - Upstream services and the clock form an environment [Env] of
        oracles; the handlers thread a [World] holding the module-level
        caches, the number of clock reads and the log of upstream calls. *)

From Stdlib Require Import String Ascii List ZArith QArith Qround Lia Bool.
From stdpp Require Import base gmap strings list pretty.
Import ListNotations.

Local Open Scope string_scope.
Local Open Scope list_scope.

(** ** Unicode text behind the UTF-8 bytes *)

Module Unicode.

Local Open Scope N_scope.

(** A character is its code point.  A byte that is part of no
    well-formed sequence is kept apart, as [rawByte] plus the byte, so
    that it goes through every operation unchanged. *)
Definition rawByte : N := 1114112.

Definition continuation (c : ascii) : bool :=
  (128 <=? N_of_ascii c) && (N_of_ascii c <? 192).

Definition low6 (c : ascii) : N := N_of_ascii c - 128.

Definition single (a : ascii) : N :=
  if N_of_ascii a <? 128 then N_of_ascii a else rawByte + N_of_ascii a.

(** The code point of a sequence of two, three and four bytes, when the
    bytes are one: a lead byte of the right range, continuation bytes,
    and not the longer form of a shorter sequence. *)
Definition two (a b : ascii) : option N :=
  let x := N_of_ascii a in
  if (194 <=? x) && (x <? 224) && continuation b
  then Some ((x - 192) * 64 + low6 b) else None.

Definition three (a b c : ascii) : option N :=
  let x := N_of_ascii a in
  if (224 <=? x) && (x <? 240) && continuation b && continuation c
     && negb ((x =? 224) && (N_of_ascii b <? 160))
  then Some ((x - 224) * 4096 + low6 b * 64 + low6 c) else None.

Definition four (a b c d : ascii) : option N :=
  let x := N_of_ascii a in
  if (240 <=? x) && (x <? 245) && continuation b && continuation c && continuation d
     && negb ((x =? 240) && (N_of_ascii b <? 144))
     && negb ((x =? 244) && (143 <? N_of_ascii b))
  then Some ((x - 240) * 262144 + low6 b * 4096 + low6 c * 64 + low6 d) else None.

Fixpoint decode (s : string) : list N :=
  match s with
  | EmptyString => []
  | String a s1 =>
      match s1 with
      | String b s2 =>
          match two a b with
          | Some cp => cp :: decode s2
          | None =>
              match s2 with
              | String c s3 =>
                  match three a b c with
                  | Some cp => cp :: decode s3
                  | None =>
                      match s3 with
                      | String d s4 =>
                          match four a b c d with
                          | Some cp => cp :: decode s4
                          | None => single a :: decode s1
                          end
                      | EmptyString => single a :: decode s1
                      end
                  end
              | EmptyString => single a :: decode s1
              end
          end
      | EmptyString => [single a]
      end
  end.

Definition byte (n : N) : ascii := ascii_of_N n.

Definition encodeOne (cp : N) : string :=
  if cp <? 128 then String (byte cp) EmptyString
  else if cp <? 2048 then
    String (byte (192 + cp / 64)) (String (byte (128 + cp mod 64)) EmptyString)
  else if cp <? 65536 then
    String (byte (224 + cp / 4096))
      (String (byte (128 + (cp / 64) mod 64)) (String (byte (128 + cp mod 64)) EmptyString))
  else if cp <? rawByte then
    String (byte (240 + cp / 262144))
      (String (byte (128 + (cp / 4096) mod 64))
         (String (byte (128 + (cp / 64) mod 64))
            (String (byte (128 + cp mod 64)) EmptyString)))
  else String (byte (cp - rawByte)) EmptyString.

Fixpoint encode (l : list N) : string :=
  match l with
  | [] => EmptyString
  | cp :: rest => (encodeOne cp ++ encode rest)%string
  end.

(** Membership in a list of ranges sorted by their lower ends. *)
Fixpoint inRanges (ranges : list (N * N)) (cp : N) : bool :=
  match ranges with
  | [] => false
  | (lo, hi) :: rest =>
      if cp <? lo then false else if cp <=? hi then true else inRanges rest cp
  end.

(** The tables below are those of the Unicode Character Database,
    version 14: the letters that have a case (leaving out the ones that
    are also case-ignorable), the case-ignorable characters, and the
    simple lower-case mappings.  A rule [(lo, hi, step, target)] sends
    [lo], [lo + step], ... up to [hi] to [target], [target + step], ... *)
Definition casedRanges : list (N * N) :=
  [
    (65, 90); (97, 122); (170, 170); (181, 181); (186, 186); (192, 214);
    (216, 246); (248, 442); (444, 447); (452, 659); (661, 687); (880, 883);
    (886, 887); (891, 893); (895, 895); (902, 902); (904, 906); (908, 908);
    (910, 929); (931, 1013); (1015, 1153); (1162, 1327); (1329, 1366); (1376, 1416);
    (4256, 4293); (4295, 4295); (4301, 4301); (4304, 4346); (4349, 4351); (5024, 5109);
    (5112, 5117); (7296, 7304); (7312, 7354); (7357, 7359); (7424, 7467); (7531, 7543);
    (7545, 7578); (7680, 7957); (7960, 7965); (7968, 8005); (8008, 8013); (8016, 8023);
    (8025, 8025); (8027, 8027); (8029, 8029); (8031, 8061); (8064, 8116); (8118, 8124);
    (8126, 8126); (8130, 8132); (8134, 8140); (8144, 8147); (8150, 8155); (8160, 8172);
    (8178, 8180); (8182, 8188); (8450, 8450); (8455, 8455); (8458, 8467); (8469, 8469);
    (8473, 8477); (8484, 8484); (8486, 8486); (8488, 8488); (8490, 8493); (8495, 8500);
    (8505, 8505); (8508, 8511); (8517, 8521); (8526, 8526); (8544, 8575); (8579, 8580);
    (9398, 9449); (11264, 11387); (11390, 11492); (11499, 11502); (11506, 11507); (11520, 11557);
    (11559, 11559); (11565, 11565); (42560, 42605); (42624, 42651); (42786, 42863); (42865, 42887);
    (42891, 42894); (42896, 42954); (42960, 42961); (42963, 42963); (42965, 42969); (42997, 42998);
    (43002, 43002); (43824, 43866); (43872, 43880); (43888, 43967); (64256, 64262); (64275, 64279);
    (65313, 65338); (65345, 65370); (66560, 66639); (66736, 66771); (66776, 66811); (66928, 66938);
    (66940, 66954); (66956, 66962); (66964, 66965); (66967, 66977); (66979, 66993); (66995, 67001);
    (67003, 67004); (68736, 68786); (68800, 68850); (71840, 71903); (93760, 93823); (119808, 119892);
    (119894, 119964); (119966, 119967); (119970, 119970); (119973, 119974); (119977, 119980); (119982, 119993);
    (119995, 119995); (119997, 120003); (120005, 120069); (120071, 120074); (120077, 120084); (120086, 120092);
    (120094, 120121); (120123, 120126); (120128, 120132); (120134, 120134); (120138, 120144); (120146, 120485);
    (120488, 120512); (120514, 120538); (120540, 120570); (120572, 120596); (120598, 120628); (120630, 120654);
    (120656, 120686); (120688, 120712); (120714, 120744); (120746, 120770); (120772, 120779); (122624, 122633);
    (122635, 122654); (125184, 125251); (127280, 127305); (127312, 127337); (127344, 127369) ].

Definition caseIgnorableRanges : list (N * N) :=
  [
    (39, 39); (46, 46); (58, 58); (94, 94); (96, 96); (168, 168);
    (173, 173); (175, 175); (180, 180); (183, 184); (688, 879); (884, 885);
    (890, 890); (900, 901); (903, 903); (1155, 1161); (1369, 1369); (1375, 1375);
    (1425, 1469); (1471, 1471); (1473, 1474); (1476, 1477); (1479, 1479); (1524, 1524);
    (1536, 1541); (1552, 1562); (1564, 1564); (1600, 1600); (1611, 1631); (1648, 1648);
    (1750, 1757); (1759, 1768); (1770, 1773); (1807, 1807); (1809, 1809); (1840, 1866);
    (1958, 1968); (2027, 2037); (2042, 2042); (2045, 2045); (2070, 2093); (2137, 2139);
    (2184, 2184); (2192, 2193); (2200, 2207); (2249, 2306); (2362, 2362); (2364, 2364);
    (2369, 2376); (2381, 2381); (2385, 2391); (2402, 2403); (2417, 2417); (2433, 2433);
    (2492, 2492); (2497, 2500); (2509, 2509); (2530, 2531); (2558, 2558); (2561, 2562);
    (2620, 2620); (2625, 2626); (2631, 2632); (2635, 2637); (2641, 2641); (2672, 2673);
    (2677, 2677); (2689, 2690); (2748, 2748); (2753, 2757); (2759, 2760); (2765, 2765);
    (2786, 2787); (2810, 2815); (2817, 2817); (2876, 2876); (2879, 2879); (2881, 2884);
    (2893, 2893); (2901, 2902); (2914, 2915); (2946, 2946); (3008, 3008); (3021, 3021);
    (3072, 3072); (3076, 3076); (3132, 3132); (3134, 3136); (3142, 3144); (3146, 3149);
    (3157, 3158); (3170, 3171); (3201, 3201); (3260, 3260); (3263, 3263); (3270, 3270);
    (3276, 3277); (3298, 3299); (3328, 3329); (3387, 3388); (3393, 3396); (3405, 3405);
    (3426, 3427); (3457, 3457); (3530, 3530); (3538, 3540); (3542, 3542); (3633, 3633);
    (3636, 3642); (3654, 3662); (3761, 3761); (3764, 3772); (3782, 3782); (3784, 3789);
    (3864, 3865); (3893, 3893); (3895, 3895); (3897, 3897); (3953, 3966); (3968, 3972);
    (3974, 3975); (3981, 3991); (3993, 4028); (4038, 4038); (4141, 4144); (4146, 4151);
    (4153, 4154); (4157, 4158); (4184, 4185); (4190, 4192); (4209, 4212); (4226, 4226);
    (4229, 4230); (4237, 4237); (4253, 4253); (4348, 4348); (4957, 4959); (5906, 5908);
    (5938, 5939); (5970, 5971); (6002, 6003); (6068, 6069); (6071, 6077); (6086, 6086);
    (6089, 6099); (6103, 6103); (6109, 6109); (6155, 6159); (6211, 6211); (6277, 6278);
    (6313, 6313); (6432, 6434); (6439, 6440); (6450, 6450); (6457, 6459); (6679, 6680);
    (6683, 6683); (6742, 6742); (6744, 6750); (6752, 6752); (6754, 6754); (6757, 6764);
    (6771, 6780); (6783, 6783); (6823, 6823); (6832, 6862); (6912, 6915); (6964, 6964);
    (6966, 6970); (6972, 6972); (6978, 6978); (7019, 7027); (7040, 7041); (7074, 7077);
    (7080, 7081); (7083, 7085); (7142, 7142); (7144, 7145); (7149, 7149); (7151, 7153);
    (7212, 7219); (7222, 7223); (7288, 7293); (7376, 7378); (7380, 7392); (7394, 7400);
    (7405, 7405); (7412, 7412); (7416, 7417); (7468, 7530); (7544, 7544); (7579, 7679);
    (8125, 8125); (8127, 8129); (8141, 8143); (8157, 8159); (8173, 8175); (8189, 8190);
    (8203, 8207); (8216, 8217); (8228, 8228); (8231, 8231); (8234, 8238); (8288, 8292);
    (8294, 8303); (8305, 8305); (8319, 8319); (8336, 8348); (8400, 8432); (11388, 11389);
    (11503, 11505); (11631, 11631); (11647, 11647); (11744, 11775); (11823, 11823); (12293, 12293);
    (12330, 12333); (12337, 12341); (12347, 12347); (12441, 12446); (12540, 12542); (40981, 40981);
    (42232, 42237); (42508, 42508); (42607, 42610); (42612, 42621); (42623, 42623); (42652, 42655);
    (42736, 42737); (42752, 42785); (42864, 42864); (42888, 42890); (42994, 42996); (43000, 43001);
    (43010, 43010); (43014, 43014); (43019, 43019); (43045, 43046); (43052, 43052); (43204, 43205);
    (43232, 43249); (43263, 43263); (43302, 43309); (43335, 43345); (43392, 43394); (43443, 43443);
    (43446, 43449); (43452, 43453); (43471, 43471); (43493, 43494); (43561, 43566); (43569, 43570);
    (43573, 43574); (43587, 43587); (43596, 43596); (43632, 43632); (43644, 43644); (43696, 43696);
    (43698, 43700); (43703, 43704); (43710, 43711); (43713, 43713); (43741, 43741); (43756, 43757);
    (43763, 43764); (43766, 43766); (43867, 43871); (43881, 43883); (44005, 44005); (44008, 44008);
    (44013, 44013); (64286, 64286); (64434, 64450); (65024, 65039); (65043, 65043); (65056, 65071);
    (65106, 65106); (65109, 65109); (65279, 65279); (65287, 65287); (65294, 65294); (65306, 65306);
    (65342, 65342); (65344, 65344); (65392, 65392); (65438, 65439); (65507, 65507); (65529, 65531);
    (66045, 66045); (66272, 66272); (66422, 66426); (67456, 67461); (67463, 67504); (67506, 67514);
    (68097, 68099); (68101, 68102); (68108, 68111); (68152, 68154); (68159, 68159); (68325, 68326);
    (68900, 68903); (69291, 69292); (69446, 69456); (69506, 69509); (69633, 69633); (69688, 69702);
    (69744, 69744); (69747, 69748); (69759, 69761); (69811, 69814); (69817, 69818); (69821, 69821);
    (69826, 69826); (69837, 69837); (69888, 69890); (69927, 69931); (69933, 69940); (70003, 70003);
    (70016, 70017); (70070, 70078); (70089, 70092); (70095, 70095); (70191, 70193); (70196, 70196);
    (70198, 70199); (70206, 70206); (70367, 70367); (70371, 70378); (70400, 70401); (70459, 70460);
    (70464, 70464); (70502, 70508); (70512, 70516); (70712, 70719); (70722, 70724); (70726, 70726);
    (70750, 70750); (70835, 70840); (70842, 70842); (70847, 70848); (70850, 70851); (71090, 71093);
    (71100, 71101); (71103, 71104); (71132, 71133); (71219, 71226); (71229, 71229); (71231, 71232);
    (71339, 71339); (71341, 71341); (71344, 71349); (71351, 71351); (71453, 71455); (71458, 71461);
    (71463, 71467); (71727, 71735); (71737, 71738); (71995, 71996); (71998, 71998); (72003, 72003);
    (72148, 72151); (72154, 72155); (72160, 72160); (72193, 72202); (72243, 72248); (72251, 72254);
    (72263, 72263); (72273, 72278); (72281, 72283); (72330, 72342); (72344, 72345); (72752, 72758);
    (72760, 72765); (72767, 72767); (72850, 72871); (72874, 72880); (72882, 72883); (72885, 72886);
    (73009, 73014); (73018, 73018); (73020, 73021); (73023, 73029); (73031, 73031); (73104, 73105);
    (73109, 73109); (73111, 73111); (73459, 73460); (78896, 78904); (92912, 92916); (92976, 92982);
    (92992, 92995); (94031, 94031); (94095, 94111); (94176, 94177); (94179, 94180); (110576, 110579);
    (110581, 110587); (110589, 110590); (113821, 113822); (113824, 113827); (118528, 118573); (118576, 118598);
    (119143, 119145); (119155, 119170); (119173, 119179); (119210, 119213); (119362, 119364); (121344, 121398);
    (121403, 121452); (121461, 121461); (121476, 121476); (121499, 121503); (121505, 121519); (122880, 122886);
    (122888, 122904); (122907, 122913); (122915, 122916); (122918, 122922); (123184, 123197); (123566, 123566);
    (123628, 123631); (125136, 125142); (125252, 125259); (127995, 127999); (917505, 917505); (917536, 917631);
    (917760, 917999) ].

Definition lowerRules : list (N * N * N * N) :=
  [
    (192, 214, 1, 224); (216, 222, 1, 248); (256, 302, 2, 257); (306, 310, 2, 307);
    (313, 327, 2, 314); (330, 374, 2, 331); (376, 376, 1, 255); (377, 381, 2, 378);
    (385, 385, 1, 595); (386, 388, 2, 387); (390, 390, 1, 596); (391, 391, 1, 392);
    (393, 394, 1, 598); (395, 395, 1, 396); (398, 398, 1, 477); (399, 399, 1, 601);
    (400, 400, 1, 603); (401, 401, 1, 402); (403, 403, 1, 608); (404, 404, 1, 611);
    (406, 406, 1, 617); (407, 407, 1, 616); (408, 408, 1, 409); (412, 412, 1, 623);
    (413, 413, 1, 626); (415, 415, 1, 629); (416, 420, 2, 417); (422, 422, 1, 640);
    (423, 423, 1, 424); (425, 425, 1, 643); (428, 428, 1, 429); (430, 430, 1, 648);
    (431, 431, 1, 432); (433, 434, 1, 650); (435, 437, 2, 436); (439, 439, 1, 658);
    (440, 440, 1, 441); (444, 444, 1, 445); (452, 452, 1, 454); (453, 453, 1, 454);
    (455, 455, 1, 457); (456, 456, 1, 457); (458, 458, 1, 460); (459, 475, 2, 460);
    (478, 494, 2, 479); (497, 497, 1, 499); (498, 500, 2, 499); (502, 502, 1, 405);
    (503, 503, 1, 447); (504, 542, 2, 505); (544, 544, 1, 414); (546, 562, 2, 547);
    (570, 570, 1, 11365); (571, 571, 1, 572); (573, 573, 1, 410); (574, 574, 1, 11366);
    (577, 577, 1, 578); (579, 579, 1, 384); (580, 580, 1, 649); (581, 581, 1, 652);
    (582, 590, 2, 583); (880, 882, 2, 881); (886, 886, 1, 887); (895, 895, 1, 1011);
    (902, 902, 1, 940); (904, 906, 1, 941); (908, 908, 1, 972); (910, 911, 1, 973);
    (913, 929, 1, 945); (931, 939, 1, 963); (975, 975, 1, 983); (984, 1006, 2, 985);
    (1012, 1012, 1, 952); (1015, 1015, 1, 1016); (1017, 1017, 1, 1010); (1018, 1018, 1, 1019);
    (1021, 1023, 1, 891); (1024, 1039, 1, 1104); (1040, 1071, 1, 1072); (1120, 1152, 2, 1121);
    (1162, 1214, 2, 1163); (1216, 1216, 1, 1231); (1217, 1229, 2, 1218); (1232, 1326, 2, 1233);
    (1329, 1366, 1, 1377); (4256, 4293, 1, 11520); (4295, 4295, 1, 11559); (4301, 4301, 1, 11565);
    (5024, 5103, 1, 43888); (5104, 5109, 1, 5112); (7312, 7354, 1, 4304); (7357, 7359, 1, 4349);
    (7680, 7828, 2, 7681); (7838, 7838, 1, 223); (7840, 7934, 2, 7841); (7944, 7951, 1, 7936);
    (7960, 7965, 1, 7952); (7976, 7983, 1, 7968); (7992, 7999, 1, 7984); (8008, 8013, 1, 8000);
    (8025, 8031, 2, 8017); (8040, 8047, 1, 8032); (8072, 8079, 1, 8064); (8088, 8095, 1, 8080);
    (8104, 8111, 1, 8096); (8120, 8121, 1, 8112); (8122, 8123, 1, 8048); (8124, 8124, 1, 8115);
    (8136, 8139, 1, 8050); (8140, 8140, 1, 8131); (8152, 8153, 1, 8144); (8154, 8155, 1, 8054);
    (8168, 8169, 1, 8160); (8170, 8171, 1, 8058); (8172, 8172, 1, 8165); (8184, 8185, 1, 8056);
    (8186, 8187, 1, 8060); (8188, 8188, 1, 8179); (8486, 8486, 1, 969); (8490, 8490, 1, 107);
    (8491, 8491, 1, 229); (8498, 8498, 1, 8526); (8544, 8559, 1, 8560); (8579, 8579, 1, 8580);
    (9398, 9423, 1, 9424); (11264, 11311, 1, 11312); (11360, 11360, 1, 11361); (11362, 11362, 1, 619);
    (11363, 11363, 1, 7549); (11364, 11364, 1, 637); (11367, 11371, 2, 11368); (11373, 11373, 1, 593);
    (11374, 11374, 1, 625); (11375, 11375, 1, 592); (11376, 11376, 1, 594); (11378, 11378, 1, 11379);
    (11381, 11381, 1, 11382); (11390, 11391, 1, 575); (11392, 11490, 2, 11393); (11499, 11501, 2, 11500);
    (11506, 11506, 1, 11507); (42560, 42604, 2, 42561); (42624, 42650, 2, 42625); (42786, 42798, 2, 42787);
    (42802, 42862, 2, 42803); (42873, 42875, 2, 42874); (42877, 42877, 1, 7545); (42878, 42886, 2, 42879);
    (42891, 42891, 1, 42892); (42893, 42893, 1, 613); (42896, 42898, 2, 42897); (42902, 42920, 2, 42903);
    (42922, 42922, 1, 614); (42923, 42923, 1, 604); (42924, 42924, 1, 609); (42925, 42925, 1, 620);
    (42926, 42926, 1, 618); (42928, 42928, 1, 670); (42929, 42929, 1, 647); (42930, 42930, 1, 669);
    (42931, 42931, 1, 43859); (42932, 42946, 2, 42933); (42948, 42948, 1, 42900); (42949, 42949, 1, 642);
    (42950, 42950, 1, 7566); (42951, 42953, 2, 42952); (42960, 42960, 1, 42961); (42966, 42968, 2, 42967);
    (42997, 42997, 1, 42998); (65313, 65338, 1, 65345); (66560, 66599, 1, 66600); (66736, 66771, 1, 66776);
    (66928, 66964, 2, 66967); (66929, 66938, 1, 66968); (66941, 66954, 1, 66980); (66957, 66962, 1, 66996);
    (66965, 66965, 1, 67004); (68736, 68786, 1, 68800); (71840, 71871, 1, 71872); (93760, 93791, 1, 93792);
    (125184, 125217, 1, 125218) ].

Definition cased (cp : N) : bool := inRanges casedRanges cp.

Definition caseIgnorable (cp : N) : bool := inRanges caseIgnorableRanges cp.

Fixpoint applyRules (rules : list (N * N * N * N)) (cp : N) : N :=
  match rules with
  | [] => cp
  | (lo, hi, step, target) :: rest =>
      if cp <? lo then cp
      else if (cp <=? hi) && ((cp - lo) mod step =? 0) then target + (cp - lo)
      else applyRules rest cp
  end.

(** The lower-case mapping of one character out of context: [A] to [Z]
    in the ASCII range, U+0130 to [i] and a combining dot, the rules for
    the rest. *)
Definition lowerOf (cp : N) : list N :=
  if cp <? 128 then [if (65 <=? cp) && (cp <=? 90) then cp + 32 else cp]
  else if cp =? 304 then [105; 775]
  else [applyRules lowerRules cp].

(** What follows a capital sigma ends the word unless, case-ignorable
    characters aside, it begins with a cased letter. *)
Fixpoint followedByCased (l : list N) : bool :=
  match l with
  | [] => false
  | cp :: rest => if caseIgnorable cp then followedByCased rest else cased cp
  end.

(** [before] tells whether the last character that is not
    case-ignorable was a cased letter.  A capital sigma (U+03A3) becomes
    the final sigma (U+03C2) at the end of a word, and the small sigma
    (U+03C3) elsewhere. *)
Fixpoint lowerFrom (before : bool) (l : list N) : list N :=
  match l with
  | [] => []
  | cp :: rest =>
      (if cp =? 931
       then [if before && negb (followedByCased rest) then 962 else 963]
       else lowerOf cp)
      ++ lowerFrom (if caseIgnorable cp then before else cased cp) rest
  end.

Definition lower (s : string) : string := encode (lowerFrom false (decode s)).

End Unicode.

(** ** JavaScript string primitives *)

Module JSString.

(** [String.prototype.toLowerCase] *)
Definition toLowerCase (s : string) : string := Unicode.lower s.

(** The white space of the ASCII range: TAB, LF, VT, FF, CR and SPACE. *)
Definition is_space (c : ascii) : bool :=
  let n := nat_of_ascii c in
  (Nat.leb 9 n && Nat.leb n 13) || Nat.eqb n 32.

(** The white space of three bytes: U+1680, U+2000 to U+200A, U+2028,
    U+2029, U+202F, U+205F, U+3000 and U+FEFF. *)
Definition wideSpace (a b c : ascii) : bool :=
  let x := nat_of_ascii a in
  let y := nat_of_ascii b in
  let z := nat_of_ascii c in
  (Nat.eqb x 225 && Nat.eqb y 154 && Nat.eqb z 128)
  || (Nat.eqb x 226 && Nat.eqb y 128
      && (Nat.leb 128 z && Nat.leb z 138 || Nat.eqb z 168 || Nat.eqb z 169 || Nat.eqb z 175))
  || (Nat.eqb x 226 && Nat.eqb y 129 && Nat.eqb z 159)
  || (Nat.eqb x 227 && Nat.eqb y 128 && Nat.eqb z 128)
  || (Nat.eqb x 239 && Nat.eqb y 187 && Nat.eqb z 191).

(** [String.prototype.trimStart]: the text after its leading white
    space, which is the ASCII white space, U+00A0 and the white space of
    three bytes. *)
Fixpoint trimStart (s : string) : string :=
  match s with
  | String a s1 =>
      if is_space a then trimStart s1
      else match s1 with
           | String b s2 =>
               if Nat.eqb (nat_of_ascii a) 194 && Nat.eqb (nat_of_ascii b) 160
               then trimStart s2
               else match s2 with
                    | String c s3 => if wideSpace a b c then trimStart s3 else s
                    | EmptyString => s
                    end
           | EmptyString => s
           end
  | EmptyString => EmptyString
  end.

(** [String.prototype.trimEnd]: the text up to the white space it ends
    with, that is up to the point from which nothing but white space
    follows. *)
Fixpoint trimEnd (s : string) : string :=
  match s with
  | EmptyString => EmptyString
  | String c s' =>
      match trimStart s with
      | EmptyString => EmptyString
      | _ => String c (trimEnd s')
      end
  end.

(** [String.prototype.trim] *)
Definition trim (s : string) : string := trimEnd (trimStart s).

(** [s.includes(sub)]: [sub] occurs in [s] as a contiguous substring. *)
Fixpoint includes (s sub : string) : bool :=
  String.prefix sub s
  || match s with
     | EmptyString => false
     | String _ s' => includes s' sub
     end.

(** [s.split(sep)] for a one-character separator: the pieces between
    its occurrences; an empty string yields one empty piece. *)
Fixpoint split (sep : ascii) (s : string) : list string :=
  match s with
  | EmptyString => [EmptyString]
  | String c s' =>
      if Ascii.eqb c sep then EmptyString :: split sep s'
      else match split sep s' with
           | w :: ws => String c w :: ws
           | [] => [String c EmptyString]
           end
  end.

(** [arr.join(sep)] *)
Fixpoint join (sep : string) (l : list string) : string :=
  match l with
  | [] => EmptyString
  | [x] => x
  | x :: rest => x ++ sep ++ join sep rest
  end.

(** Truthiness of a string value. *)
Definition truthy (s : string) : bool := negb (String.eqb s EmptyString).

End JSString.

Import JSString.

(** ** Global functions of the JavaScript runtime *)

Module JSGlobal.

(** The number of UTF-16 code units of a text given by its UTF-8 bytes,
    what [s.length] counts: a continuation byte counts for nothing, the
    lead byte of a four-byte sequence for two. *)
Definition codeUnits (c : ascii) : nat :=
  let n := nat_of_ascii c in
  if Nat.ltb n 128 then 1 else if Nat.ltb n 192 then 0 else if Nat.ltb n 240 then 1 else 2.

Fixpoint length16 (s : string) : nat :=
  match s with
  | EmptyString => 0
  | String c s' => codeUnits c + length16 s'
  end.

(** Leading white space as the parsing functions skip it: the white
    space of [trim]. *)
Definition skipWhiteSpace (s : string) : string := trimStart s.

Definition is_digit (c : ascii) : bool :=
  let n := nat_of_ascii c in Nat.leb 48 n && Nat.leb n 57.

(** A text that begins with an unsigned decimal literal: [Infinity],
    digits, or a point followed by a digit. *)
Definition unsignedLiteral (s : string) : bool :=
  String.prefix "Infinity" s
  || match s with
     | String c rest =>
         is_digit c
         || (Ascii.eqb c "." && match rest with
                                | String d _ => is_digit d
                                | EmptyString => false
                                end)
     | EmptyString => false
     end.

(** [!isNaN(parseFloat(s))]: after the leading white space and an
    optional sign, the text begins with a decimal literal. *)
Definition parsesAsNumber (s : string) : bool :=
  match skipWhiteSpace s with
  | String c rest =>
      if Ascii.eqb c "+" || Ascii.eqb c "-" then unsignedLiteral rest
      else unsignedLiteral (String c rest)
  | EmptyString => false
  end.

(** The value of a digit in a radix up to 36, if it is one. *)
Definition digitValue (radix : nat) (c : ascii) : option nat :=
  let n := nat_of_ascii c in
  let v := if Nat.leb 48 n && Nat.leb n 57 then Some (n - 48)
           else if Nat.leb 97 n && Nat.leb n 122 then Some (n - 87)
           else if Nat.leb 65 n && Nat.leb n 90 then Some (n - 55)
           else None in
  match v with
  | Some d => if Nat.ltb d radix then Some d else None
  | None => None
  end.

(** The value of the longest prefix of digits, [None] when the text does
    not begin with a digit. *)
Fixpoint leadingDigits (radix : nat) (s : string) (acc : option Z) : option Z :=
  match s with
  | String c rest =>
      match digitValue radix c with
      | Some d =>
          leadingDigits radix rest
            (Some (Z.of_nat radix * match acc with Some a => a | None => 0 end
                   + Z.of_nat d)%Z)
      | None => acc
      end
  | EmptyString => acc
  end.

(** [parseInt(s)] without a radix, [None] for [NaN]: leading white
    space, an optional sign, an optional [0x] or [0X] that selects radix
    16, then the longest prefix of digits.  The value is the exact
    integer; the handlers only compare it with constants. *)
Definition parseInt (s : string) : option Z :=
  let s1 := skipWhiteSpace s in
  let negative := match s1 with String c _ => Ascii.eqb c "-" | EmptyString => false end in
  let s2 := match s1 with
            | String c rest => if Ascii.eqb c "+" || Ascii.eqb c "-" then rest else s1
            | EmptyString => s1
            end in
  let hex := match s2 with
             | String a (String b _) => Ascii.eqb a "0" && (Ascii.eqb b "x" || Ascii.eqb b "X")
             | _ => false
             end in
  let s3 := match s2 with
            | String _ (String _ rest) => if hex then rest else s2
            | _ => s2
            end in
  option_map (fun m => if negative then (- m)%Z else m)
             (leadingDigits (if hex then 16 else 10) s3 None).

(** The characters [encodeURIComponent] leaves alone. *)
Definition unreserved (c : ascii) : bool :=
  let n := nat_of_ascii c in
  (Nat.leb 48 n && Nat.leb n 57) || (Nat.leb 65 n && Nat.leb n 90)
  || (Nat.leb 97 n && Nat.leb n 122)
  || existsb (Ascii.eqb c) ["-"; "_"; "."; "!"; "~"; "*"; "'"; "("; ")"]%char.

Definition hexDigit (n : nat) : ascii :=
  if Nat.ltb n 10 then ascii_of_nat (48 + n) else ascii_of_nat (55 + n).

(** [encodeURIComponent(s)]: every byte of the UTF-8 text that is not
    unreserved becomes a percent sign and two upper-case hexadecimal
    digits. *)
Fixpoint encodeURIComponent (s : string) : string :=
  match s with
  | EmptyString => EmptyString
  | String c s' =>
      if unreserved c then String c (encodeURIComponent s')
      else String "%" (String (hexDigit (nat_of_ascii c / 16))
                         (String (hexDigit (nat_of_ascii c mod 16))
                            (encodeURIComponent s')))
  end.

(** [searchParams.get(name) || fallback] *)
Definition orElse (v : option string) (fallback : string) : string :=
  match v with
  | Some s => if JSString.truthy s then s else fallback
  | None => fallback
  end.

(** Truthiness of a query parameter and of a number. *)
Definition given (v : option string) : bool :=
  match v with Some s => JSString.truthy s | None => false end.

Definition nonZero (v : option Q) : bool :=
  match v with Some q => negb (Qeq_bool q 0) | None => false end.

End JSGlobal.

(** ** Data model *)

(** A place returned by [/api/places/nearby] ([NearbyPlace]). *)
Record NearbyPlace := mkNearby {
  np_id : string;
  np_name : string;
  np_lat : string;
  np_lon : string;
  np_type : string;
  np_category : string
}.

(** A prediction returned by [/api/places/autocomplete]; the route builds
    [lat] and [lon] with [place.latitude?.toString()], so both may be
    absent. *)
Record Prediction := mkPrediction {
  pr_place_id : option string;
  pr_description : string;
  pr_lat : option string;
  pr_lon : option string;
  pr_type : string
}.

Inductive TimeSlot := morning | afternoon | evening.




(** ** PlaceReconciler: the matcher of trip/init (route.ts, 202-250) *)

Module Reconciler.

Inductive Strategy := Exact | Substring | Alias | TokenOverlap.

Definition normalize (s : string) : string := trim (toLowerCase s).

(** Strategy 1 *)
Definition exactMatch (normalizedRequested normalizedNearby : string) : bool :=
  String.eqb normalizedNearby normalizedRequested.

(** Strategy 2 *)
Definition containsMatch (normalizedRequested normalizedNearby : string) : bool :=
  includes normalizedNearby normalizedRequested
  || includes normalizedRequested normalizedNearby.

(** Strategy 3; [Object.entries] enumerates the keys in the order
    written. *)
Definition landmarkMappings : list (string * list string) :=
  [ ("colosseum", ["colosseo"; "amphitheatrum flavium"; "anfiteatro flavio"]);
    ("trevi fountain", ["fontana di trevi"; "trevi"; "fontana"]);
    ("vatican museums", ["musei vaticani"; "vatican"; "vaticani"; "sistine chapel"]);
    ("sistine chapel", ["cappella sistina"; "sistina"; "musei vaticani"]);
    ("pantheon", ["pantheon"]);
    ("spanish steps", ["scalinata di trinità dei monti"; "trinità dei monti"; "spanish"]);
    ("roman forum", ["foro romano"; "forum romanum"; "forum"]);
    ("st peters basilica", ["basilica di san pietro"; "san pietro"; "st peter"]);
    ("castel santangelo", ["castel sant'angelo"; "mausoleum of hadrian"; "castello"]) ].

Definition aliasEntryMatch (normalizedRequested normalizedNearby : string)
    (entry : string * list string) : bool :=
  includes normalizedRequested (fst entry)
  && existsb (fun variant => includes normalizedNearby variant) (snd entry).

Definition aliasMatch (normalizedRequested normalizedNearby : string) : bool :=
  existsb (aliasEntryMatch normalizedRequested normalizedNearby) landmarkMappings.

(** Strategy 4 *)
Definition significantWords (normalized : string) : list string :=
  List.filter (fun word => Nat.ltb 2 (JSGlobal.length16 word)) (split " " normalized).

Definition wordsOverlap (reqWord nearbyWord : string) : bool :=
  includes nearbyWord reqWord || includes reqWord nearbyWord.

Definition matchingWords (normalizedRequested normalizedNearby : string) : list string :=
  List.filter
    (fun reqWord => existsb (wordsOverlap reqWord) (significantWords normalizedNearby))
    (significantWords normalizedRequested).

(** [Math.ceil(n * 0.5)] for an array length [n]. *)
Definition threshold (n : nat) : Z :=
  Qceiling (inject_Z (Z.of_nat n) * (1 # 2)).

Definition tokenMatch (normalizedRequested normalizedNearby : string) : bool :=
  Z.geb (Z.of_nat (length (matchingWords normalizedRequested normalizedNearby)))
        (threshold (length (significantWords normalizedRequested))).

Definition strategyMatches (s : Strategy) (req nb : string) : bool :=
  match s with
  | Exact => exactMatch req nb
  | Substring => containsMatch req nb
  | Alias => aliasMatch req nb
  | TokenOverlap => tokenMatch req nb
  end.

(** The callback handed to [nearbyPlaces.find], recording which [return
    true] is taken. *)
Definition winningStrategy (normalizedRequested : string) (nearby : NearbyPlace)
    : option Strategy :=
  let normalizedNearby := normalize (np_name nearby) in
  if exactMatch normalizedRequested normalizedNearby then Some Exact
  else if containsMatch normalizedRequested normalizedNearby then Some Substring
  else if aliasMatch normalizedRequested normalizedNearby then Some Alias
  else if tokenMatch normalizedRequested normalizedNearby then Some TokenOverlap
  else None.

Definition placeMatches (normalizedRequested : string) (nearby : NearbyPlace) : bool :=
  match winningStrategy normalizedRequested nearby with
  | Some _ => true
  | None => false
  end.

(** [nearbyPlaces.find(...)] for one requested place. *)
Definition matchedPlace (requestedPlace : string) (nearbyPlaces : list NearbyPlace)
    : option NearbyPlace :=
  List.find (placeMatches (normalize requestedPlace)) nearbyPlaces.

(** The layered reading of the matching order: one pass over the whole
    pool per strategy, the first strategy with a hit deciding. *)
Definition findBy (s : Strategy) (requestedPlace : string)
    (nearbyPlaces : list NearbyPlace) : option NearbyPlace :=
  List.find
    (fun nearby => strategyMatches s (normalize requestedPlace) (normalize (np_name nearby)))
    nearbyPlaces.

Definition layeredMatch (requestedPlace : string) (nearbyPlaces : list NearbyPlace)
    : option NearbyPlace :=
  match findBy Exact requestedPlace nearbyPlaces with
  | Some c => Some c
  | None =>
      match findBy Substring requestedPlace nearbyPlaces with
      | Some c => Some c
      | None =>
          match findBy Alias requestedPlace nearbyPlaces with
          | Some c => Some c
          | None => findBy TokenOverlap requestedPlace nearbyPlaces
          end
      end
  end.

(** The position of a strategy in the order in which the callback tries
    them. *)
Definition rank (s : Strategy) : nat :=
  match s with Exact => 1 | Substring => 2 | Alias => 3 | TokenOverlap => 4 end.

End Reconciler.

Import Reconciler.


(** ** JSON values of request bodies *)

#[warnings="-register-all"]
Inductive JSON :=
| JNull
| JBool (b : bool)
| JNum (q : Q)
| JStr (s : string)
| JArr (items : list JSON)
| JObj (fields : list (string * JSON)).

Module JS.

(** Truthiness; an absent property ([undefined]) is [None]. *)
Definition truthy (v : option JSON) : bool :=
  match v with
  | None | Some JNull => false
  | Some (JBool b) => b
  | Some (JNum q) => negb (Qeq_bool q 0)
  | Some (JStr s) => JSString.truthy s
  | Some (JArr _) | Some (JObj _) => true
  end.

Definition isString (v : option JSON) : bool :=
  match v with Some (JStr _) => true | _ => false end.

Definition isNumber (v : option JSON) : bool :=
  match v with Some (JNum _) => true | _ => false end.

Definition isArray (v : option JSON) : bool :=
  match v with Some (JArr _) => true | _ => false end.

Definition asString (v : option JSON) : string :=
  match v with Some (JStr s) => s | _ => EmptyString end.

Definition asNumber (v : option JSON) : Q :=
  match v with Some (JNum q) => q | _ => 0%Q end.

Definition asArray (v : option JSON) : list JSON :=
  match v with Some (JArr l) => l | _ => [] end.

(** [!days || typeof days !== 'number' || days <= 0 || days > 30], the
    test both trip/init and trip/create apply to the day count. *)
Definition invalidDays (days : option JSON) : bool :=
  negb (truthy days) || negb (isNumber days)
  || Qle_bool (asNumber days) 0 || negb (Qle_bool (asNumber days) 30).

(** A template literal prints an absent value as [undefined]. *)
Definition show (v : option string) : string :=
  match v with Some s => s | None => "undefined" end.

Definition quote : string := String (ascii_of_nat 34) EmptyString.

(** A property of a value, [None] for [undefined]: a number, a string,
    a boolean and an array have none of the properties the handlers
    read; a repeated key keeps its last value. *)
Definition field (name : string) (v : JSON) : option JSON :=
  match v with
  | JObj fields =>
      option_map snd (List.find (fun kv => String.eqb (fst kv) name) (rev fields))
  | _ => None
  end.

Section Rendering.

(** [Number.prototype.toString], the decimal rendering of a number. *)
Variable numberToString : Q -> string.

(** [String(v)], which a template literal and [encodeURIComponent]
    apply to a value: an array is its elements joined by commas, [null]
    among them counting as the empty text; an object is
    [[object Object]]. *)
Fixpoint toString (v : JSON) : string :=
  match v with
  | JNull => "null"
  | JBool b => if b then "true" else "false"
  | JNum q => numberToString q
  | JStr s => s
  | JArr items =>
      join "," (map (fun item => match item with
                                 | JNull => EmptyString
                                 | _ => toString item
                                 end) items)
  | JObj _ => "[object Object]"
  end.

End Rendering.

(** Decimal rendering of an array length or index. *)
Definition showNat (n : nat) : string := pretty n.

End JS.

(** ** Environment and world *)

(** A thrown [Error]: its [name] and [message]. *)
Record JSError := mkError { err_name : string; err_message : string }.

(** Outcome of one upstream request, up to the parsed JSON body.  [Ok l]
    already applies the [|| []] default of the handlers. *)
Inductive Upstream (A : Type) :=
| Throws (e : JSError)
| NotOk (error : option string)
| Ok (payload : A).
Arguments Throws {A} e.
Arguments NotOk {A} error.
Arguments Ok {A} payload.


(** What the generator's message content turns out to be: missing or
    falsy; a value that is not a string, or a text that is not JSON, on
    either of which lines 244-249 throw; or a text that [JSON.parse]
    turns into a value. *)
Inductive LLMContent :=
| NoContent
| Unparsable
| Parsed (v : JSON).

(** The answer of the generator: the request throws; the response is not
    ok; the response is ok but its body cannot be read as JSON or is
    [null], so that line 229 or 230 throws; or the message content is
    read. *)
Inductive GeneratorReply :=
| GenThrows (e : JSError)
| GenStatus (status : Z)
| GenUnreadable (e : JSError)
| GenContent (content : LLMContent).

Inductive Call :=
| CallAutocomplete (q : string)
| CallNearby (lat lon radius : string)
| CallGenerator.

Record CacheEntry (A : Type) := mkEntry { data : A; timestamp : Z }.
Arguments mkEntry {A} data timestamp.
Arguments data {A} c.
Arguments timestamp {A} c.

(** What [resolveCoordinates] returns when it does not return [null]. *)
Record Coordinates := mkCoordinates {
  c_lat : option string;
  c_lon : option string;
  c_place_id : option string;
  c_address : option string;
  c_type : option string
}.

(** The module-level state of the three routes.  [validationCache] is one
    [Map<string, any>] whose keys are built only as [dest_...] (holding a
    prediction) and [places_...] (holding a place list); the two key
    families never meet, and the map is kept as its two typed halves. *)
Record World := mkWorld {
  validationDest : gmap string (CacheEntry Prediction);
  validationPlaces : gmap string (CacheEntry (list NearbyPlace));
  coordinateCache : gmap string (CacheEntry Coordinates);
  lastGroqRequest : Z;
  clockReads : nat;
  calls : list Call;
  turns : nat
}.

Definition emptyWorld : World := mkWorld ∅ ∅ ∅ 0 0 [] 0.

(** ** ResultCache: the has/get/set protocol of the two caches *)

Module ResultCache.

(** [CACHE_DURATION] of trip/init and of trip/resolve, in milliseconds. *)
Definition CACHE_DURATION_init : Z := 10 * 60 * 1000.
Definition CACHE_DURATION_resolve : Z := 30 * 60 * 1000.

Section Cache.
Context {A : Type}.
Variable ttl : Z.

(** [Date.now() - cached.timestamp < CACHE_DURATION] *)
Definition fresh (now : Z) (e : CacheEntry A) : bool :=
  Z.ltb (now - timestamp e) ttl.

(** [cache.set(key, { data, timestamp: Date.now() })] *)
Definition put (key : string) (value : A) (now : Z)
    (cache : gmap string (CacheEntry A)) : gmap string (CacheEntry A) :=
  <[key := mkEntry value now]> cache.

(** The read of trip/init (95-100, 153-158): a stale entry is ignored
    and left in the map. *)
Definition get (key : string) (now : Z) (cache : gmap string (CacheEntry A))
    : option A :=
  match cache !! key with
  | Some e => if fresh now e then Some (data e) else None
  | None => None
  end.

(** The read of trip/resolve (68-74): a stale entry is deleted. *)
Definition get_evict (key : string) (now : Z) (cache : gmap string (CacheEntry A))
    : option A * gmap string (CacheEntry A) :=
  match cache !! key with
  | Some e => if fresh now e then (Some (data e), cache) else (None, delete key cache)
  | None => (None, cache)
  end.
End Cache.

End ResultCache.

(** ** The handler monad: state passing over [World] *)

Record Env := mkEnv {
  clock : nat -> Z;
  autocomplete : string -> nat -> Upstream (list Prediction);
  nearby : string -> string -> string -> nat -> Upstream (list NearbyPlace);
  groqApiKey : option string;
  generator : nat -> GeneratorReply;
  schedule : nat -> nat
}.

(** The [k]-th [Date.now()] returns [clock env k]; an upstream request
    issued when [k] requests are already in the log is answered by the
    oracle at index [k]; [schedule env k] decides which of the suspended
    calls is the [k]-th to be resumed. *)

Definition M (A : Type) : Type := World -> A * World.

Definition ret {A} (a : A) : M A := fun w => (a, w).

Definition bind {A B} (m : M A) (k : A -> M B) : M B :=
  fun w => let (a, w') := m w in k a w'.

Notation "'let*' x := m 'in' k" := (bind m (fun x => k))
  (at level 10, x pattern, m at level 100, k at level 200).

(** [Date.now()]: the next value of the clock. *)
Definition now (env : Env) : M Z := fun w =>
  (clock env (clockReads w),
   mkWorld (validationDest w) (validationPlaces w) (coordinateCache w)
           (lastGroqRequest w) (S (clockReads w)) (calls w) (turns w)).

Definition logCall (c : Call) : M unit := fun w =>
  (tt, mkWorld (validationDest w) (validationPlaces w) (coordinateCache w)
               (lastGroqRequest w) (clockReads w) (calls w ++ [c]) (turns w)).

Definition fetchAutocomplete (env : Env) (q : string) : M (Upstream (list Prediction)) :=
  fun w => (autocomplete env q (length (calls w)), snd (logCall (CallAutocomplete q) w)).

Definition fetchNearby (env : Env) (lat lon radius : string)
    : M (Upstream (list NearbyPlace)) :=
  fun w => (nearby env lat lon radius (length (calls w)),
            snd (logCall (CallNearby lat lon radius) w)).

(** [fetch] given a bare path.  trip/init and [resolveCoordinates] build
    the addresses of the two places handlers with
    [new URL(path, request.url)], which is absolute, and their requests go
    out to the oracles above.  Line 203 of trip/resolve hands [fetch] the
    path itself.  The handlers run on the server, where [fetch] has no
    base address to resolve a path against: the call rejects with a
    [TypeError] naming the path, and no request is made. *)
Definition fetchPath (path : string) : M JSError :=
  ret (mkError "TypeError" ("Failed to parse URL from " ++ path)%string).

(** The next scheduling decision. *)
Definition turn (env : Env) : M nat := fun w =>
  (schedule env (turns w),
   mkWorld (validationDest w) (validationPlaces w) (coordinateCache w)
           (lastGroqRequest w) (clockReads w) (calls w) (S (turns w))).

Definition getWorld : M World := fun w => (w, w).

Definition setValidationDest (c : gmap string (CacheEntry Prediction)) : M unit := fun w =>
  (tt, mkWorld c (validationPlaces w) (coordinateCache w)
               (lastGroqRequest w) (clockReads w) (calls w) (turns w)).

Definition setValidationPlaces (c : gmap string (CacheEntry (list NearbyPlace))) : M unit :=
  fun w =>
  (tt, mkWorld (validationDest w) c (coordinateCache w)
               (lastGroqRequest w) (clockReads w) (calls w) (turns w)).

Definition setCoordinateCache (c : gmap string (CacheEntry Coordinates)) : M unit := fun w =>
  (tt, mkWorld (validationDest w) (validationPlaces w) c
               (lastGroqRequest w) (clockReads w) (calls w) (turns w)).

Definition setLastGroqRequest (t : Z) : M unit := fun w =>
  (tt, mkWorld (validationDest w) (validationPlaces w) (coordinateCache w)
               t (clockReads w) (calls w) (turns w)).

Fixpoint mapM {A B} (f : A -> M B) (l : list A) : M (list B) :=
  match l with
  | [] => ret []
  | x :: xs => let* y := f x in let* ys := mapM f xs in ret (y :: ys)
  end.

(** ** trip/init: validation of a trip request (init/route.ts) *)

Module TripInit.
Import ResultCache.

Definition VALID_BUDGETS : list string := ["low"; "moderate"; "luxury"].

(** A property of the parsed body; destructuring a value that is not an
    object yields [undefined]. *)
Definition field (name : string) (body : JSON) : option JSON := JS.field name body.

Record ValidatedPlace := mkValidatedPlace {
  vp_name : string;
  vp_id : string;
  vp_lat : string;
  vp_lon : string
}.

Record ValidatedResponse := mkValidatedResponse {
  r_destination_name : string;
  r_destination_place_id : option string;
  r_destination_lat : option string;
  r_destination_lon : option string;
  r_places : list ValidatedPlace;
  r_days : Z;
  r_budget : string;
  total_places_requested : nat;
  valid_places_found : nat;
  invalid_places : option (list string);
  warnings : option (list string)
}.

Inductive Response :=
| Error (status : Z) (error : string) (details : option (list string))
| Success (body : ValidatedResponse).

(** [typeof place !== 'string' || place.trim().length === 0] *)
Definition badPlace (p : JSON) : bool :=
  match p with
  | JStr s => Nat.eqb (String.length (trim s)) 0
  | _ => true
  end.

(** Lines 58-77: the [errors] array. *)
Definition validate (destination places days budget : option JSON) : list string :=
  (if negb (JS.truthy destination) || negb (JS.isString destination)
      || Nat.eqb (String.length (trim (JS.asString destination))) 0
   then ["Destination is required and must be a non-empty string"] else [])
  ++ (if negb (JS.isArray places) || Nat.eqb (length (JS.asArray places)) 0
      then ["Places must be a non-empty array"]
      else if existsb badPlace (JS.asArray places)
      then ["All places must be non-empty strings"] else [])
  ++ (if JS.invalidDays days
      then ["Days must be a positive number between 1 and 30"] else [])
  ++ (if negb (JS.truthy budget)
         || negb (JS.isString budget
                  && existsb (String.eqb (JS.asString budget)) VALID_BUDGETS)
      then [("Budget must be one of: " ++ join ", " VALID_BUDGETS)%string] else []).

(** The outer [catch] (321-339). *)
Definition internalError (e : JSError) : Response :=
  Error 500
    (if String.eqb (err_name e) "AbortError"
     then "Validation timeout - please try again"
     else if includes (err_message e) "fetch"
     then "Failed to connect to location services"
     else "Internal server error during trip validation")
    None.

(** [errorData.error || fallback] *)
Definition orDefault (error : option string) (fallback : string) : string :=
  match error with
  | Some s => if JSString.truthy s then s else fallback
  | None => fallback
  end.

(** Step 1 (91-145): the destination, from the cache or from
    autocomplete. *)
Definition validateDestination (env : Env) (destination : string)
    : M (Response + Prediction) :=
  let destinationCacheKey := ("dest_" ++ trim (toLowerCase destination))%string in
  let* w := getWorld in
  let* cached :=
    match validationDest w !! destinationCacheKey with
    | Some _ =>
        let* t := now env in
        ret (get CACHE_DURATION_init destinationCacheKey t (validationDest w))
    | None => ret None
    end in
  match cached with
  | Some destinationResult => ret (inr destinationResult)
  | None =>
      let* response := fetchAutocomplete env destination in
      match response with
      | Throws e => ret (inl (internalError e))
      | NotOk error =>
          ret (inl (Error 500 "Failed to validate destination"
                      (Some [orDefault error "Autocomplete service unavailable"])))
      | Ok [] =>
          ret (inl (Error 404
                      ("Destination " ++ JS.quote ++ destination ++ JS.quote ++ " not found")%string
                      (Some ["Please try a more specific location name"])))
      | Ok (destinationResult :: _) =>
          let* t := now env in
          let* w' := getWorld in
          let* _ := setValidationDest
                      (put destinationCacheKey destinationResult t (validationDest w')) in
          ret (inr destinationResult)
      end
  end.

(** Step 2 (149-194): the candidate pool near the destination. *)
Definition nearbyCandidates (env : Env) (destinationResult : Prediction)
    : M (Response + list NearbyPlace) :=
  let lat := JS.show (pr_lat destinationResult) in
  let lon := JS.show (pr_lon destinationResult) in
  let placesCacheKey := ("places_" ++ lat ++ "_" ++ lon)%string in
  let* w := getWorld in
  let* cached :=
    match validationPlaces w !! placesCacheKey with
    | Some _ =>
        let* t := now env in
        ret (get CACHE_DURATION_init placesCacheKey t (validationPlaces w))
    | None => ret None
    end in
  match cached with
  | Some nearbyPlaces => ret (inr nearbyPlaces)
  | None =>
      let* response := fetchNearby env lat lon "10000" in
      match response with
      | Throws e => ret (inl (internalError e))
      | NotOk error =>
          ret (inl (Error 500 "Failed to validate places"
                      (Some [orDefault error "Nearby places service unavailable"])))
      | Ok nearbyPlaces =>
          let* t := now env in
          let* w' := getWorld in
          let* _ := setValidationPlaces
                      (put placesCacheKey nearbyPlaces t (validationPlaces w')) in
          ret (inr nearbyPlaces)
      end
  end.

(** The entry pushed onto [validatedPlaces] for a matched place. *)
Definition asValidated (m : NearbyPlace) : ValidatedPlace :=
  mkValidatedPlace (np_name m) (np_id m) (np_lat m) (np_lon m).

(** Step 3 (199-267): one pass over the requested places, pushing onto
    [validatedPlaces] or [invalidPlaces]. *)
Definition matchStep (nearbyPlaces : list NearbyPlace)
    (acc : list ValidatedPlace * list string) (requestedPlace : string)
    : list ValidatedPlace * list string :=
  match matchedPlace requestedPlace nearbyPlaces with
  | Some m =>
      (fst acc ++ [asValidated m], snd acc)
  | None => (fst acc, snd acc ++ [requestedPlace])
  end.

Definition matchPlaces (places : list string) (nearbyPlaces : list NearbyPlace)
    : list ValidatedPlace * list string :=
  fold_left (matchStep nearbyPlaces) places ([], []).

(** The two arrays the loop of step 3 builds, described element-wise. *)
Definition validatedOf (nearbyPlaces : list NearbyPlace) (places : list string)
    : list ValidatedPlace :=
  flat_map (fun r => match matchedPlace r nearbyPlaces with
                     | Some m => [asValidated m]
                     | None => []
                     end) places.

Definition invalidOf (nearbyPlaces : list NearbyPlace) (places : list string)
    : list string :=
  List.filter (fun r => match matchedPlace r nearbyPlaces with
                        | Some _ => false
                        | None => true
                        end) places.

(** Lines 269-319: the 404 guard and the success body. *)
Definition respond (destination : string) (places : list string) (days : Q)
    (budget : string) (destinationResult : Prediction)
    (validatedPlaces : list ValidatedPlace) (invalidPlaces : list string) : Response :=
  if Nat.eqb (length validatedPlaces) 0 then
    Error 404 "None of the requested places were found near the destination"
      (Some (map (fun p => (JS.quote ++ p ++ JS.quote ++ " not found near "
                            ++ destination)%string)
                 invalidPlaces))
  else
    Success
      {| r_destination_name :=
           trim (hd EmptyString (split "," (pr_description destinationResult)));
         r_destination_place_id := pr_place_id destinationResult;
         r_destination_lat := pr_lat destinationResult;
         r_destination_lon := pr_lon destinationResult;
         r_places := validatedPlaces;
         r_days := Qfloor days;
         r_budget := budget;
         total_places_requested := length places;
         valid_places_found := length validatedPlaces;
         invalid_places :=
           if Nat.ltb 0 (length invalidPlaces) then Some invalidPlaces else None;
         warnings :=
           if Nat.ltb 0 (length invalidPlaces)
           then Some [(JS.showNat (length invalidPlaces)
                       ++ " place(s) were not found and will be excluded from your trip")%string]
           else None |}.

(** The handler.  [request] is the parsed body, [None] when
    [request.json()] rejects. *)
Definition POST (env : Env) (request : option JSON) : M Response :=
  match request with
  | None => ret (Error 400 "Invalid JSON in request body" None)
  | Some JNull =>
      ret (internalError
             (mkError "TypeError" "Cannot destructure property of null"))
  | Some body =>
      let errors :=
        validate (field "destination" body) (field "places" body)
                 (field "days" body) (field "budget" body) in
      if Nat.ltb 0 (length errors) then
        ret (Error 400 "Validation failed" (Some errors))
      else
        let destination := JS.asString (field "destination" body) in
        let places := map (fun p => JS.asString (Some p))
                          (JS.asArray (field "places" body)) in
        let days := JS.asNumber (field "days" body) in
        let budget := JS.asString (field "budget" body) in
        let* d := validateDestination env destination in
        match d with
        | inl failure => ret failure
        | inr destinationResult =>
            let* n := nearbyCandidates env destinationResult in
            match n with
            | inl failure => ret failure
            | inr nearbyPlaces =>
                let '(validatedPlaces, invalidPlaces) :=
                  matchPlaces places nearbyPlaces in
                ret (respond destination places days budget destinationResult
                             validatedPlaces invalidPlaces)
            end
        end
  end.

(** The two families of keys of [validationCache] (92, 150). *)
Definition destinationCacheKey (destination : string) : string :=
  ("dest_" ++ trim (toLowerCase destination))%string.

Definition placesCacheKey (lat lon : option string) : string :=
  ("places_" ++ JS.show lat ++ "_" ++ JS.show lon)%string.

(** A requested place the validation lets through: a string that is not
    blank. *)
Definition namedPlace (p : JSON) : Prop :=
  exists s, p = JStr s /\ trim s <> EmptyString.

(** The names listed under [invalid_places], none when the property is
    left out. *)
Definition invalidNames (b : ValidatedResponse) : list string :=
  match invalid_places b with Some l => l | None => [] end.

End TripInit.

(** ** trip/resolve: coordinates for an itinerary (resolve/route.ts) *)

Module TripResolve.
Import ResultCache.

(** The itinerary of the [TripItinerary] interface (5-16): days that
    hold a list of places, places that hold a name and a time slot.  The
    loop of the handler is modelled on data of this type;
    [it_itinerary] is [None] when the property is not an array. *)
Record ItPlace := mkItPlace { ip_name : string; ip_time : TimeSlot }.

Record ItDay := mkItDay { d_day : Q; d_places : list ItPlace }.

Record TripItinerary := mkTripItinerary {
  it_destination : string;
  it_days : Q;
  it_budget : string;
  it_itinerary : option (list ItDay)
}.

Record EnrichedPlace := mkEnrichedPlace {
  ep_name : string;
  ep_time : TimeSlot;
  ep_lat : option string;
  ep_lon : option string;
  ep_place_id : option string;
  ep_address : option string;
  ep_type : option string
}.

Record EnrichedDay := mkEnrichedDay { ed_day : Q; ed_places : list EnrichedPlace }.

Record EnrichedItinerary := mkEnrichedItinerary {
  e_destination : string;
  e_days : Q;
  e_budget : string;
  e_itinerary : list EnrichedDay;
  total_places : nat;
  resolved_places : nat;
  unresolved_places : list string;
  resolution_time : Z
}.

Inductive Response :=
| Error (status : Z) (error : string) (details : option string)
| Success (body : EnrichedItinerary).

(** *** resolveCoordinates (58-169) *)

Definition cacheKey (placeName : string) (destinationLat destinationLon : option string)
    : string :=
  (toLowerCase placeName ++ "_" ++ JS.show destinationLat ++ "_"
   ++ JS.show destinationLon)%string.

Definition fromNearby (p : NearbyPlace) : Coordinates :=
  {| c_lat := Some (np_lat p); c_lon := Some (np_lon p);
     c_place_id := Some (np_id p); c_address := None; c_type := Some (np_type p) |}.

Definition fromPrediction (p : Prediction) : Coordinates :=
  {| c_lat := pr_lat p; c_lon := pr_lon p;
     c_place_id := pr_place_id p; c_address := None; c_type := Some (pr_type p) |}.

(** Lines 95-130: the exact pass over the pool, then the substring
    pass. *)
Definition nearbyMatch (placeName : string) (nearbyPlaces : list NearbyPlace)
    : option NearbyPlace :=
  let normalizedSearchName := trim (toLowerCase placeName) in
  match List.find
          (fun p => String.eqb (trim (toLowerCase (np_name p))) normalizedSearchName)
          nearbyPlaces with
  | Some exactMatch => Some exactMatch
  | None =>
      List.find
        (fun p =>
           let placeNameLower := toLowerCase (np_name p) in
           includes placeNameLower normalizedSearchName
           || includes normalizedSearchName placeNameLower)
        nearbyPlaces
  end.

(** [coordinateCache.set(cacheKey, { data: result, timestamp: Date.now() });
    return result] *)
Definition store (env : Env) (key : string) (result : Coordinates)
    : M (option Coordinates) :=
  let* t := now env in
  let* w := getWorld in
  let* _ := setCoordinateCache (put key result t (coordinateCache w)) in
  ret (Some result).

(** A call of [resolveCoordinates] between two suspensions: waiting for
    the nearby response, waiting for the autocomplete response, or
    returned. *)
Inductive Task :=
| AwaitNearby (response : Upstream (list NearbyPlace))
| AwaitAutocomplete (response : Upstream (list Prediction))
| Done (result : option Coordinates).

(** The call up to its first suspension (65-88): a fresh cache hit
    returns at once, otherwise the nearby request is issued. *)
Definition resolveCoordinates_start (env : Env) (placeName : string)
    (destinationLat destinationLon : option string) : M Task :=
  let key := cacheKey placeName destinationLat destinationLon in
  let* w := getWorld in
  let* hit :=
    match coordinateCache w !! key with
    | Some _ =>
        let* t := now env in
        let r := get_evict CACHE_DURATION_resolve key t (coordinateCache w) in
        let* _ := setCoordinateCache (snd r) in
        ret (fst r)
    | None => ret None
    end in
  match hit with
  | Some cached => ret (Done (Some cached))
  | None =>
      let* response :=
        fetchNearby env (JS.show destinationLat) (JS.show destinationLon) "20000" in
      ret (AwaitNearby response)
  end.

(** The call resumed when the response it waits for has arrived: up to
    the autocomplete request (90-142), or up to its return (144-168). *)
Definition resolveCoordinates_resume (env : Env) (placeName : string)
    (destinationLat destinationLon : option string) (t : Task) : M Task :=
  let key := cacheKey placeName destinationLat destinationLon in
  match t with
  | AwaitNearby (Throws _) => ret (Done None)
  | AwaitNearby response =>
      match match response with
            | Ok nearbyPlaces => nearbyMatch placeName nearbyPlaces
            | _ => None
            end with
      | Some m =>
          let* r := store env key (fromNearby m) in
          ret (Done r)
      | None =>
          let* fallback :=
            fetchAutocomplete env
              (placeName ++ " " ++ JS.show destinationLat ++ " "
               ++ JS.show destinationLon)%string in
          ret (AwaitAutocomplete fallback)
      end
  | AwaitAutocomplete (Ok (bestMatch :: _)) =>
      let* r := store env key (fromPrediction bestMatch) in
      ret (Done r)
  | AwaitAutocomplete _ => ret (Done None)
  | Done r => ret (Done r)
  end.

Definition result (t : Task) : option Coordinates :=
  match t with Done r => r | _ => None end.

(** One call run on its own, from start to return. *)
Definition resolveCoordinates (env : Env) (placeName : string)
    (destinationLat destinationLon : option string) : M (option Coordinates) :=
  let* t0 := resolveCoordinates_start env placeName destinationLat destinationLon in
  let* t1 := resolveCoordinates_resume env placeName destinationLat destinationLon t0 in
  let* t2 := resolveCoordinates_resume env placeName destinationLat destinationLon t1 in
  ret (result t2).

(** *** POST (171-336) *)

(** What the callback of one place returns (250-270). *)
Definition enrich (destinationLat destinationLon : option string) (place : ItPlace)
    (coordinates : option Coordinates) : EnrichedPlace :=
  match coordinates with
  | Some c =>
      mkEnrichedPlace (ip_name place) (ip_time place) (c_lat c) (c_lon c)
                      (c_place_id c) (c_address c) (c_type c)
  | None =>
      mkEnrichedPlace (ip_name place) (ip_time place) destinationLat destinationLon
                      None None None
  end.

(** The places of one day with their calls, and the two counters of the
    handler. *)
Record Progress := mkProgress {
  pg_tasks : list (ItPlace * Task);
  pg_unresolved : list string;
  pg_count : nat
}.

(** What the callback does to the counters once its call has returned:
    [resolvedCount++] or [unresolvedPlaces.push(place.name)]. *)
Definition account (place : ItPlace) (t : Task) (unresolvedPlaces : list string)
    (resolvedCount : nat) : list string * nat :=
  match t with
  | Done (Some _) => (unresolvedPlaces, S resolvedCount)
  | Done None => (unresolvedPlaces ++ [ip_name place], resolvedCount)
  | _ => (unresolvedPlaces, resolvedCount)
  end.

Definition pending (t : Task) : bool :=
  match t with Done _ => false | _ => true end.

Definition countPending (tasks : list (ItPlace * Task)) : nat :=
  length (List.filter (fun pt => pending (snd pt)) tasks).

(** Resume the [k]-th of the suspended calls, counting from 0, and run
    its callback on if the call returns. *)
Fixpoint resumeNth (env : Env) (destinationLat destinationLon : option string) (k : nat)
    (tasks : list (ItPlace * Task)) (unresolvedPlaces : list string) (resolvedCount : nat)
    : M Progress :=
  match tasks with
  | [] => ret (mkProgress [] unresolvedPlaces resolvedCount)
  | (place, t) :: rest =>
      if pending t then
        match k with
        | 0 =>
            let* t' := resolveCoordinates_resume env (ip_name place)
                         destinationLat destinationLon t in
            let counters := account place t' unresolvedPlaces resolvedCount in
            ret (mkProgress ((place, t') :: rest) (fst counters) (snd counters))
        | S k' =>
            let* pg := resumeNth env destinationLat destinationLon k' rest
                         unresolvedPlaces resolvedCount in
            ret (mkProgress ((place, t) :: pg_tasks pg) (pg_unresolved pg) (pg_count pg))
        end
      else
        let* pg := resumeNth env destinationLat destinationLon k rest
                     unresolvedPlaces resolvedCount in
        ret (mkProgress ((place, t) :: pg_tasks pg) (pg_unresolved pg) (pg_count pg))
  end.

(** The event loop while [Promise.all] waits: as long as a call is
    suspended, one of the suspended calls, any of them, is resumed. *)
Fixpoint settle (fuel : nat) (env : Env) (destinationLat destinationLon : option string)
    (pg : Progress) : M Progress :=
  match fuel with
  | 0 => ret pg
  | S fuel' =>
      match countPending (pg_tasks pg) with
      | 0 => ret pg
      | S m =>
          let* k := turn env in
          let* pg' := resumeNth env destinationLat destinationLon (k mod S m)
                        (pg_tasks pg) (pg_unresolved pg) (pg_count pg) in
          settle fuel' env destinationLat destinationLon pg'
      end
  end.

(** The callbacks whose call returned without suspending run on first,
    in list order. *)
Fixpoint accountAll (tasks : list (ItPlace * Task)) (unresolvedPlaces : list string)
    (resolvedCount : nat) : list string * nat :=
  match tasks with
  | [] => (unresolvedPlaces, resolvedCount)
  | (place, t) :: rest =>
      let counters := account place t unresolvedPlaces resolvedCount in
      accountAll rest (fst counters) (snd counters)
  end.

(** One day (235-277).  [day.places.map(async ...)] starts every call in
    list order, each running to its first suspension before the next
    starts.  The suspended calls are then resumed in the order the
    responses arrive, which the schedule decides; a call is resumed at
    most twice. *)
Definition runDay (env : Env) (destinationLat destinationLon : option string)
    (day : ItDay) (unresolvedPlaces : list string) (resolvedCount : nat) : M Progress :=
  let* started :=
    mapM (fun p =>
            let* t := resolveCoordinates_start env (ip_name p)
                        destinationLat destinationLon in
            ret (p, t))
         (d_places day) in
  let counters := accountAll started unresolvedPlaces resolvedCount in
  settle (2 * length started) env destinationLat destinationLon
         (mkProgress started (fst counters) (snd counters)).

(** [Promise.all] hands back the entries of the callbacks in list order. *)
Definition resolveDay (env : Env) (destinationLat destinationLon : option string)
    (day : ItDay) (unresolvedPlaces : list string) (resolvedCount : nat)
    : M (EnrichedDay * list string * nat) :=
  let* pg := runDay env destinationLat destinationLon day
                    unresolvedPlaces resolvedCount in
  ret (mkEnrichedDay (d_day day)
         (map (fun pt => enrich destinationLat destinationLon (fst pt) (result (snd pt)))
              (pg_tasks pg)),
       pg_unresolved pg, pg_count pg).

Fixpoint resolveDays (env : Env) (destinationLat destinationLon : option string)
    (days : list ItDay) (unresolvedPlaces : list string) (resolvedCount : nat)
    : M (list EnrichedDay * list string * nat) :=
  match days with
  | [] => ret ([], unresolvedPlaces, resolvedCount)
  | day :: rest =>
      let* r := resolveDay env destinationLat destinationLon day
                           unresolvedPlaces resolvedCount in
      let* r' := resolveDays env destinationLat destinationLon rest
                             (snd (fst r)) (snd r) in
      ret (fst (fst r) :: fst (fst r'), snd (fst r'), snd r')
  end.

(** The outer [catch] (309-335). *)
Definition catchError (e : JSError) : Response :=
  if String.eqb (err_name e) "AbortError" then
    Error 500 "Coordinate resolution timeout" (Some "Please try again with fewer places")
  else if includes (err_message e) "fetch" then
    Error 500 "Failed to connect to location services"
          (Some "Please check your internet connection and try again")
  else Error 500 (err_message e) None.

Definition totalPlaces (days : list ItDay) : nat :=
  fold_left (fun count day => count + length (d_places day)) days 0.

(** Lines 211-220: the destination's coordinates, ['0'] unless the
    autocomplete answer is usable. *)
Definition destinationCoordinates (destinationResult : Upstream (list Prediction))
    : option string * option string :=
  match destinationResult with
  | Ok (p :: _) => (pr_lat p, pr_lon p)
  | _ => (Some "0", Some "0")
  end.

Definition invalidStructure : Response :=
  Error 400 "Invalid itinerary structure"
        (Some "Expected: { destination, days, budget, itinerary: [...] }").

(** Lines 222-307: the loop over the days and the answer built from it,
    from the destination coordinates lines 211-220 have set. *)
Definition resolveItinerary (env : Env) (itineraryData : TripItinerary)
    (days : list ItDay) (startTime : Z) (destinationLat destinationLon : option string)
    : M Response :=
  let* r := resolveDays env destinationLat destinationLon days [] 0 in
  let* t := now env in
  ret (Success
         {| e_destination := it_destination itineraryData;
            e_days := it_days itineraryData;
            e_budget := it_budget itineraryData;
            e_itinerary := fst (fst r);
            total_places := totalPlaces days;
            resolved_places := snd r;
            unresolved_places := snd (fst r);
            resolution_time := t - startTime |}).

Section Handler.

(** [Number.prototype.toString], the decimal rendering of a number. *)
Variable numberToString : Q -> string.

(** The address of lines 203-204: a path, with the destination
    percent-encoded. *)
Definition destinationPath (destination : option JSON) : string :=
  ("/api/places/autocomplete?q="
   ++ JSGlobal.encodeURIComponent
        (JS.toString numberToString
           (match destination with Some v => v | None => JNull end)))%string.

(** The handler.  [request] is the parsed body, [None] when
    [request.json()] rejects.  Reading [itineraryData.destination] of
    [null] throws.  A body with a destination and an itinerary array
    reaches the [fetch] of line 203, whose address is a bare path: the
    call rejects, and the outer [catch] answers.  Lines 211-307 come
    after that call and are never reached; [destinationCoordinates] and
    [resolveItinerary] are what they compute. *)
Definition POST (env : Env) (request : option JSON) : M Response :=
  let* startTime := now env in
  match request with
  | None => ret (Error 400 "Invalid JSON in request body" None)
  | Some JNull =>
      let* _ := now env in
      ret (catchError
             (mkError "TypeError"
                      "Cannot read properties of null (reading 'destination')"))
  | Some itineraryData =>
      if negb (JS.truthy (JS.field "destination" itineraryData))
         || negb (JS.isArray (JS.field "itinerary" itineraryData))
      then ret invalidStructure
      else
        let* rejected := fetchPath (destinationPath (JS.field "destination" itineraryData)) in
        let* _ := now env in
        ret (catchError rejected)
  end.

End Handler.

(** *** Upstream data that carries coordinates *)

Definition hasCoordinates (c : Coordinates) : Prop :=
  c_lat c <> None /\ c_lon c <> None.

Definition cacheCarriesCoordinates (w : World) : Prop :=
  forall key e, coordinateCache w !! key = Some e -> hasCoordinates (data e).

Definition predictionsCarryCoordinates (env : Env) : Prop :=
  forall q k l p, autocomplete env q k = Ok l -> In p l ->
                  pr_lat p <> None /\ pr_lon p <> None.

Definition placed (ep : EnrichedPlace) : Prop :=
  ep_lat ep <> None /\ ep_lon ep <> None.

Definition taskCarriesCoordinates (t : Task) : Prop :=
  match t with
  | AwaitAutocomplete (Ok l) =>
      forall p, In p l -> pr_lat p <> None /\ pr_lon p <> None
  | Done (Some c) => hasCoordinates c
  | _ => True
  end.

(** *** Reading the result of the loop *)

Definition unresolvedOf {A} (r : A * list string * nat) : list string := snd (fst r).
Definition countOf {A} (r : A * list string * nat) : nat := snd r.

(** A place whose call returned empty is named in the unresolved list. *)
Definition listed (u : list string) (pt : ItPlace * Task) : Prop :=
  snd pt = Done None -> In (ip_name (fst pt)) u.

(** The resumptions a call still needs, at most. *)
Definition stepsLeft (t : Task) : nat :=
  match t with AwaitNearby _ => 2 | AwaitAutocomplete _ => 1 | Done _ => 0 end.

Definition workLeft (tasks : list (ItPlace * Task)) : nat :=
  list_sum (map (fun pt => stepsLeft (snd pt)) tasks).

Definition countDone (tasks : list (ItPlace * Task)) : nat :=
  length (List.filter (fun pt => negb (pending (snd pt))) tasks).

(** The number of places of an itinerary, day by day. *)
Definition placeCount (days : list ItDay) : nat :=
  list_sum (map (fun day => length (d_places day)) days).

(** *** Reading the answer and the calls in flight *)

(** The HTTP status of an answer. *)
Definition statusOf (r : Response) : Z :=
  match r with Error status _ _ => status | Success _ => 200 end.

(** A call that still waits for the answer of the nearby search. *)
Definition awaitsNearby (t : Task) : bool :=
  match t with AwaitNearby _ => true | _ => false end.

Definition countAwaitingNearby (tasks : list (ItPlace * Task)) : nat :=
  length (List.filter (fun pt => awaitsNearby (snd pt)) tasks).

(** *** Names on the unresolved list *)


End TripResolve.

(** ** trip/create: itinerary generation (create/route.ts) *)

Module TripCreate.

Record Destination := mkDestination {
  dest_name : option string;
  dest_lat : option string;
  dest_lon : option string
}.

Record SelectedPlace := mkSelectedPlace {
  sp_name : option string;
  sp_lat : option string;
  sp_lon : option string;
  sp_type : option string;
  sp_id : option string
}.

(** What the [selectedPlaces] property holds: nothing, [null], a value
    that is not an array, or an array.  An entry of the array is an
    object or [null], [None] here; a number, a string or a boolean has
    none of the properties the handler reads and stands as an object
    without them. *)
Inductive Selection :=
| Absent
| Null
| NotArray
| Entries (entries : list (option SelectedPlace)).

Record Body := mkBody {
  destination : option Destination;
  selectedPlaces : Selection;
  days : option JSON;
  budget : option JSON
}.

Record PlanningInfo := mkPlanningInfo {
  places_included : nat;
  generation_time : Z
}.

(** The [itinerary] of a success is the value the generator's message
    parsed to, with the coordinates filled in. *)
Inductive Response :=
| Error (status : Z) (error : string) (details : option string)
| Success (itinerary : JSON) (planning_info : PlanningInfo).

Definition MIN_GROQ_INTERVAL : Z := 1000.

(** Lines 176-181: how long the handler waits before calling the
    generator. *)
Definition throttleDelay (now lastRequest : Z) : Z :=
  if Z.ltb (now - lastRequest) MIN_GROQ_INTERVAL
  then MIN_GROQ_INTERVAL - (now - lastRequest)
  else 0.

Definition falsy (v : option string) : bool :=
  match v with Some s => negb (JSString.truthy s) | None => true end.

(** [destination?.name], and likewise for the other properties. *)
Definition destField (f : Destination -> option string) (d : option Destination)
    : option string :=
  match d with Some d' => f d' | None => None end.

(** The entries of an array none of which is [null]. *)
Fixpoint objects (entries : list (option SelectedPlace)) : option (list SelectedPlace) :=
  match entries with
  | [] => Some []
  | Some place :: rest => option_map (cons place) (objects rest)
  | None :: _ => None
  end.

(** Lines 93-97: one message per place without name or coordinates. *)
Fixpoint placeErrors (index : nat) (selected : list SelectedPlace) : list string :=
  match selected with
  | [] => []
  | p :: rest =>
      (if falsy (sp_name p) || falsy (sp_lat p) || falsy (sp_lon p)
       then [("Place " ++ JS.showNat (index + 1) ++ " ("
              ++ (if falsy (sp_name p) then "unnamed" else JS.show (sp_name p))
              ++ ") missing required coordinates")%string]
       else [])
      ++ placeErrors (S index) rest
  end.

(** Lines 80-105: the [errors] array, for a [selectedPlaces] that is an
    array without [null] (on anything else line 93 throws). *)
Definition validate (destination : option Destination)
    (selected : list SelectedPlace) (days budget : option JSON)
    : list string :=
  (if falsy (destField dest_name destination) || falsy (destField dest_lat destination)
      || falsy (destField dest_lon destination)
   then ["Destination must include name, latitude, and longitude"] else [])
  ++ (if Nat.eqb (length selected) 0
      then ["Selected places cannot be empty"]
      else if Nat.ltb 20 (length selected)
      then ["Maximum 20 places allowed per trip"] else [])
  ++ placeErrors 0 selected
  ++ (if JS.invalidDays days
      then ["Days must be a number between 1 and 30"] else [])
  ++ (if negb (JS.isString budget
               && existsb (String.eqb (JS.asString budget)) ["low"; "moderate"; "luxury"])
      then ["Budget must be one of: low, moderate, luxury"] else []).

(** *** The generated itinerary as a value *)

Definition typeError (message : string) : JSError := mkError "TypeError" message.

Definition hasKey (key : string) (fields : list (string * JSON)) : bool :=
  existsb (fun kv => String.eqb (fst kv) key) fields.

(** [object[key] = value]: the property keeps its place when the object
    has it, and comes last when it has not.  Assigning [undefined], [None]
    here, leaves a property that [JSON.stringify] does not write: the
    property is gone from the answer. *)
Definition assign (key : string) (value : option JSON) (object : JSON) : JSON :=
  match object with
  | JObj fields =>
      match value with
      | Some v =>
          if hasKey key fields
          then JObj (map (fun kv => if String.eqb (fst kv) key then (key, v) else kv) fields)
          else JObj (fields ++ [(key, v)])
      | None => JObj (List.filter (fun kv => negb (String.eqb (fst kv) key)) fields)
      end
  | _ => object
  end.








(** *** The repair of the coordinates (271-286) *)

(** The test of lines 275-278 on the name of a generated place. *)
Definition overlaps (name : string) (sp : SelectedPlace) : bool :=
  includes (toLowerCase (JS.show (sp_name sp))) (toLowerCase name)
  || includes (toLowerCase name) (toLowerCase (JS.show (sp_name sp))).

(** One place.  Reading [place.lat] of [null] throws.  A place without
    a coordinate is looked for among the selected places, which calls
    [place.name.toLowerCase()] on the first of them: that throws unless
    the name is a string.  The place found hands over its coordinates
    and its type. *)
Definition repairPlace (selected : list SelectedPlace) (place : JSON) : JSError + JSON :=
  match place with
  | JNull => inl (typeError "Cannot read properties of null (reading 'lat')")
  | _ =>
      if negb (JS.truthy (JS.field "lat" place)) || negb (JS.truthy (JS.field "lon" place))
      then
        match selected with
        | [] => inr place
        | _ :: _ =>
            match JS.field "name" place with
            | Some (JStr name) =>
                match List.find (overlaps name) selected with
                | Some originalPlace =>
                    inr (assign "type" (option_map JStr (sp_type originalPlace))
                           (assign "lon" (option_map JStr (sp_lon originalPlace))
                              (assign "lat" (option_map JStr (sp_lat originalPlace)) place)))
                | None => inr place
                end
            | None =>
                inl (typeError "Cannot read properties of undefined (reading 'toLowerCase')")
            | Some JNull =>
                inl (typeError "Cannot read properties of null (reading 'toLowerCase')")
            | Some _ => inl (typeError "place.name.toLowerCase is not a function")
            end
        end
      else inr place
  end.

(** [forEach] over an array: the first entry that throws ends it. *)
Fixpoint forEach (f : JSON -> JSError + JSON) (l : list JSON) : JSError + list JSON :=
  match l with
  | [] => inr []
  | x :: rest =>
      match f x with
      | inl e => inl e
      | inr y =>
          match forEach f rest with
          | inl e => inl e
          | inr ys => inr (y :: ys)
          end
      end
  end.

(** One day: [day.places.forEach] needs [day.places] to be an array. *)
Definition repairDay (selected : list SelectedPlace) (day : JSON) : JSError + JSON :=
  match day with
  | JNull => inl (typeError "Cannot read properties of null (reading 'places')")
  | _ =>
      match JS.field "places" day with
      | Some (JArr places) =>
          match forEach (repairPlace selected) places with
          | inl e => inl e
          | inr repaired => inr (assign "places" (Some (JArr repaired)) day)
          end
      | None => inl (typeError "Cannot read properties of undefined (reading 'forEach')")
      | Some JNull => inl (typeError "Cannot read properties of null (reading 'forEach')")
      | Some _ => inl (typeError "day.places.forEach is not a function")
      end
  end.



(** The outer [catch] (309-319). *)
Definition catchError (e : JSError) : Response :=
  Error 500 "Internal server error" (Some (err_message e)).

(** [fetch(GROQ_API_URL, ...)] *)
Definition callGenerator (env : Env) : M GeneratorReply := fun w =>
  (generator env (length (calls w)), snd (logCall CallGenerator w)).

(** Lines 241-307: the check of the parsed message, the repair and the
    answer. *)
Definition finishGeneration (env : Env) (selected : list SelectedPlace) (startTime : Z)
    (content : LLMContent) : M Response :=
  match content with
  | NoContent => ret (Error 500 "Empty AI response" None)
  | Unparsable =>
      ret (Error 500 "AI returned invalid format"
             (Some "Generated response was not valid JSON"))
  | Parsed JNull =>
      ret (catchError
             (typeError "Cannot read properties of null (reading 'destination')"))
  | Parsed itinerary =>
      if negb (JS.truthy (JS.field "destination" itinerary))
         || negb (JS.truthy (JS.field "itinerary" itinerary))
         || negb (JS.isArray (JS.field "itinerary" itinerary))
      then ret (Error 500 "AI returned incomplete itinerary" None)
      else
        match forEach (repairDay selected) (JS.asArray (JS.field "itinerary" itinerary)) with
        | inl e => ret (catchError e)
        | inr repaired =>
            let* t := now env in
            ret (Success (assign "itinerary" (Some (JArr repaired)) itinerary)
                   (mkPlanningInfo (length selected) (t - startTime)))
        end
  end.

(** Lines 176-239: throttle and generator call.  The throttle reads the
    clock and waits for [throttleDelay]; the wait only lets time pass,
    which the later values of the clock oracle account for. *)
Definition generate (env : Env) (selected : list SelectedPlace) (startTime : Z)
    : M Response :=
  let* _ := now env in
  if falsy (groqApiKey env) then ret (Error 500 "Groq API key not configured" None)
  else
    let* reply := callGenerator env in
    match reply with
    | GenThrows e => ret (catchError e)
    | GenStatus status =>
        let* t := now env in
        let* _ := setLastGroqRequest t in
        ret (Error 500 "AI service error"
               (Some (if Z.eqb status 429 then "Rate limit exceeded"
                      else "AI service unavailable")))
    | GenUnreadable e =>
        let* t := now env in
        let* _ := setLastGroqRequest t in
        ret (catchError e)
    | GenContent content =>
        let* t := now env in
        let* _ := setLastGroqRequest t in
        finishGeneration env selected startTime content
    end.

(** The handler.  [request] is the parsed body, [None] when
    [request.json()] rejects.  [selectedPlaces.forEach] of line 93 throws
    on what is not an array, and its callback throws on an entry that is
    [null]: the errors found until then are dropped and the outer [catch]
    answers. *)
Definition POST (env : Env) (request : option Body) : M Response :=
  let* startTime := now env in
  match request with
  | None => ret (Error 400 "Invalid JSON in request body" None)
  | Some tripData =>
      match selectedPlaces tripData with
      | Absent =>
          ret (catchError
                 (typeError "Cannot read properties of undefined (reading 'forEach')"))
      | Null =>
          ret (catchError
                 (typeError "Cannot read properties of null (reading 'forEach')"))
      | NotArray =>
          ret (catchError (typeError "selectedPlaces.forEach is not a function"))
      | Entries entries =>
          match objects entries with
          | None =>
              ret (catchError
                     (typeError "Cannot read properties of null (reading 'name')"))
          | Some selected =>
              let errors :=
                validate (destination tripData) selected
                         (days tripData) (budget tripData) in
              if Nat.ltb 0 (length errors) then
                ret (Error 400 "Validation failed" (Some (join "; " errors)))
              else generate env selected startTime
          end
      end
  end.

(** *** Places with coordinates *)





(** *** Values the repair goes through *)



End TripCreate.

(** What a [fetch] of a handler comes to, up to the parsed body of type
    [A]: the request fails, the response is not ok and has the given
    status and text, the body is not JSON, the body is the JSON [null],
    of which no property can be read, or the body is another value and
    [data] is what the handler reads of it. *)
Inductive Fetched (A : Type) :=
| FetchFails (e : JSError)
| FetchStatus (status : Z) (errorText : string)
| FetchNotJson (e : JSError)
| FetchNull
| FetchJson (data : A).
Arguments FetchFails {A} e.
Arguments FetchStatus {A} status errorText.
Arguments FetchNotJson {A} e.
Arguments FetchNull {A}.
Arguments FetchJson {A} data.

(** ** places/autocomplete: suggestions from Foursquare
    (the first handler of unnamed/part_002) *)

Module PlacesAutocomplete.
Import JSGlobal.

(** A result of the Foursquare autocomplete, as far as the handler reads
    it: [place.location?.formatted_address], [place.location?.locality]
    and [place.categories?.[0]?.name] are absent when any link of the
    chain is. *)
Record FsqPlace := mkFsqPlace {
  fsq_place_id : option string;
  fsq_name : option string;
  fsq_formatted_address : option string;
  fsq_locality : option string;
  fsq_latitude : option Q;
  fsq_longitude : option Q;
  fsq_category : option string
}.

(** The query parameters the handler reads. *)
Record Params := mkParams {
  q : option string;
  lat : option string;
  lng : option string;
  limit : option string
}.

Record Suggestion := mkSuggestion {
  sg_place_id : option string;
  sg_description : string;
  sg_lat : option string;
  sg_lon : option string;
  sg_type : string;
  sg_name : option string
}.

(** The answer: 200 with the predictions, or 500 with the message of the
    error and the type [autocomplete_error]. *)
Inductive Response :=
| Predictions (predictions : list Suggestion)
| Failure (error : string).

Definition statusOf (r : Response) : Z :=
  match r with Predictions _ => 200 | Failure _ => 500 end.

Section Handler.

(** [Number.prototype.toString], the decimal rendering of a number. *)
Variable numberToString : Q -> string.

(** Lines 39-46: the prediction built from one result. *)
Definition toSuggestion (place : FsqPlace) : Suggestion :=
  {| sg_place_id := fsq_place_id place;
     sg_description :=
       (JS.show (fsq_name place) ++ ", "
        ++ orElse (fsq_formatted_address place) (orElse (fsq_locality place) ""))%string;
     sg_lat := option_map numberToString (fsq_latitude place);
     sg_lon := option_map numberToString (fsq_longitude place);
     sg_type := orElse (fsq_category place) "place";
     sg_name := fsq_name place |}.

(** Lines 14-18: the address of the upstream request. *)
Definition url (query limit : string) (lat lng : option string) : string :=
  ("https://places-api.foursquare.com/autocomplete?query=" ++ encodeURIComponent query
   ++ "&limit=" ++ limit
   ++ (if given lat && given lng then "&ll=" ++ JS.show lat ++ "," ++ JS.show lng
       else ""))%string.

(** The handler, with the addresses it fetched.  [fetch] answers a
    request with the [results] of the parsed body, absent when the body
    has none; on a body that is [null], reading [data.results] throws. *)
Definition GET (fetch : string -> Fetched (option (list FsqPlace))) (p : Params)
    : Response * list string :=
  match q p with
  | Some query =>
      if JSString.truthy query && Nat.leb 2 (length16 query) then
        let address := url query (orElse (limit p) "5") (lat p) (lng p) in
        (match fetch address with
         | FetchFails e => Failure (err_message e)
         | FetchStatus status errorText =>
             Failure ("Foursquare API error: " ++ pretty status ++ " - " ++ errorText)%string
         | FetchNotJson e => Failure (err_message e)
         | FetchNull => Failure "Cannot read properties of null (reading 'results')"
         | FetchJson results =>
             Predictions (map toSuggestion (match results with Some l => l | None => [] end))
         end, [address])
      else (Predictions [], [])
  | None => (Predictions [], [])
  end.

(** What the trip routes read of a suggestion, and of an answer. *)
Definition asPrediction (s : Suggestion) : Prediction :=
  mkPrediction (sg_place_id s) (sg_description s) (sg_lat s) (sg_lon s) (sg_type s).

Definition asUpstream (r : Response) : Upstream (list Prediction) :=
  match r with
  | Predictions l => Ok (map asPrediction l)
  | Failure error => NotOk (Some error)
  end.

(** The autocomplete service of the trip routes when it is this handler:
    they send [q] and nothing else. *)
Definition served (foursquare : string -> nat -> Fetched (option (list FsqPlace)))
    (query : string) (k : nat) : Upstream (list Prediction) :=
  asUpstream (fst (GET (fun address => foursquare address k)
                       (mkParams (Some query) None None None))).

End Handler.

(** A character [encodeURIComponent] may produce. *)
Definition uriSafe (c : ascii) : Prop := unreserved c = true \/ c = "%"%char.

End PlacesAutocomplete.

(** ** places/nearby: attractions from Overpass (unnamed/part_001) *)

Module PlacesNearby.
Import JSGlobal.

(** Lines 21-31. *)
Definition typeMapping : list (string * string) :=
  [ ("tourist_attraction", "attraction");
    ("attraction", "attraction");
    ("museum", "museum");
    ("hotel", "hotel");
    ("restaurant", "restaurant");
    ("viewpoint", "viewpoint");
    ("monument", "monument");
    ("gallery", "gallery");
    ("information", "information") ].

(** The names every object literal inherits from [Object.prototype]:
    [typeMapping[name]] is then a function or an object, which is truthy
    and is not a string. *)
Definition inheritedKeys : list string :=
  [ "constructor"; "hasOwnProperty"; "isPrototypeOf"; "propertyIsEnumerable";
    "toLocaleString"; "toString"; "valueOf"; "__defineGetter__"; "__defineSetter__";
    "__lookupGetter__"; "__lookupSetter__"; "__proto__" ].

Inductive OsmType :=
| Tag (tag : string)
| Inherited (key : string).

(** [typeMapping[type] || 'attraction'] *)
Definition osmTypeOf (type : string) : OsmType :=
  match List.find (fun kv => String.eqb (fst kv) type) typeMapping with
  | Some kv => Tag (snd kv)
  | None => if existsb (String.eqb type) inheritedKeys then Inherited type
            else Tag "attraction"
  end.

(** The text of [`${osmType}`], on V8 for an inherited member. *)
Definition render (t : OsmType) : string :=
  match t with
  | Tag tag => tag
  | Inherited key =>
      if String.eqb key "__proto__" then "[object Object]"
      else ("function "
            ++ (if String.eqb key "constructor" then "Object" else key)
            ++ "() { [native code] }")%string
  end.

Record Params := mkParams {
  lat : option string;
  lon : option string;
  radius : option string;
  type : option string
}.

(** An element of the Overpass answer, as far as the handler reads it. *)
Record Center := mkCenter { ce_lat : option Q; ce_lon : option Q }.

Record Tags := mkTags {
  t_name : option string;
  t_historic : option string;
  t_tourism : option string;
  t_leisure : option string;
  t_amenity : option string
}.

Record Element := mkElement {
  el_id : option Q;
  el_lat : option Q;
  el_lon : option Q;
  el_center : option Center;
  el_tags : option Tags
}.

(** A place of the answer; [pl_type] is absent when it is not a string
    (the member of [Object.prototype] that stood for the OSM type). *)
Record Place := mkPlace {
  pl_id : string;
  pl_name : string;
  pl_lat : string;
  pl_lon : string;
  pl_type : option string;
  pl_category : string
}.

Inductive Response :=
| Error (status : Z) (error : string)
| Places (places : list Place).

Definition statusOf (r : Response) : Z :=
  match r with Error status _ => status | Places _ => 200 end.

(** One upstream request: the OSM type, radius, latitude and longitude
    the Overpass query is built from. *)
Record Query := mkQuery {
  qu_osmType : OsmType;
  qu_radius : string;
  qu_lat : string;
  qu_lon : string
}.

(** [element.center?.lat], [element.tags?.name] and the like. *)
Definition center (f : Center -> option Q) (element : Element) : option Q :=
  match el_center element with Some c => f c | None => None end.

Definition tag (f : Tags -> option string) (element : Element) : option string :=
  match el_tags element with Some t => f t | None => None end.

(** Lines 117-122: the filter. *)
Definition hasCoords (element : Element) : bool :=
  (nonZero (el_lat element) && nonZero (el_lon element))
  || (nonZero (center ce_lat element) && nonZero (center ce_lon element)).

Definition hasName (element : Element) : bool := given (tag t_name element).

Definition keep (element : Element) : bool := hasCoords element && hasName element.

Section Handler.

(** [Number.prototype.toString], the decimal rendering of a number. *)
Variable numberToString : Q -> string.

(** [(a || b || '0').toString()] *)
Definition coordinate (a b : option Q) : string :=
  match a with
  | Some x =>
      if nonZero a then numberToString x
      else match b with
           | Some y => if nonZero b then numberToString y else "0"
           | None => "0"
           end
  | None =>
      match b with
      | Some y => if nonZero b then numberToString y else "0"
      | None => "0"
      end
  end.

(** [a || b || c || d || osmType] *)
Definition placeType (osmType : OsmType) (element : Element) : option string :=
  if given (tag t_tourism element) then tag t_tourism element
  else if given (tag t_historic element) then tag t_historic element
  else if given (tag t_leisure element) then tag t_leisure element
  else if given (tag t_amenity element) then tag t_amenity element
  else match osmType with Tag t => Some t | Inherited _ => None end.

(** Lines 123-130: the place built from one element; [element.id.toString()]
    throws when the element has no id. *)
Definition toPlace (osmType : OsmType) (category : string) (element : Element)
    : JSError + Place :=
  match el_id element with
  | None =>
      inl (mkError "TypeError"
             "Cannot read properties of undefined (reading 'toString')")
  | Some id =>
      inr {| pl_id := numberToString id;
             pl_name :=
               if given (tag t_name element) then JS.show (tag t_name element)
               else if given (tag t_historic element) then JS.show (tag t_historic element)
               else ("Unnamed " ++ render osmType)%string;
             pl_lat := coordinate (el_lat element) (center ce_lat element);
             pl_lon := coordinate (el_lon element) (center ce_lon element);
             pl_type := placeType osmType element;
             pl_category := category |}
  end.

(** [.map(...)] over the elements the filter kept: every one of them is
    converted, and the first that throws ends the handler. *)
Fixpoint toPlaces (osmType : OsmType) (category : string) (elements : list Element)
    : JSError + list Place :=
  match elements with
  | [] => inr []
  | element :: rest =>
      match toPlace osmType category element with
      | inl e => inl e
      | inr place =>
          match toPlaces osmType category rest with
          | inl e => inl e
          | inr places => inr (place :: places)
          end
      end
  end.

Definition invalidCoordinates : Response :=
  Error 400 ("Valid " ++ JS.quote ++ "lat" ++ JS.quote ++ " and " ++ JS.quote ++ "lon"
             ++ JS.quote ++ " query parameters are required")%string.

Definition invalidRadius : Response :=
  Error 400 "Radius must be between 1 and 50000 meters".

(** Lines 57-148, once the parameters are accepted.  [overpass] answers a
    query with the [elements] of the parsed body, empty when the body has
    none; on a body that is [null], reading [data.elements] throws. *)
Definition search (overpass : Query -> Fetched (list Element))
    (lat lon radius type : string) : Response * list Query :=
  let osmType := osmTypeOf type in
  let query := mkQuery osmType radius lat lon in
  (match overpass query with
   | FetchFails e => Error 500 (err_message e)
   | FetchStatus status errorText =>
       Error 500 ("Overpass API error: " ++ pretty status ++ " - " ++ errorText)%string
   | FetchNotJson e => Error 500 (err_message e)
   | FetchNull => Error 500 "Cannot read properties of null (reading 'elements')"
   | FetchJson elements =>
       match toPlaces osmType type (List.filter keep elements) with
       | inl e => Error 500 (err_message e)
       | inr places => Places (firstn 20 places)
       end
   end, [query]).

(** The handler, with the queries it sent upstream. *)
Definition GET (overpass : Query -> Fetched (list Element)) (p : Params)
    : Response * list Query :=
  let radius := orElse (radius p) "2000" in
  let type := orElse (type p) "tourist_attraction" in
  if negb (given (lat p)) || negb (given (lon p))
     || negb (parsesAsNumber (JS.show (lat p))) || negb (parsesAsNumber (JS.show (lon p)))
  then (invalidCoordinates, [])
  else
    match parseInt radius with
    | None => (invalidRadius, [])
    | Some radiusNum =>
        if Z.ltb radiusNum 1 || Z.ltb 50000 radiusNum then (invalidRadius, [])
        else search overpass (JS.show (lat p)) (JS.show (lon p)) radius type
    end.

(** What the trip routes read of a place, and of an answer. *)
Definition asNearbyPlace (place : Place) : NearbyPlace :=
  mkNearby (pl_id place) (pl_name place) (pl_lat place) (pl_lon place)
           (match pl_type place with Some t => t | None => EmptyString end)
           (pl_category place).

Definition asUpstream (r : Response) : Upstream (list NearbyPlace) :=
  match r with
  | Places l => Ok (map asNearbyPlace l)
  | Error _ error => NotOk (Some error)
  end.

(** The nearby service of the trip routes when it is this handler: they
    send [lat], [lon] and [radius], and a [category] and a [limit] that
    the handler does not read. *)
Definition served (overpass : Query -> nat -> Fetched (list Element))
    (lat lon radius : string) (k : nat) : Upstream (list NearbyPlace) :=
  asUpstream (fst (GET (fun query => overpass query k)
                       (mkParams (Some lat) (Some lon) (Some radius) None))).

End Handler.

End PlacesNearby.

(** ** Sample data *)

Module Samples.
Import TripInit.

Definition candidate (id name : string) : NearbyPlace :=
  mkNearby id name "41.8902" "12.4922" "attraction" "tourist_attractions".

Definition fountainCafe : NearbyPlace := candidate "101" "Fountain Cafe".
Definition treviFountain : NearbyPlace := candidate "102" "Trevi Fountain".
Definition colosseo : NearbyPlace := candidate "103" "Colosseo".
Definition fontanaDiTrevi : NearbyPlace := candidate "104" "Fontana di Trevi".

Definition rome : Prediction :=
  mkPrediction (Some "fsq-rome") "Rome, Lazio, Italy" (Some "41.9028") (Some "12.4964")
               "city".

(** A prediction built from a Foursquare result without [latitude] and
    [longitude]. *)
Definition bareVilla : Prediction :=
  mkPrediction (Some "fsq-villa") "Villa Nowhere, " None None "place".

(** Upstream services that know Rome and two of its landmarks. *)
Definition romeEnv : Env :=
  {| clock := fun k => (1000 * Z.of_nat k)%Z;
     autocomplete := fun q _ => if String.eqb q "Rome" then Ok [rome] else Ok [];
     nearby := fun _ _ _ _ => Ok [colosseo; fontanaDiTrevi];
     groqApiKey := Some "key";
     generator := fun _ => GenContent NoContent;
     schedule := fun k => k |}.

(** Two days in Rome; the last place is unknown to every service. *)
Definition romeDays : list TripResolve.ItDay :=
  [TripResolve.mkItDay 1
     [TripResolve.mkItPlace "Colosseo" morning;
      TripResolve.mkItPlace "Fontana di Trevi" afternoon];
   TripResolve.mkItDay 2
     [TripResolve.mkItPlace "NonexistentPlaceXYZ" evening]].

Definition romeTrip : TripResolve.TripItinerary :=
  TripResolve.mkTripItinerary "Rome" 2 "moderate" (Some romeDays).

(** The same itinerary as the body of a request. *)
Definition visit (name time : string) : JSON :=
  JObj [("name", JStr name); ("time", JStr time)].

Definition romeTripBody : JSON :=
  JObj [("destination", JStr "Rome");
        ("days", JNum 2);
        ("budget", JStr "moderate");
        ("itinerary",
         JArr [JObj [("day", JNum 1);
                     ("places", JArr [visit "Colosseo" "morning";
                                      visit "Fontana di Trevi" "afternoon"])];
               JObj [("day", JNum 2);
                     ("places", JArr [visit "NonexistentPlaceXYZ" "evening"])]])].

(** One place that only the autocomplete fallback knows. *)
Definition villaDay : TripResolve.ItDay :=
  TripResolve.mkItDay 1 [TripResolve.mkItPlace "Villa Nowhere" morning].

Definition villaTripBody : JSON :=
  JObj [("destination", JStr "Rome");
        ("days", JNum 1);
        ("budget", JStr "moderate");
        ("itinerary",
         JArr [JObj [("day", JNum 1);
                     ("places", JArr [visit "Villa Nowhere" "morning"])]])].

Definition selectedColosseo : TripCreate.SelectedPlace :=
  TripCreate.mkSelectedPlace (Some "Colosseo") (Some "41.8902") (Some "12.4922")
                             (Some "attraction") (Some "103").

(** A request selecting the same place 21 times. *)
Definition crowdedBody : TripCreate.Body :=
  TripCreate.mkBody
    (Some (TripCreate.mkDestination (Some "Rome") (Some "41.9028") (Some "12.4964")))
    (TripCreate.Entries (repeat (Some selectedColosseo) 21))
    (Some (JNum 2)) (Some (JStr "moderate")).

(** A request whose [selectedPlaces] holds the same place 20 times and
    then [null]. *)
Definition nullEntryBody : TripCreate.Body :=
  TripCreate.mkBody
    (Some (TripCreate.mkDestination (Some "Rome") (Some "41.9028") (Some "12.4964")))
    (TripCreate.Entries (repeat (Some selectedColosseo) 20 ++ [None]))
    (Some (JNum 2)) (Some (JStr "moderate")).

Definition initBody (places : list string) (days : Q) (budget : string) : JSON :=
  JObj [("destination", JStr "Rome");
        ("places", JArr (map JStr places));
        ("days", JNum days);
        ("budget", JStr budget)].

(** Upstream services whose nearby search is down. *)
Definition nearbyDownEnv : Env :=
  {| clock := fun k => (1000 * Z.of_nat k)%Z;
     autocomplete := fun q _ => if String.eqb q "Rome" then Ok [rome] else Ok [];
     nearby := fun _ _ _ _ => NotOk (Some "Overpass API error: 504 - ");
     groqApiKey := Some "key";
     generator := fun _ => GenContent NoContent;
     schedule := fun k => k |}.







(** A stand-in for the rendering of numbers: exact on integers, a
    fraction otherwise. *)
Definition decimal (x : Q) : string :=
  if Pos.eqb (Qden x) 1 then pretty (Qnum x)
  else (pretty (Qnum x) ++ "/" ++ pretty (Zpos (Qden x)))%string.

(** Two results of Foursquare. *)
Definition fsqRome : PlacesAutocomplete.FsqPlace :=
  PlacesAutocomplete.mkFsqPlace (Some "fsq-rome") (Some "Rome") (Some "Roma RM, Italia")
                                (Some "Roma") (Some 42%Q) (Some 12%Q) (Some "City").

Definition fsqBare : PlacesAutocomplete.FsqPlace :=
  PlacesAutocomplete.mkFsqPlace (Some "fsq-bare") (Some "Villa Nowhere") None None
                                None None None.

(** Foursquare: it knows Rome, knows the villa without its coordinates,
    and is down for the query [down]. *)
Definition foursquare (address : string) : Fetched (option (list PlacesAutocomplete.FsqPlace)) :=
  if includes address "query=Rome" then FetchJson (Some [fsqRome; fsqBare])
  else if includes address "query=Villa" then FetchJson (Some [fsqBare])
  else if includes address "query=down" then FetchStatus 503 "unavailable"
  else FetchJson None.

(** Elements of Overpass: a node with its own coordinates. *)
Definition colosseoNode : PlacesNearby.Element :=
  PlacesNearby.mkElement (Some 1001%Q) (Some 42%Q) (Some 12%Q) None
    (Some (PlacesNearby.mkTags (Some "Colosseo") (Some "monument") None None None)).

(** A way: its coordinates are those of its centre. *)
Definition foroWay : PlacesNearby.Element :=
  PlacesNearby.mkElement (Some 1002%Q) None None
    (Some (PlacesNearby.mkCenter (Some 42%Q) (Some 13%Q)))
    (Some (PlacesNearby.mkTags (Some "Foro Romano") None (Some "attraction") None None)).

(** A named node on the equator, and a named node without id. *)
Definition equatorNode : PlacesNearby.Element :=
  PlacesNearby.mkElement (Some 1003%Q) (Some 0%Q) (Some 12%Q) None
    (Some (PlacesNearby.mkTags (Some "Mitad del Mundo") None None None None)).

Definition anonymousNode : PlacesNearby.Element :=
  PlacesNearby.mkElement None (Some 42%Q) (Some 12%Q) None
    (Some (PlacesNearby.mkTags (Some "Nameless id") None None None None)).

(** Two answers of Overpass. *)
Definition overpassRome (query : PlacesNearby.Query) : Fetched (list PlacesNearby.Element) :=
  FetchJson [colosseoNode; equatorNode; foroWay].

Definition overpassBroken (query : PlacesNearby.Query)
    : Fetched (list PlacesNearby.Element) :=
  FetchJson [colosseoNode; anonymousNode].

(** The trip routes served by the two handlers. *)
Definition localEnv : Env :=
  {| clock := fun k => (1000 * Z.of_nat k)%Z;
     autocomplete := PlacesAutocomplete.served decimal (fun address _ => foursquare address);
     nearby := PlacesNearby.served decimal (fun query _ => overpassRome query);
     groqApiKey := Some "key";
     generator := fun _ => GenContent NoContent;
     schedule := fun k => k |}.

End Samples.

(** * Properties *)

(** ** The matcher *)

Module ReconcilerFacts.
Import Samples.

Lemma threshold_half (n : nat) : threshold n = ((Z.of_nat n + 1) / 2)%Z.
Proof.
  unfold threshold, Qceiling, Qfloor. simpl.
  rewrite Z.mul_1_r.
  generalize (Z.of_nat n); intros z.
  Z.to_euclidean_division_equations. lia.
Qed.

Lemma tokenMatch_iff (req nb : string) :
  tokenMatch req nb = true
  <-> (threshold (length (significantWords req))
       <= Z.of_nat (length (matchingWords req nb)))%Z.
Proof. unfold tokenMatch. rewrite Z.geb_le. reflexivity. Qed.

Lemma tokenMatch_no_significant_words (req nb : string) :
  significantWords req = [] -> tokenMatch req nb = true.
Proof.
  intros H. unfold tokenMatch, matchingWords. rewrite H. reflexivity.
Qed.

Lemma winningStrategy_sound (req : string) (c : NearbyPlace) (s : Strategy) :
  winningStrategy req c = Some s ->
  strategyMatches s req (normalize (np_name c)) = true
  /\ forall s', rank s' < rank s ->
                strategyMatches s' req (normalize (np_name c)) = false.
Proof.
  unfold winningStrategy.
  destruct (exactMatch req _) eqn:He;
    [|destruct (containsMatch req _) eqn:Hc;
      [|destruct (aliasMatch req _) eqn:Ha;
        [|destruct (tokenMatch req _) eqn:Ht]]];
    intros H; inversion H; subst; clear H; (split; [assumption|]);
    intros [] Hr; simpl in *; try lia; assumption.
Qed.

Lemma winningStrategy_none (req : string) (c : NearbyPlace) :
  winningStrategy req c = None
  <-> forall s, strategyMatches s req (normalize (np_name c)) = false.
Proof.
  unfold winningStrategy. split.
  - destruct (exactMatch req _) eqn:He; [discriminate|].
    destruct (containsMatch req _) eqn:Hc; [discriminate|].
    destruct (aliasMatch req _) eqn:Ha; [discriminate|].
    destruct (tokenMatch req _) eqn:Ht; [discriminate|].
    intros _ []; assumption.
  - intros H.
    rewrite (H Exact : exactMatch _ _ = false).
    rewrite (H Substring : containsMatch _ _ = false).
    rewrite (H Alias : aliasMatch _ _ = false).
    rewrite (H TokenOverlap : tokenMatch _ _ = false).
    reflexivity.
Qed.

Lemma placeMatches_false (req : string) (c : NearbyPlace) :
  placeMatches req c = false
  <-> forall s, strategyMatches s req (normalize (np_name c)) = false.
Proof.
  rewrite <- winningStrategy_none. unfold placeMatches.
  destruct (winningStrategy req c); split; congruence.
Qed.

Lemma find_first {A} (f : A -> bool) (l : list A) :
  match List.find f l with
  | Some x => exists before after,
      l = before ++ x :: after /\ f x = true /\ Forall (fun y => f y = false) before
  | None => Forall (fun y => f y = false) l
  end.
Proof.
  induction l as [|a l IH]; simpl.
  - constructor.
  - destruct (f a) eqn:Hfa.
    + exists [], l. repeat split; [assumption | constructor].
    + destruct (List.find f l) as [x|].
      * destruct IH as (before & after & -> & Hx & Hb).
        exists (a :: before), after. repeat split; [assumption|].
        constructor; assumption.
      * constructor; assumption.
Qed.

(** C1, as amended.  The matcher makes a single pass over the pool: the
    chosen candidate is the first one in pool order on which any of the
    four strategies fires, and the strategy credited with it is the
    first of exact, substring, alias, token overlap that fires on that
    candidate.  Every candidate before it fails all four strategies; no
    candidate is chosen exactly when the whole pool fails all four. *)
Theorem matchedPlace_first_in_pool_order
    (requestedPlace : string) (nearbyPlaces : list NearbyPlace) :
  let req := normalize requestedPlace in
  let fails c := forall s, strategyMatches s req (normalize (np_name c)) = false in
  match matchedPlace requestedPlace nearbyPlaces with
  | Some chosen =>
      exists before after s,
        nearbyPlaces = before ++ chosen :: after
        /\ Forall fails before
        /\ winningStrategy req chosen = Some s
        /\ strategyMatches s req (normalize (np_name chosen)) = true
        /\ (forall s', rank s' < rank s ->
                       strategyMatches s' req (normalize (np_name chosen)) = false)
  | None => Forall fails nearbyPlaces
  end.
Proof.
  intros req fails. unfold matchedPlace. fold req.
  pose proof (find_first (placeMatches req) nearbyPlaces) as H.
  destruct (List.find (placeMatches req) nearbyPlaces) as [chosen|].
  - destruct H as (before & after & Hsplit & Hm & Hb).
    unfold placeMatches in Hm.
    destruct (winningStrategy req chosen) as [s|] eqn:Hw; [|discriminate].
    destruct (winningStrategy_sound _ _ _ Hw) as [Hs Hless].
    exists before, after, s. repeat split; try assumption.
    eapply List.Forall_impl; [|exact Hb].
    intros c Hc. exact (proj1 (placeMatches_false req c) Hc).
  - eapply List.Forall_impl; [|exact H].
    intros c Hc. exact (proj1 (placeMatches_false req c) Hc).
Qed.

(** C1 as stated fails.  For the reference [Trevi Fountain] and the pool
    [Fountain Cafe; Trevi Fountain] the second candidate matches
    exactly, the first only by token overlap, and the matcher returns
    the first; the strategy-by-strategy order would return the second. *)
Lemma matchedPlace_not_layered :
  let pool := [fountainCafe; treviFountain] in
  let req := normalize "Trevi Fountain" in
  matchedPlace "Trevi Fountain" pool = Some fountainCafe
  /\ winningStrategy req fountainCafe = Some TokenOverlap
  /\ winningStrategy req treviFountain = Some Exact
  /\ layeredMatch "Trevi Fountain" pool = Some treviFountain
  /\ matchedPlace "Trevi Fountain" pool <> layeredMatch "Trevi Fountain" pool.
Proof.
  vm_compute. repeat split; try reflexivity. discriminate.
Qed.

(** C2 at its failing input.  The reference [XY] has no significant
    token; the threshold is then 0 and the token-overlap test
    [0 >= 0] succeeds, so the strategy matches the candidate [Colosseo]
    and the matcher returns it. *)
Theorem tokenMatch_without_tokens_matches :
  significantWords (normalize "XY") = []
  /\ threshold 0 = 0%Z
  /\ tokenMatch (normalize "XY") (normalize "Colosseo") = true
  /\ winningStrategy (normalize "XY") colosseo = Some TokenOverlap
  /\ matchedPlace "XY" [colosseo] = Some colosseo.
Proof. vm_compute. repeat split; reflexivity. Qed.

(** C7.  A reference whose normalized text contains [colosseum] matches
    a candidate named [Colosseo]; when neither normalized string is a
    substring of the other, the match is made by the alias strategy. *)
Theorem colosseum_alias_match (requestedPlace : string) (c : NearbyPlace) :
  np_name c = "Colosseo" ->
  includes (normalize requestedPlace) "colosseum" = true ->
  aliasMatch (normalize requestedPlace) (normalize (np_name c)) = true
  /\ matchedPlace requestedPlace [c] = Some c
  /\ (containsMatch (normalize requestedPlace) (normalize (np_name c)) = false ->
      winningStrategy (normalize requestedPlace) c = Some Alias).
Proof.
  intros Hname Hinc.
  assert (Hnb : normalize (np_name c) = "colosseo") by (rewrite Hname; reflexivity).
  assert (Halias : aliasMatch (normalize requestedPlace) (normalize (np_name c)) = true).
  { rewrite Hnb. unfold aliasMatch, landmarkMappings.
    cbn [existsb]. unfold aliasEntryMatch at 1. cbn [fst snd].
    rewrite Hinc. reflexivity. }
  split; [exact Halias|]. split.
  - unfold matchedPlace. cbn [List.find]. unfold placeMatches, winningStrategy.
    rewrite Halias.
    destruct (exactMatch _ _); [reflexivity|].
    destruct (containsMatch _ _); reflexivity.
  - intros Hc. unfold winningStrategy. rewrite Hc, Halias.
    destruct (exactMatch _ _) eqn:He; [|reflexivity].
    exfalso. unfold exactMatch in He. apply String.eqb_eq in He.
    rewrite Hnb in He. rewrite <- He in Hinc. vm_compute in Hinc. discriminate.
Qed.

Lemma colosseum_alias_match_witness :
  np_name colosseo = "Colosseo"
  /\ includes (normalize "visit the Colosseum") "colosseum" = true
  /\ containsMatch (normalize "visit the Colosseum") (normalize (np_name colosseo)) = false
  /\ aliasMatch (normalize "visit the Colosseum") (normalize (np_name colosseo)) = true
  /\ matchedPlace "visit the Colosseum" [colosseo] = Some colosseo
  /\ winningStrategy (normalize "visit the Colosseum") colosseo = Some Alias.
Proof.
  pose proof (colosseum_alias_match "visit the Colosseum" colosseo
                ltac:(reflexivity) ltac:(vm_compute; reflexivity)) as (Ha & Hm & Hw).
  assert (Hc : containsMatch (normalize "visit the Colosseum")
                             (normalize (np_name colosseo)) = false)
    by (vm_compute; reflexivity).
  refine (conj _ (conj _ (conj Hc (conj Ha (conj Hm (Hw Hc))))));
    [reflexivity | vm_compute; reflexivity].
Defined.

(** X1.  The token-overlap test succeeds exactly when at least half of the
    significant words of the reference overlap a significant word of the
    candidate; the words that overlap are among the significant ones. *)
Theorem tokenMatch_at_least_half (req nb : string) :
  (tokenMatch req nb = true
   <-> length (significantWords req) <= 2 * length (matchingWords req nb))
  /\ length (matchingWords req nb) <= length (significantWords req).
Proof.
  split.
  - rewrite tokenMatch_iff, threshold_half.
    generalize (length (significantWords req)) (length (matchingWords req nb)).
    intros n m. split; intros H.
    + apply Nat2Z.inj_le. rewrite Nat2Z.inj_mul. simpl Z.of_nat.
      revert H. generalize (Z.of_nat n) (Z.of_nat m). intros a b H.
      Z.to_euclidean_division_equations. lia.
    + apply Nat2Z.inj_le in H. rewrite Nat2Z.inj_mul in H. simpl Z.of_nat in H.
      revert H. generalize (Z.of_nat n) (Z.of_nat m). intros a b H.
      Z.to_euclidean_division_equations. lia.
  - unfold matchingWords. apply List.filter_length_le.
Qed.

End ReconcilerFacts.

(** ** The caches *)

Module ResultCacheFacts.
Import ResultCache.

Lemma get_put_fresh {A} (ttl : Z) (key : string) (v : A) (t t' : Z)
    (cache : gmap string (CacheEntry A)) :
  (t' - t < ttl)%Z -> get ttl key t' (put key v t cache) = Some v.
Proof.
  intros Hfresh. unfold get, put. rewrite lookup_insert_eq.
  unfold fresh. simpl.
  destruct (Z.ltb_spec (t' - t) ttl); [reflexivity | lia].
Qed.

Lemma get_stale {A} (ttl : Z) (key : string) (t' : Z) (e : CacheEntry A)
    (cache : gmap string (CacheEntry A)) :
  cache !! key = Some e -> (ttl <= t' - timestamp e)%Z -> get ttl key t' cache = None.
Proof.
  intros He Hstale. unfold get. rewrite He. unfold fresh.
  destruct (Z.ltb_spec (t' - timestamp e) ttl); [lia | reflexivity].
Qed.

Lemma get_evict_get {A} (ttl : Z) (key : string) (t' : Z)
    (cache : gmap string (CacheEntry A)) :
  fst (get_evict ttl key t' cache) = get ttl key t' cache.
Proof.
  unfold get_evict, get. destruct (cache !! key) as [e|]; [|reflexivity].
  destruct (fresh ttl t' e); reflexivity.
Qed.

(** C5.  A value put at time [t] is returned unchanged by a read at any
    time [t'] less than the time-to-live later, in particular by an
    immediate read, under both cache durations.  An entry stored at
    least the time-to-live ago is still in the map when it is read
    (nothing removes it between the writes and the read), the read is a
    miss, and the put that follows replaces it, so that the next read
    returns the new value. *)
Theorem put_get_roundtrip {A} (ttl : Z) (key : string) (v v' : A) (t t' : Z)
    (cache : gmap string (CacheEntry A)) :
  ((t' - t < ttl)%Z ->
     get ttl key t' (put key v t cache) = Some v
     /\ get_evict ttl key t' (put key v t cache) = (Some v, put key v t cache))
  /\ get CACHE_DURATION_init key t (put key v t cache) = Some v
  /\ get_evict CACHE_DURATION_resolve key t (put key v t cache)
     = (Some v, put key v t cache)
  /\ (forall e : CacheEntry A,
        cache !! key = Some e ->
        (ttl <= t' - timestamp e)%Z ->
        get ttl key t' cache = None
        /\ get_evict ttl key t' cache = (None, delete key cache)
        /\ put key v' t' cache !! key = Some (mkEntry v' t')
        /\ put key v' t' (delete key cache) = put key v' t' cache
        /\ ((0 < ttl)%Z -> get ttl key t' (put key v' t' cache) = Some v')).
Proof.
  assert (Hevict : forall ttl0 t0, (t0 - t < ttl0)%Z ->
            get_evict ttl0 key t0 (put key v t cache) = (Some v, put key v t cache)).
  { intros ttl0 t0 H. unfold get_evict, put. rewrite lookup_insert_eq.
    unfold fresh. simpl.
    destruct (Z.ltb_spec (t0 - t) ttl0); [reflexivity | lia]. }
  split; [|split; [|split]].
  - intros Hfresh. split; [apply get_put_fresh; exact Hfresh | apply Hevict; exact Hfresh].
  - apply get_put_fresh. unfold CACHE_DURATION_init. lia.
  - apply Hevict. unfold CACHE_DURATION_resolve. lia.
  - intros e He Hstale. repeat split.
    + eapply get_stale; [exact He | lia].
    + unfold get_evict. rewrite He. unfold fresh.
      destruct (Z.ltb_spec (t' - timestamp e) ttl); [lia | reflexivity].
    + unfold put. apply lookup_insert_eq.
    + unfold put. apply insert_delete_eq.
    + intros Hpos. apply get_put_fresh. lia.
Qed.

Lemma put_get_roundtrip_witness :
  let stale : gmap string (CacheEntry nat) := put "rome" 7 0%Z ∅ in
  get 1800000 "rome" 1000%Z (put "rome" 8 0%Z stale) = Some 8
  /\ get 1800000 "rome" 1800001%Z stale = None
  /\ get 1800000 "rome" 1800001%Z (put "rome" 9 1800001%Z stale) = Some 9.
Proof.
  intros stale.
  destruct (put_get_roundtrip 1800000 "rome" 8 9 0 1000 stale) as (Hfresh & _ & _ & _).
  destruct (put_get_roundtrip 1800000 "rome" 8 9 0 1800001 stale) as (_ & _ & _ & Hstale).
  assert (Hlookup : stale !! "rome" = Some (mkEntry 7 0%Z)) by (vm_compute; reflexivity).
  destruct (Hstale _ Hlookup ltac:(simpl; lia)) as (Hmiss & _ & _ & _ & Hnext).
  split; [exact (proj1 (Hfresh ltac:(lia)))|].
  split; [exact Hmiss | apply Hnext; lia].
Defined.

End ResultCacheFacts.

(** ** trip/init *)

Module TripInitFacts.
Import TripInit Samples.

Lemma matchPlaces_from (nearbyPlaces : list NearbyPlace) (places : list string)
    (validated : list ValidatedPlace) (invalid : list string) :
  fold_left (matchStep nearbyPlaces) places (validated, invalid)
  = (validated ++ validatedOf nearbyPlaces places, invalid ++ invalidOf nearbyPlaces places).
Proof.
  revert validated invalid.
  induction places as [|r places IH]; intros validated invalid; simpl.
  - rewrite !app_nil_r. reflexivity.
  - unfold matchStep at 2. simpl.
    destruct (matchedPlace r nearbyPlaces) as [m|]; rewrite IH; simpl;
      rewrite <- ?app_assoc; reflexivity.
Qed.

Lemma matchPlaces_spec (nearbyPlaces : list NearbyPlace) (places : list string) :
  matchPlaces places nearbyPlaces
  = (validatedOf nearbyPlaces places, invalidOf nearbyPlaces places).
Proof. unfold matchPlaces. rewrite matchPlaces_from. reflexivity. Qed.


(** The day count test accepts exactly the numbers [q] with
    [0 < q <= 30]. *)
Lemma invalidDays_false_iff (q : Q) :
  JS.invalidDays (Some (JNum q)) = false <-> (0 < q)%Q /\ (q <= 30)%Q.
Proof.
  unfold JS.invalidDays. simpl. split.
  - intros H.
    destruct (Qeq_bool q 0) eqn:E0; simpl in H; [discriminate|].
    destruct (Qle_bool q 0) eqn:Hle0; simpl in H; [discriminate|].
    destruct (Qle_bool q 30) eqn:Hle30; simpl in H; [|discriminate].
    split; [|apply Qle_bool_iff; exact Hle30].
    apply Qnot_le_lt. intros Hq. apply Qle_bool_iff in Hq. congruence.
  - intros [Hpos Hle].
    assert (Hne : Qeq_bool q 0 = false).
    { destruct (Qeq_bool q 0) eqn:E; [|reflexivity].
      apply Qeq_bool_iff in E. rewrite E in Hpos. exfalso. revert Hpos. apply Qlt_irrefl. }
    assert (Hle0 : Qle_bool q 0 = false).
    { destruct (Qle_bool q 0) eqn:E; [|reflexivity].
      apply Qle_bool_iff in E. apply Qlt_not_le in Hpos. contradiction. }
    assert (Hle30 : Qle_bool q 30 = true) by (apply Qle_bool_iff; exact Hle).
    rewrite Hne, Hle0, Hle30. reflexivity.
Qed.

(** Validation rejects each of the four kinds of bad input. *)
Lemma validate_rejects (destination places days budget : option JSON) :
  (forall s, destination = Some (JStr s) -> trim s = "")
  \/ (forall l, places = Some (JArr l) -> l = [])
  \/ (forall q, days = Some (JNum q) -> (q <= 0)%Q \/ (30 < q)%Q)
  \/ (forall s, budget = Some (JStr s) -> ~ In s VALID_BUDGETS) ->
  validate destination places days budget <> [].
Proof.
  unfold validate. intros [H | [H | [H | H]]] Hnil;
    apply app_eq_nil in Hnil as [H1 Hnil];
    apply app_eq_nil in Hnil as [H2 Hnil];
    apply app_eq_nil in Hnil as [H3 H4].
  - destruct destination as [[| b | q | s | l | f]|]; simpl in H1;
      rewrite ?orb_true_r in H1; simpl in H1; try discriminate.
    rewrite (H s eq_refl) in H1. simpl in H1.
    destruct (JSString.truthy s); discriminate.
  - destruct places as [[| b | q | s | l | f]|]; simpl in H2; try discriminate.
    rewrite (H l eq_refl) in H2. discriminate.
  - destruct (JS.invalidDays days) eqn:Hd; [discriminate|].
    destruct days as [[| b | q | s | l | f]|];
      try (unfold JS.invalidDays in Hd; simpl in Hd;
           rewrite ?orb_true_r in Hd; simpl in Hd; discriminate).
    apply invalidDays_false_iff in Hd as [Hpos Hle].
    destruct (H q eq_refl) as [Hq | Hq].
    + apply Qlt_not_le in Hpos. contradiction.
    + apply Qlt_not_le in Hq. contradiction.
  - destruct budget as [[| b | q | s | l | f]|];
      try (simpl in H4; rewrite ?orb_true_r in H4; simpl in H4; discriminate).
    cbn [JS.truthy JS.isString JS.asString andb] in H4.
    destruct (JSString.truthy s);
      destruct (existsb (String.eqb s) VALID_BUDGETS) eqn:Hex;
      simpl in H4; try discriminate.
    apply existsb_exists in Hex as (x & Hin & Heq).
    apply String.eqb_eq in Heq. subst x. exact (H s eq_refl Hin).
Qed.

(** A failed validation answers 400 at once: the world, and with it the
    log of upstream calls, is unchanged. *)
Lemma POST_validation_failure (env : Env) (w : World) (body : JSON) :
  body <> JNull ->
  validate (field "destination" body) (field "places" body)
           (field "days" body) (field "budget" body) <> [] ->
  POST env (Some body) w
  = (Error 400 "Validation failed"
       (Some (validate (field "destination" body) (field "places" body)
                       (field "days" body) (field "budget" body))), w).
Proof.
  intros Hnull Herr. unfold POST.
  destruct (validate _ _ _ _) as [|e errors] eqn:Hv; [congruence|].
  destruct body; try congruence; reflexivity.
Qed.

(** C6 at its failing input.  A request for half a day passes the
    validation, the upstream lookups are made, and the answer is a
    validated trip of [Math.floor(0.5)], that is 0, days. *)
Theorem fractional_day_count_accepted :
  let body := initBody ["Colosseum"] (1 # 2) "moderate" in
  validate (field "destination" body) (field "places" body)
           (field "days" body) (field "budget" body) = []
  /\ match POST romeEnv (Some body) emptyWorld with
     | (Success response, w') =>
         r_days response = 0%Z
         /\ calls w' = [CallAutocomplete "Rome"; CallNearby "41.9028" "12.4964" "10000"]
     | (Error _ _ _, _) => False
     end.
Proof. vm_compute. repeat split; reflexivity. Qed.


(** *** What the validation lets through *)

Lemma length_zero_iff (s : string) : Nat.eqb (String.length s) 0 = true <-> s = EmptyString.
Proof. destruct s; simpl; split; intros H; try reflexivity; discriminate. Qed.

Lemma existsb_badPlace (l : list JSON) :
  existsb badPlace l = false <-> Forall namedPlace l.
Proof.
  induction l as [|p l IH]; simpl.
  - split; [constructor | reflexivity].
  - rewrite orb_false_iff, IH. split.
    + intros [Hp Hl]. constructor; [|exact Hl].
      destruct p as [| b | q | s | l' | f]; try discriminate.
      exists s. split; [reflexivity|]. intros Hs. simpl in Hp. rewrite Hs in Hp. discriminate.
    + intros H. inversion H as [|x l0 (s & -> & Hs) Hl]; subst. split; [|exact Hl].
      simpl. destruct (Nat.eqb (String.length (trim s)) 0) eqn:E; [|reflexivity].
      apply length_zero_iff in E. contradiction.
Qed.

(** What a body that passes the validation is made of. *)
Lemma validate_accepted (destination places days budget : option JSON) :
  validate destination places days budget = [] ->
  (exists s, destination = Some (JStr s) /\ trim s <> EmptyString)
  /\ (exists l, places = Some (JArr l) /\ l <> [] /\ Forall namedPlace l)
  /\ (exists q, days = Some (JNum q) /\ (0 < q)%Q /\ (q <= 30)%Q)
  /\ (exists b, budget = Some (JStr b) /\ In b VALID_BUDGETS).
Proof.
  unfold validate. intros Hnil.
  apply app_eq_nil in Hnil as [H1 Hnil].
  apply app_eq_nil in Hnil as [H2 Hnil].
  apply app_eq_nil in Hnil as [H3 H4].
  split; [|split; [|split]].
  + destruct destination as [[| b | q | s | l | f]|]; simpl in H1;
      rewrite ?orb_true_r in H1; simpl in H1; try discriminate.
    exists s. split; [reflexivity|]. intros Hs. rewrite Hs in H1. simpl in H1.
    destruct (JSString.truthy s); discriminate.
  + destruct places as [[| b | q | s | l | f]|]; simpl in H2; try discriminate.
    exists l. split; [reflexivity|].
    destruct l as [|p l]; [discriminate|]. split; [discriminate|].
    apply existsb_badPlace.
    cbn [length Nat.eqb] in H2.
    destruct (existsb badPlace (p :: l)); [discriminate | reflexivity].
  + destruct (JS.invalidDays days) eqn:Hd; [discriminate|].
    destruct days as [[| b | q | s | l | f]|];
      try (unfold JS.invalidDays in Hd; simpl in Hd;
           rewrite ?orb_true_r in Hd; simpl in Hd; discriminate).
    exists q. split; [reflexivity|]. apply invalidDays_false_iff. exact Hd.
  + destruct budget as [[| b | q | s | l | f]|];
      try (simpl in H4; rewrite ?orb_true_r in H4; simpl in H4; discriminate).
    cbn [JS.truthy JS.isString JS.asString andb] in H4.
    exists s. split; [reflexivity|].
    destruct (existsb (String.eqb s) VALID_BUDGETS) eqn:Hex.
    * apply existsb_exists in Hex as (x & Hin & Heq).
      apply String.eqb_eq in Heq. subst x. exact Hin.
    * rewrite orb_true_r in H4. discriminate.
Qed.

(** X2.  The validation lets a body through exactly when its destination is a
    string that is not blank, its places are a non-empty array of strings
    none of which is blank, its day count is a number [q] with
    [0 < q <= 30], and its budget is one of the three tiers. *)
Theorem validate_accepts_iff (destination places days budget : option JSON) :
  validate destination places days budget = []
  <-> (exists s, destination = Some (JStr s) /\ trim s <> EmptyString)
      /\ (exists l, places = Some (JArr l) /\ l <> [] /\ Forall namedPlace l)
      /\ (exists q, days = Some (JNum q) /\ (0 < q)%Q /\ (q <= 30)%Q)
      /\ (exists b, budget = Some (JStr b) /\ In b VALID_BUDGETS).
Proof.
  split.
  - apply validate_accepted.
  - unfold validate.
    intros ((s & -> & Hs) & (l & -> & Hl & Hall) & (q & -> & Hq) & (b & -> & Hb)).
    assert (H1 : Nat.eqb (String.length (trim s)) 0 = false).
    { destruct (Nat.eqb _ 0) eqn:E; [|reflexivity].
      apply length_zero_iff in E. contradiction. }
    assert (H0 : JSString.truthy s = true).
    { destruct s; [exfalso; apply Hs; reflexivity | reflexivity]. }
    assert (H2 : Nat.eqb (length l) 0 = false) by (destruct l; [contradiction | reflexivity]).
    apply existsb_badPlace in Hall.
    assert (H3 : JS.invalidDays (Some (JNum q)) = false)
      by (apply invalidDays_false_iff; exact Hq).
    assert (H4 : existsb (String.eqb b) VALID_BUDGETS = true).
    { apply existsb_exists. exists b. split; [exact Hb | apply String.eqb_refl]. }
    assert (H5 : JSString.truthy b = true).
    { destruct Hb as [<- | [<- | [<- | []]]]; reflexivity. }
    cbn [JS.truthy JS.isString JS.isArray JS.asString JS.asArray].
    rewrite H0, H1, H2, Hall, H3, H4, H5. reflexivity.
Qed.

Lemma validate_accepts_iff_witness :
  validate (Some (JStr "Rome")) (Some (JArr [JStr "Colosseum"])) (Some (JNum 2))
           (Some (JStr "moderate")) = [].
Proof.
  apply (proj2 (validate_accepts_iff _ _ _ _)).
  split; [exists "Rome"; split; [reflexivity | discriminate]|].
  split; [exists [JStr "Colosseum"]; split; [reflexivity|]; split; [discriminate|];
          constructor; [exists "Colosseum"; split; [reflexivity | vm_compute; discriminate]
                       | constructor]|].
  split; [exists 2%Q; split; [reflexivity|]; split; [unfold Qlt | unfold Qle]; simpl; lia|].
  exists "moderate". split; [reflexivity | right; left; reflexivity].
Defined.

(** *** The two lookups *)

Import ResultCache.

Lemma validateDestination_hit (env : Env) (destination : string) (w : World)
    (e : CacheEntry Prediction) :
  validationDest w !! destinationCacheKey destination = Some e ->
  fresh CACHE_DURATION_init (clock env (clockReads w)) e = true ->
  validateDestination env destination w = (inr (data e), snd (now env w)).
Proof.
  intros He Hf. unfold validateDestination, bind, getWorld.
  fold (destinationCacheKey destination). rewrite He.
  unfold now at 1. unfold ret at 1. unfold get. rewrite He, Hf. reflexivity.
Qed.

(** The world in which the autocomplete request of a lookup is issued: the
    one given when the key is absent, one clock read later when a stale
    entry was found. *)
Lemma validateDestination_miss (env : Env) (destination : string) (w : World) :
  get CACHE_DURATION_init (destinationCacheKey destination) (clock env (clockReads w))
      (validationDest w) = None ->
  let w0 := match validationDest w !! destinationCacheKey destination with
            | Some _ => snd (now env w)
            | None => w
            end in
  let logged := snd (logCall (CallAutocomplete destination) w0) in
  validateDestination env destination w
  = match autocomplete env destination (length (calls w)) with
    | Throws e => (inl (internalError e), logged)
    | NotOk error =>
        (inl (Error 500 "Failed to validate destination"
                (Some [orDefault error "Autocomplete service unavailable"])), logged)
    | Ok [] =>
        (inl (Error 404
                ("Destination " ++ JS.quote ++ destination ++ JS.quote ++ " not found")
                (Some ["Please try a more specific location name"])), logged)
    | Ok (destinationResult :: _) =>
        (inr destinationResult,
         snd (setValidationDest
                (put (destinationCacheKey destination) destinationResult
                     (clock env (clockReads w0)) (validationDest w))
                (snd (now env logged))))
    end.
Proof.
  intros Hmiss w0 logged. unfold validateDestination, bind, getWorld.
  fold (destinationCacheKey destination). subst logged w0.
  destruct (validationDest w !! destinationCacheKey destination) as [e|] eqn:He;
    [unfold now at 1; unfold ret at 1; rewrite Hmiss | unfold ret at 1];
    unfold fetchAutocomplete; cbn [calls now snd];
    destruct (autocomplete env destination (length (calls w))) as [err|err|[|p l]];
    reflexivity.
Qed.

Lemma nearbyCandidates_hit (env : Env) (p : Prediction) (w : World)
    (e : CacheEntry (list NearbyPlace)) :
  validationPlaces w !! placesCacheKey (pr_lat p) (pr_lon p) = Some e ->
  fresh CACHE_DURATION_init (clock env (clockReads w)) e = true ->
  nearbyCandidates env p w = (inr (data e), snd (now env w)).
Proof.
  intros He Hf. unfold nearbyCandidates, bind, getWorld.
  fold (placesCacheKey (pr_lat p) (pr_lon p)). rewrite He.
  unfold now at 1. unfold ret at 1. unfold get. rewrite He, Hf. reflexivity.
Qed.

Lemma nearbyCandidates_miss (env : Env) (p : Prediction) (w : World) :
  get CACHE_DURATION_init (placesCacheKey (pr_lat p) (pr_lon p))
      (clock env (clockReads w)) (validationPlaces w) = None ->
  let w0 := match validationPlaces w !! placesCacheKey (pr_lat p) (pr_lon p) with
            | Some _ => snd (now env w)
            | None => w
            end in
  let logged :=
    snd (logCall (CallNearby (JS.show (pr_lat p)) (JS.show (pr_lon p)) "10000") w0) in
  nearbyCandidates env p w
  = match nearby env (JS.show (pr_lat p)) (JS.show (pr_lon p)) "10000"
                 (length (calls w)) with
    | Throws e => (inl (internalError e), logged)
    | NotOk error =>
        (inl (Error 500 "Failed to validate places"
                (Some [orDefault error "Nearby places service unavailable"])), logged)
    | Ok nearbyPlaces =>
        (inr nearbyPlaces,
         snd (setValidationPlaces
                (put (placesCacheKey (pr_lat p) (pr_lon p)) nearbyPlaces
                     (clock env (clockReads w0)) (validationPlaces w))
                (snd (now env logged))))
    end.
Proof.
  intros Hmiss w0 logged. unfold nearbyCandidates, bind, getWorld.
  fold (placesCacheKey (pr_lat p) (pr_lon p)). subst logged w0.
  destruct (validationPlaces w !! placesCacheKey (pr_lat p) (pr_lon p)) as [e|] eqn:He;
    [unfold now at 1; unfold ret at 1; rewrite Hmiss | unfold ret at 1];
    unfold fetchNearby; cbn [calls now snd];
    destruct (nearby env _ _ _ (length (calls w))) as [err|err|l];
    reflexivity.
Qed.

(** Either lookup is a hit or a miss. *)
Lemma get_cases {A} (ttl : Z) (key : string) (t : Z) (cache : gmap string (CacheEntry A)) :
  (exists e, cache !! key = Some e /\ fresh ttl t e = true /\ get ttl key t cache = Some (data e))
  \/ get ttl key t cache = None.
Proof.
  unfold get. destruct (cache !! key) as [e|]; [|right; reflexivity].
  destruct (fresh ttl t e) eqn:Hf; [left; exists e; auto | right; reflexivity].
Qed.

(** A lookup that fails does so with an error response. *)
Lemma validateDestination_failure (env : Env) (destination : string) (w w1 : World)
    (r : Response) :
  validateDestination env destination w = (inl r, w1) ->
  exists status error details, r = Error status error details.
Proof.
  destruct (get_cases CACHE_DURATION_init (destinationCacheKey destination)
              (clock env (clockReads w)) (validationDest w)) as [(e & He & Hf & _) | Hmiss].
  - rewrite (validateDestination_hit env destination w e He Hf). discriminate.
  - rewrite (validateDestination_miss env destination w Hmiss).
    destruct (autocomplete env destination (length (calls w))) as [err|err|[|p l]];
      intros H; inversion H; subst; unfold internalError; eauto.
Qed.

Lemma nearbyCandidates_failure (env : Env) (p : Prediction) (w w1 : World) (r : Response) :
  nearbyCandidates env p w = (inl r, w1) ->
  exists status error details, r = Error status error details.
Proof.
  destruct (get_cases CACHE_DURATION_init (placesCacheKey (pr_lat p) (pr_lon p))
              (clock env (clockReads w)) (validationPlaces w)) as [(e & He & Hf & _) | Hmiss].
  - rewrite (nearbyCandidates_hit env p w e He Hf). discriminate.
  - rewrite (nearbyCandidates_miss env p w Hmiss).
    destruct (nearby env _ _ _ (length (calls w))) as [err|err|l];
      intros H; inversion H; subst; unfold internalError; eauto.
Qed.

(** What a successful lookup leaves behind: the value it returned is in
    the cache under its key, and the other cache is untouched. *)
Lemma validateDestination_stored (env : Env) (destination : string) (w w1 : World)
    (p : Prediction) :
  validateDestination env destination w = (inr p, w1) ->
  (exists e, validationDest w1 !! destinationCacheKey destination = Some e /\ data e = p)
  /\ validationPlaces w1 = validationPlaces w.
Proof.
  destruct (get_cases CACHE_DURATION_init (destinationCacheKey destination)
              (clock env (clockReads w)) (validationDest w)) as [(e & He & Hf & _) | Hmiss].
  - rewrite (validateDestination_hit env destination w e He Hf).
    intros H; inversion H; subst. split; [exists e; split; [exact He | reflexivity]|].
    reflexivity.
  - rewrite (validateDestination_miss env destination w Hmiss).
    destruct (autocomplete env destination (length (calls w))) as [err|err|[|p' l]];
      intros H; inversion H; subst.
    split.
    + eexists. split; [apply lookup_insert_eq | reflexivity].
    + cbn. destruct (validationDest w !! _); reflexivity.
Qed.

Lemma nearbyCandidates_stored (env : Env) (p : Prediction) (w w1 : World)
    (pool : list NearbyPlace) :
  nearbyCandidates env p w = (inr pool, w1) ->
  (exists e, validationPlaces w1 !! placesCacheKey (pr_lat p) (pr_lon p) = Some e
             /\ data e = pool)
  /\ validationDest w1 = validationDest w.
Proof.
  destruct (get_cases CACHE_DURATION_init (placesCacheKey (pr_lat p) (pr_lon p))
              (clock env (clockReads w)) (validationPlaces w)) as [(e & He & Hf & _) | Hmiss].
  - rewrite (nearbyCandidates_hit env p w e He Hf).
    intros H; inversion H; subst. split; [exists e; split; [exact He | reflexivity]|].
    reflexivity.
  - rewrite (nearbyCandidates_miss env p w Hmiss).
    destruct (nearby env _ _ _ (length (calls w))) as [err|err|l];
      intros H; inversion H; subst.
    split.
    + eexists. split; [apply lookup_insert_eq | reflexivity].
    + cbn. destruct (validationPlaces w !! _); reflexivity.
Qed.

(** *** The handler, read backwards from a success *)

Lemma POST_accepted (env : Env) (w : World) (body : JSON) :
  validate (field "destination" body) (field "places" body)
           (field "days" body) (field "budget" body) = [] ->
  let destination := JS.asString (field "destination" body) in
  let places := map (fun p => JS.asString (Some p)) (JS.asArray (field "places" body)) in
  POST env (Some body) w
  = match validateDestination env destination w with
    | (inl failure, w1) => (failure, w1)
    | (inr p, w1) =>
        match nearbyCandidates env p w1 with
        | (inl failure, w2) => (failure, w2)
        | (inr pool, w2) =>
            (respond destination places (JS.asNumber (field "days" body))
                     (JS.asString (field "budget" body)) p
                     (validatedOf pool places) (invalidOf pool places), w2)
        end
    end.
Proof.
  intros Hv destination places. unfold POST.
  destruct body; try (vm_compute in Hv; discriminate);
    rewrite Hv; unfold bind; cbn [length Nat.ltb Nat.leb];
    fold destination; fold places;
    destruct (validateDestination env destination w) as [[failure|p] w1];
    try reflexivity;
    destruct (nearbyCandidates env p w1) as [[failure|pool] w2];
    try reflexivity;
    rewrite matchPlaces_spec; reflexivity.
Qed.

Lemma POST_success_inv (env : Env) (w w' : World) (body : JSON) (b : ValidatedResponse) :
  POST env (Some body) w = (Success b, w') ->
  let destination := JS.asString (field "destination" body) in
  let places := map (fun p => JS.asString (Some p)) (JS.asArray (field "places" body)) in
  validate (field "destination" body) (field "places" body)
           (field "days" body) (field "budget" body) = []
  /\ exists p w1 pool,
       validateDestination env destination w = (inr p, w1)
       /\ nearbyCandidates env p w1 = (inr pool, w')
       /\ respond destination places (JS.asNumber (field "days" body))
                  (JS.asString (field "budget" body)) p
                  (validatedOf pool places) (invalidOf pool places) = Success b.
Proof.
  intros HP destination places.
  destruct (validate (field "destination" body) (field "places" body)
                     (field "days" body) (field "budget" body)) as [|e errors] eqn:Hv.
  - split; [reflexivity|].
    rewrite (POST_accepted env w body Hv) in HP. fold destination places in HP.
    destruct (validateDestination env destination w) as [[failure|p] w1] eqn:Hd.
    + destruct (validateDestination_failure _ _ _ _ _ Hd) as (s & er & d & ->).
      discriminate.
    + destruct (nearbyCandidates env p w1) as [[failure|pool] w2] eqn:Hn.
      * destruct (nearbyCandidates_failure _ _ _ _ _ Hn) as (s & er & d & ->).
        discriminate.
      * inversion HP; subst. exists p, w1, pool. repeat split; assumption.
  - exfalso. unfold POST in HP. rewrite Hv in HP.
    destruct body; unfold internalError, ret in HP; cbn in HP; discriminate.
Qed.

Lemma respond_success (destination : string) (places : list string) (days : Q)
    (budget : string) (p : Prediction) (validated : list ValidatedPlace)
    (invalid : list string) (b : ValidatedResponse) :
  respond destination places days budget p validated invalid = Success b ->
  validated <> []
  /\ r_destination_lat b = pr_lat p /\ r_destination_lon b = pr_lon p
  /\ r_places b = validated
  /\ r_days b = Qfloor days /\ r_budget b = budget
  /\ total_places_requested b = length places
  /\ valid_places_found b = length validated
  /\ invalidNames b = invalid
  /\ (invalid_places b = None <-> invalid = [])
  /\ (warnings b = None <-> invalid = []).
Proof.
  unfold respond. destruct validated as [|v vs]; [discriminate|].
  cbn [length Nat.eqb]. intros H. inversion H; subst; clear H.
  unfold invalidNames. cbn.
  destruct invalid as [|i rest]; cbn; repeat split; try discriminate; reflexivity.
Qed.

Lemma matched_lengths (pool : list NearbyPlace) (places : list string) :
  length (validatedOf pool places) + length (invalidOf pool places) = length places.
Proof.
  induction places as [|r places IH]; [reflexivity|].
  simpl. destruct (matchedPlace r pool); simpl; rewrite ?length_app; simpl; lia.
Qed.

(** *** A repeated request *)

(** X3.  A request that succeeded, repeated while the two entries it left in
    the cache are fresh, is answered with the same body and without any
    upstream request. *)
Theorem repeated_request_served_from_cache
    (env : Env) (w w1 : World) (body : JSON) (b : ValidatedResponse) :
  POST env (Some body) w = (Success b, w1) ->
  (forall e,
     validationDest w1 !! destinationCacheKey (JS.asString (field "destination" body))
     = Some e ->
     (clock env (clockReads w1) - timestamp e < CACHE_DURATION_init)%Z) ->
  (forall e,
     validationPlaces w1 !! placesCacheKey (r_destination_lat b) (r_destination_lon b)
     = Some e ->
     (clock env (S (clockReads w1)) - timestamp e < CACHE_DURATION_init)%Z) ->
  exists w2,
    POST env (Some body) w1 = (Success b, w2)
    /\ calls w2 = calls w1
    /\ validationDest w2 = validationDest w1
    /\ validationPlaces w2 = validationPlaces w1.
Proof.
  intros HP Hd Hp.
  destruct (POST_success_inv env w w1 body b HP) as (Hv & p & w0 & pool & Hvd & Hnc & Hr).
  destruct (respond_success _ _ _ _ _ _ _ _ Hr) as (_ & Hlat & Hlon & _).
  rewrite Hlat, Hlon in Hp.
  destruct (validateDestination_stored _ _ _ _ _ Hvd) as [(e & He & Hdata) _].
  destruct (nearbyCandidates_stored _ _ _ _ _ Hnc) as [(e' & He' & Hdata') Hsame].
  rewrite <- Hsame in He.
  assert (Hf : fresh CACHE_DURATION_init (clock env (clockReads w1)) e = true).
  { unfold fresh. apply Z.ltb_lt. exact (Hd e He). }
  assert (Hf' : fresh CACHE_DURATION_init (clock env (clockReads (snd (now env w1)))) e'
                = true).
  { unfold fresh. apply Z.ltb_lt. exact (Hp e' He'). }
  exists (snd (now env (snd (now env w1)))).
  split; [|repeat split].
  rewrite (POST_accepted env w1 body Hv).
  rewrite (validateDestination_hit env _ w1 e He Hf), Hdata.
  rewrite (nearbyCandidates_hit env p (snd (now env w1)) e' He' Hf'), Hdata'.
  rewrite Hr. reflexivity.
Qed.

Lemma repeated_request_served_from_cache_witness :
  let body := initBody ["Colosseum"] 2 "moderate" in
  exists b w1 w2,
    POST romeEnv (Some body) emptyWorld = (Success b, w1)
    /\ POST romeEnv (Some body) w1 = (Success b, w2)
    /\ calls w1 = [CallAutocomplete "Rome"; CallNearby "41.9028" "12.4964" "10000"]
    /\ calls w2 = calls w1.
Proof.
  intros body.
  refine (let H := (eq_refl : POST romeEnv (Some body) emptyWorld = (Success _, _)) in _).
  destruct (repeated_request_served_from_cache romeEnv emptyWorld _ body _ H)
    as (w2 & HP & Hcalls & _).
  - intros e He. vm_compute in He. inversion He. vm_compute. reflexivity.
  - intros e He. vm_compute in He. inversion He. vm_compute. reflexivity.
  - eexists _, _, w2. split; [exact H|]. split; [exact HP|]. split; [|exact Hcalls].
    vm_compute. reflexivity.
Defined.

(** *** Upstream failures *)

(** X4.  When the destination has no fresh cache entry and the autocomplete
    request throws, is refused or finds nothing, the request is answered
    500, 500 or 404; that request is the only one made, and nothing is
    added to either cache. *)
Theorem destination_lookup_failure (env : Env) (w : World) (body : JSON) :
  let destination := JS.asString (field "destination" body) in
  let answer := autocomplete env destination (length (calls w)) in
  let outcome response :=
    exists w',
      POST env (Some body) w = (response, w')
      /\ calls w' = calls w ++ [CallAutocomplete destination]
      /\ validationDest w' = validationDest w
      /\ validationPlaces w' = validationPlaces w in
  validate (field "destination" body) (field "places" body)
           (field "days" body) (field "budget" body) = [] ->
  get CACHE_DURATION_init (destinationCacheKey destination) (clock env (clockReads w))
      (validationDest w) = None ->
  (forall e, answer = Throws e -> outcome (internalError e))
  /\ (forall error, answer = NotOk error ->
       outcome (Error 500 "Failed to validate destination"
                  (Some [orDefault error "Autocomplete service unavailable"])))
  /\ (answer = Ok [] ->
       outcome (Error 404
                  ("Destination " ++ JS.quote ++ destination ++ JS.quote ++ " not found")
                  (Some ["Please try a more specific location name"]))).
Proof.
  intros destination answer outcome Hv Hmiss. unfold outcome.
  rewrite (POST_accepted env w body Hv). fold destination.
  rewrite (validateDestination_miss env destination w Hmiss). fold answer.
  split; [|split]; intros; match goal with H : answer = _ |- _ => rewrite H end;
    (eexists; split; [reflexivity|]);
    destruct (validationDest w !! destinationCacheKey destination);
    repeat split; reflexivity.
Qed.

Lemma destination_lookup_failure_witness :
  exists w',
    POST romeEnv (Some (JObj [("destination", JStr "Atlantis");
                              ("places", JArr [JStr "Colosseum"]);
                              ("days", JNum 2); ("budget", JStr "low")])) emptyWorld
    = (Error 404 ("Destination " ++ JS.quote ++ "Atlantis" ++ JS.quote ++ " not found")
             (Some ["Please try a more specific location name"]), w')
    /\ calls w' = [CallAutocomplete "Atlantis"].
Proof.
  destruct (destination_lookup_failure romeEnv emptyWorld
              (JObj [("destination", JStr "Atlantis");
                     ("places", JArr [JStr "Colosseum"]);
                     ("days", JNum 2); ("budget", JStr "low")])
              ltac:(vm_compute; reflexivity) ltac:(vm_compute; reflexivity))
    as (_ & _ & Hnone).
  destruct (Hnone ltac:(vm_compute; reflexivity)) as (w' & HP & Hcalls & _).
  exists w'. split; [exact HP | exact Hcalls].
Defined.

(** X5.  When the destination is found but the nearby request throws or is
    refused, the request is answered 500; the destination stays cached,
    and nothing is cached for the places. *)
Theorem places_lookup_failure (env : Env) (w w1 : World) (body : JSON) (p : Prediction) :
  let destination := JS.asString (field "destination" body) in
  let lat := JS.show (pr_lat p) in
  let lon := JS.show (pr_lon p) in
  let answer := nearby env lat lon "10000" (length (calls w1)) in
  let outcome response :=
    exists w2,
      POST env (Some body) w = (response, w2)
      /\ calls w2 = calls w1 ++ [CallNearby lat lon "10000"]
      /\ (exists e, validationDest w2 !! destinationCacheKey destination = Some e
                    /\ data e = p)
      /\ validationPlaces w2 = validationPlaces w in
  validate (field "destination" body) (field "places" body)
           (field "days" body) (field "budget" body) = [] ->
  validateDestination env destination w = (inr p, w1) ->
  get CACHE_DURATION_init (placesCacheKey (pr_lat p) (pr_lon p))
      (clock env (clockReads w1)) (validationPlaces w1) = None ->
  (forall e, answer = Throws e -> outcome (internalError e))
  /\ (forall error, answer = NotOk error ->
       outcome (Error 500 "Failed to validate places"
                  (Some [orDefault error "Nearby places service unavailable"]))).
Proof.
  intros destination lat lon answer outcome Hv Hd Hmiss. unfold outcome.
  rewrite (POST_accepted env w body Hv). fold destination. rewrite Hd.
  rewrite (nearbyCandidates_miss env p w1 Hmiss). fold lat lon answer.
  destruct (validateDestination_stored _ _ _ _ _ Hd) as [(e & He & Hdata) Hsame].
  split; intros; match goal with H : answer = _ |- _ => rewrite H end;
    (eexists; split; [reflexivity|]);
    destruct (validationPlaces w1 !! placesCacheKey (pr_lat p) (pr_lon p));
    (split; [reflexivity|]; split; [exists e; split; assumption | exact Hsame]).
Qed.

Lemma places_lookup_failure_witness :
  let body := initBody ["Colosseum"] 2 "moderate" in
  exists w2 e,
    POST nearbyDownEnv (Some body) emptyWorld
    = (Error 500 "Failed to validate places" (Some ["Overpass API error: 504 - "]), w2)
    /\ validationDest w2 !! "dest_rome" = Some e
    /\ data e = rome
    /\ validationPlaces w2 = ∅.
Proof.
  intros body.
  pose (w1 := snd (validateDestination nearbyDownEnv "Rome" emptyWorld)).
  destruct (places_lookup_failure nearbyDownEnv emptyWorld w1 body rome
              ltac:(vm_compute; reflexivity) ltac:(vm_compute; reflexivity)
              ltac:(vm_compute; reflexivity))
    as (_ & Hrefused).
  destruct (Hrefused (Some "Overpass API error: 504 - ") ltac:(vm_compute; reflexivity))
    as (w2 & HP & _ & (e & He & Hdata) & Hplaces).
  exists w2, e. split; [exact HP|]. split; [exact He|]. split; [exact Hdata | exact Hplaces].
Defined.

(** *** The body of a success *)

(** X6.  In a success body the places found and the places not found add up
    to the places requested, at least one place was found, and the list
    of invalid places and the warning are left out together, exactly when
    every requested place was found. *)
Theorem success_counts_add_up
    (env : Env) (w w' : World) (body : JSON) (b : ValidatedResponse) :
  POST env (Some body) w = (Success b, w') ->
  total_places_requested b = length (JS.asArray (field "places" body))
  /\ valid_places_found b = length (r_places b)
  /\ 1 <= valid_places_found b
  /\ valid_places_found b + length (invalidNames b) = total_places_requested b
  /\ (invalid_places b = None <-> valid_places_found b = total_places_requested b)
  /\ (warnings b = None <-> invalid_places b = None).
Proof.
  intros HP.
  destruct (POST_success_inv env w w' body b HP) as (_ & p & w0 & pool & _ & _ & Hr).
  destruct (respond_success _ _ _ _ _ _ _ _ Hr)
    as (Hne & _ & _ & Hplaces & _ & _ & Htotal & Hvalid & Hnames & Hinv & Hwarn).
  pose proof (matched_lengths pool
                (map (fun p => JS.asString (Some p)) (JS.asArray (field "places" body))))
    as Hlen.
  rewrite length_map in Htotal, Hlen.
  rewrite Hplaces, Hnames, Hvalid, Htotal.
  split; [reflexivity|]. split; [reflexivity|]. split.
  { destruct (validatedOf pool _); [contradiction | cbn [length]; lia]. }
  split; [exact Hlen|]. split.
  - rewrite Hinv. split; intros H.
    + rewrite H in Hlen. cbn [length] in Hlen. lia.
    + destruct (invalidOf pool _); [reflexivity | cbn [length] in Hlen; lia].
  - rewrite Hinv, Hwarn. reflexivity.
Qed.

Lemma success_counts_add_up_witness :
  let body := initBody ["Colosseum"; "NonexistentPlaceXYZ"] 2 "moderate" in
  exists b w',
    POST romeEnv (Some body) emptyWorld = (Success b, w')
    /\ valid_places_found b = 1
    /\ invalidNames b = ["NonexistentPlaceXYZ"]
    /\ valid_places_found b + length (invalidNames b) = total_places_requested b.
Proof.
  intros body.
  refine (let H := (eq_refl : POST romeEnv (Some body) emptyWorld = (Success _, _)) in _).
  destruct (success_counts_add_up romeEnv emptyWorld _ body _ H)
    as (_ & _ & _ & Hsum & _).
  eexists _, _. split; [exact H|]. split; [vm_compute; reflexivity|].
  split; [vm_compute; reflexivity | exact Hsum].
Defined.

Lemma validatedOf_In (pool : list NearbyPlace) (places : list string) (v : ValidatedPlace) :
  In v (validatedOf pool places)
  <-> exists r c, In r places /\ matchedPlace r pool = Some c /\ v = asValidated c.
Proof.
  unfold validatedOf. rewrite in_flat_map. split.
  - intros (r & Hr & Hv). destruct (matchedPlace r pool) as [c|] eqn:Hm; [|contradiction].
    destruct Hv as [<- | []]. exists r, c. auto.
  - intros (r & c & Hr & Hm & ->). exists r. split; [exact Hr|]. rewrite Hm. left. reflexivity.
Qed.

(** X7.  Every place of a success body is a candidate of the pool, the one
    the matcher chose for one of the requested names, with the name, id
    and coordinates of that candidate; every name listed as invalid is a
    requested name for which the matcher chose nothing. *)
Theorem validated_places_come_from_the_pool
    (env : Env) (w w' : World) (body : JSON) (b : ValidatedResponse) :
  POST env (Some body) w = (Success b, w') ->
  let places := map (fun p => JS.asString (Some p)) (JS.asArray (field "places" body)) in
  exists p w1 pool,
    nearbyCandidates env p w1 = (inr pool, w')
    /\ (forall v, In v (r_places b) ->
          exists r c, In r places /\ In c pool /\ matchedPlace r pool = Some c
                      /\ vp_name v = np_name c /\ vp_id v = np_id c
                      /\ vp_lat v = np_lat c /\ vp_lon v = np_lon c)
    /\ (forall r, In r (invalidNames b) -> In r places /\ matchedPlace r pool = None).
Proof.
  intros HP places.
  destruct (POST_success_inv env w w' body b HP) as (_ & p & w0 & pool & _ & Hn & Hr).
  destruct (respond_success _ _ _ _ _ _ _ _ Hr)
    as (_ & _ & _ & Hplaces & _ & _ & _ & _ & Hnames & _).
  exists p, w0, pool. split; [exact Hn|]. rewrite Hplaces, Hnames. split.
  - intros v Hv. apply validatedOf_In in Hv as (r & c & Hin & Hm & ->).
    exists r, c. split; [exact Hin|]. split.
    { unfold matchedPlace in Hm. apply List.find_some in Hm as [Hc _]. exact Hc. }
    split; [exact Hm|]. repeat split.
  - intros r Hin. unfold invalidOf in Hin. apply filter_In in Hin as [Hin Hm].
    split; [exact Hin|]. fold places in Hm.
    destruct (matchedPlace r pool); [discriminate | reflexivity].
Qed.

Lemma validated_places_come_from_the_pool_witness :
  let body := initBody ["Colosseum"; "NonexistentPlaceXYZ"] 2 "moderate" in
  exists b w',
    POST romeEnv (Some body) emptyWorld = (Success b, w')
    /\ forall v, In v (r_places b) ->
         exists c, In c [colosseo; fontanaDiTrevi] /\ vp_name v = np_name c.
Proof.
  intros body.
  refine (let H := (eq_refl : POST romeEnv (Some body) emptyWorld = (Success _, _)) in _).
  destruct (validated_places_come_from_the_pool romeEnv emptyWorld _ body _ H)
    as (p & w1 & pool & Hn & Hv & _).
  eexists _, _. split; [exact H|].
  intros v Hin. vm_compute in Hin. destruct Hin as [<- | []].
  exists colosseo. split; [left; reflexivity | reflexivity].
Defined.

(** X8.  The day count of a success body is the requested number rounded
    down; it lies between 0 and 30, and is 0 exactly when the requested
    number is below 1.  Its budget is one of the three tiers. *)
Theorem success_days_and_budget
    (env : Env) (w w' : World) (body : JSON) (b : ValidatedResponse) :
  POST env (Some body) w = (Success b, w') ->
  exists q,
    field "days" body = Some (JNum q)
    /\ r_days b = Qfloor q
    /\ (0 <= r_days b <= 30)%Z
    /\ (r_days b = 0%Z <-> (q < 1)%Q)
    /\ In (r_budget b) VALID_BUDGETS.
Proof.
  intros HP.
  destruct (POST_success_inv env w w' body b HP) as (Hv & p & w0 & pool & _ & _ & Hr).
  destruct (respond_success _ _ _ _ _ _ _ _ Hr)
    as (_ & _ & _ & _ & Hdays & Hbudget & _).
  apply validate_accepted in Hv
    as (_ & _ & (q & Hq & Hpos & Hle) & (t & Ht & Htier)).
  exists q. rewrite Hq in Hdays. rewrite Ht in Hbudget. cbn in Hdays, Hbudget.
  rewrite Hdays, Hbudget.
  split; [exact Hq|]. split; [reflexivity|].
  pose proof (Qfloor_le q) as Hfl. pose proof (Qlt_floor q) as Hfu.
  assert (H0 : (0 <= Qfloor q)%Z).
  { change 0%Z with (Qfloor 0). apply Qfloor_resp_le. apply Qlt_le_weak. exact Hpos. }
  assert (H30 : (Qfloor q <= 30)%Z).
  { change 30%Z with (Qfloor 30). apply Qfloor_resp_le. exact Hle. }
  split; [split; assumption|]. split; [|exact Htier].
  split; intros H.
  - rewrite H in Hfu. exact Hfu.
  - assert (Hlt : (Qfloor q < 1)%Z).
    { apply Z.lt_nge. intros Hone.
      assert (Hq1 : (1 <= q)%Q).
      { eapply Qle_trans; [|exact Hfl]. change 1%Q with (inject_Z 1).
        rewrite <- Zle_Qle. exact Hone. }
      apply Qle_not_lt in Hq1. contradiction. }
    lia.
Qed.

Lemma success_days_and_budget_witness :
  let body := initBody ["Colosseum"] (5 # 2) "luxury" in
  exists b w',
    POST romeEnv (Some body) emptyWorld = (Success b, w')
    /\ r_days b = 2%Z /\ r_budget b = "luxury".
Proof.
  intros body.
  refine (let H := (eq_refl : POST romeEnv (Some body) emptyWorld = (Success _, _)) in _).
  destruct (success_days_and_budget romeEnv emptyWorld _ body _ H)
    as (q & Hq & Hdays & _).
  eexists _, _. split; [exact H|]. split; vm_compute; reflexivity.
Defined.

End TripInitFacts.

(** ** trip/resolve *)

Module TripResolveFacts.
Import TripResolve Samples.

(** *** The counters *)

Lemma account_counts (place : ItPlace) (t : Task) (u : list string) (n : nat) :
  snd (account place t u n) + length (fst (account place t u n))
  = n + length u + (if pending t then 0 else 1).
Proof.
  destruct t as [r|r|[c|]]; simpl; rewrite ?length_app; simpl; lia.
Qed.

Lemma account_extends (place : ItPlace) (t : Task) (u : list string) (n : nat) :
  exists extra, fst (account place t u n) = u ++ extra.
Proof.
  destruct t as [r|r|[c|]]; simpl;
    first [exists []; rewrite app_nil_r; reflexivity | exists [ip_name place]; reflexivity].
Qed.

Lemma account_lists (place : ItPlace) (t : Task) (u : list string) (n : nat) :
  t = Done None -> In (ip_name place) (fst (account place t u n)).
Proof. intros ->. simpl. apply in_or_app. right. left. reflexivity. Qed.

Lemma countDone_cons (pt : ItPlace * Task) (l : list (ItPlace * Task)) :
  countDone (pt :: l) = (if pending (snd pt) then 0 else 1) + countDone l.
Proof. unfold countDone. simpl. destruct (pending (snd pt)); reflexivity. Qed.

Lemma countPending_cons (pt : ItPlace * Task) (l : list (ItPlace * Task)) :
  countPending (pt :: l) = (if pending (snd pt) then 1 else 0) + countPending l.
Proof. unfold countPending. simpl. destruct (pending (snd pt)); reflexivity. Qed.

Lemma workLeft_cons (pt : ItPlace * Task) (l : list (ItPlace * Task)) :
  workLeft (pt :: l) = stepsLeft (snd pt) + workLeft l.
Proof. reflexivity. Qed.

Lemma countDone_all (l : list (ItPlace * Task)) :
  countPending l = 0 -> countDone l = length l.
Proof.
  induction l as [|pt l IH]; [reflexivity|].
  rewrite countPending_cons, countDone_cons. simpl.
  destruct (pending (snd pt)); [discriminate|]. intros H. rewrite IH by exact H. reflexivity.
Qed.

Lemma workLeft_pending (l : list (ItPlace * Task)) :
  workLeft l = 0 -> countPending l = 0.
Proof.
  induction l as [|[p t] l IH]; [reflexivity|].
  rewrite countPending_cons, workLeft_cons. cbn [snd].
  destruct t; cbn [stepsLeft pending]; intros H; lia.
Qed.

Lemma workLeft_bound (l : list (ItPlace * Task)) : workLeft l <= 2 * length l.
Proof.
  induction l as [|[p t] l IH]; [unfold workLeft; simpl; lia|].
  rewrite workLeft_cons. cbn [length snd]. destruct t; cbn [stepsLeft]; lia.
Qed.

Lemma listed_extends (u extra : list string) (l : list (ItPlace * Task)) :
  Forall (listed u) l -> Forall (listed (u ++ extra)) l.
Proof.
  intros H. eapply List.Forall_impl; [|exact H].
  intros pt Hpt Hd. apply in_or_app. left. exact (Hpt Hd).
Qed.

Lemma accountAll_spec (l : list (ItPlace * Task)) (u : list string) (n : nat) :
  snd (accountAll l u n) + length (fst (accountAll l u n))
  = n + length u + countDone l
  /\ (exists extra, fst (accountAll l u n) = u ++ extra)
  /\ Forall (listed (fst (accountAll l u n))) l.
Proof.
  revert u n. induction l as [|[p t] l IH]; intros u n.
  - simpl. unfold countDone. simpl. split; [lia|]. split; [|constructor].
    exists []. rewrite app_nil_r. reflexivity.
  - simpl accountAll. rewrite countDone_cons. cbn [snd].
    pose proof (account_counts p t u n) as Hc.
    destruct (account_extends p t u n) as [x1 Hx1].
    pose proof (account_lists p t u n) as Hl.
    destruct (account p t u n) as [u1 n1]. cbn [fst snd] in *.
    destruct (IH u1 n1) as (Hc2 & [x2 Hx2] & Hall).
    split; [lia|]. split.
    + exists (x1 ++ x2). rewrite Hx2, Hx1, app_assoc. reflexivity.
    + constructor; [|exact Hall].
      intros Hd. cbn [fst snd] in *. rewrite Hx2. apply in_or_app. left. exact (Hl Hd).
Qed.

(** *** One resumption *)

Lemma resume_progress (env : Env) (name : string) (la lo : option string)
    (t : Task) (w : World) :
  pending t = true ->
  stepsLeft (fst (resolveCoordinates_resume env name la lo t w)) < stepsLeft t.
Proof.
  intros Hp. unfold resolveCoordinates_resume, bind.
  destruct t as [[e|err|l]|[e|err|[|p l]]|r]; try discriminate; cbn; try lia.
  destruct (nearbyMatch name l); cbn; lia.
Qed.

Lemma resumeNth_spec (env : Env) (la lo : option string) (k : nat)
    (l : list (ItPlace * Task)) (u : list string) (n : nat) (w : World) :
  let pg := fst (resumeNth env la lo k l u n w) in
  map fst (pg_tasks pg) = map fst l
  /\ pg_count pg + length (pg_unresolved pg) + countDone l
     = n + length u + countDone (pg_tasks pg)
  /\ (exists extra, pg_unresolved pg = u ++ extra)
  /\ (Forall (listed u) l -> Forall (listed (pg_unresolved pg)) (pg_tasks pg))
  /\ workLeft (pg_tasks pg) <= workLeft l
  /\ (k < countPending l -> workLeft (pg_tasks pg) < workLeft l).
Proof.
  revert k w. induction l as [|[p t] l IH]; intros k w; simpl.
  - split; [reflexivity|]. split; [lia|]. split.
    { exists []. rewrite app_nil_r. reflexivity. }
    split; [intros _; constructor|]. split; [lia|].
    unfold countPending. simpl. lia.
  - destruct (pending t) eqn:Hp.
    + destruct k as [|k'].
      * unfold bind, ret.
        pose proof (resume_progress env (ip_name p) la lo t w Hp) as Hsteps.
        destruct (resolveCoordinates_resume env (ip_name p) la lo t w) as [t' w'].
        cbn [fst snd pg_tasks pg_unresolved pg_count map] in *.
        pose proof (account_counts p t' u n) as Hc.
        destruct (account_extends p t' u n) as [x Hx].
        pose proof (account_lists p t' u n) as Hl.
        destruct (account p t' u n) as [u1 n1]. cbn [fst snd] in *.
        rewrite !countDone_cons, !workLeft_cons. cbn [fst snd]. rewrite Hp.
        split; [reflexivity|]. split; [lia|]. split; [exists x; exact Hx|].
        split; [|split; [lia | intros _; lia]].
        intros Hall. inversion Hall as [|pt l0 _ Hrest]; subst.
        constructor; [exact Hl|]. apply listed_extends. exact Hrest.
      * unfold bind, ret. specialize (IH k' w).
        destruct (resumeNth env la lo k' l u n w) as [pg w'].
        cbn [fst snd pg_tasks pg_unresolved pg_count map] in *.
        destruct IH as (Hm & Hc & [x Hx] & Hl & Hle & Hlt).
        rewrite !countDone_cons, !workLeft_cons, countPending_cons.
        cbn [fst snd]. rewrite Hp.
        split; [rewrite Hm; reflexivity|]. split; [lia|]. split; [exists x; exact Hx|].
        split; [|split; [lia | intros Hk; specialize (Hlt ltac:(lia)); lia]].
        intros Hall. inversion Hall as [|pt l0 Hpt Hrest]; subst.
        constructor; [|exact (Hl Hrest)].
        intros Hd. rewrite Hx. apply in_or_app. left. exact (Hpt Hd).
    + unfold bind, ret. specialize (IH k w).
      destruct (resumeNth env la lo k l u n w) as [pg w'].
      cbn [fst snd pg_tasks pg_unresolved pg_count map] in *.
      destruct IH as (Hm & Hc & [x Hx] & Hl & Hle & Hlt).
      rewrite !countDone_cons, !workLeft_cons, countPending_cons.
      cbn [fst snd]. rewrite Hp.
      split; [rewrite Hm; reflexivity|]. split; [lia|]. split; [exists x; exact Hx|].
      split; [|split; [lia | intros Hk; specialize (Hlt ltac:(lia)); lia]].
      intros Hall. inversion Hall as [|pt l0 Hpt Hrest]; subst.
      constructor; [|exact (Hl Hrest)].
      intros Hd. rewrite Hx. apply in_or_app. left. exact (Hpt Hd).
Qed.

(** *** The event loop *)

(** Whatever the schedule, the loop ends with every call returned, and
    each return is counted once. *)
Lemma settle_spec (fuel : nat) (env : Env) (la lo : option string)
    (pg : Progress) (w : World) :
  let pg' := fst (settle fuel env la lo pg w) in
  map fst (pg_tasks pg') = map fst (pg_tasks pg)
  /\ pg_count pg' + length (pg_unresolved pg') + countDone (pg_tasks pg)
     = pg_count pg + length (pg_unresolved pg) + countDone (pg_tasks pg')
  /\ (exists extra, pg_unresolved pg' = pg_unresolved pg ++ extra)
  /\ (Forall (listed (pg_unresolved pg)) (pg_tasks pg) ->
      Forall (listed (pg_unresolved pg')) (pg_tasks pg'))
  /\ (workLeft (pg_tasks pg) <= fuel -> countPending (pg_tasks pg') = 0).
Proof.
  revert pg w. induction fuel as [|fuel IH]; intros pg w.
  - simpl. split; [reflexivity|]. split; [lia|]. split.
    { exists []. rewrite app_nil_r. reflexivity. }
    split; [intros H; exact H|].
    intros H. apply workLeft_pending. lia.
  - cbn [settle]. destruct (countPending (pg_tasks pg)) as [|m] eqn:Hcp.
    + simpl. split; [reflexivity|]. split; [lia|]. split.
      { exists []. rewrite app_nil_r. reflexivity. }
      split; [intros H; exact H | intros _; exact Hcp].
    + unfold bind, turn.
      set (k := schedule env (turns w) mod S m).
      assert (Hk : k < countPending (pg_tasks pg)).
      { rewrite Hcp. apply Nat.mod_upper_bound. discriminate. }
      match goal with
      | |- context [resumeNth env la lo k ?l ?u ?n ?w1] =>
          pose proof (resumeNth_spec env la lo k l u n w1) as Hstep;
          destruct (resumeNth env la lo k l u n w1) as [pg1 w2]
      end.
      cbn [fst snd] in Hstep.
      destruct Hstep as (Hm1 & Hc1 & [x1 Hx1] & Hl1 & _ & Hlt1).
      specialize (Hlt1 Hk).
      specialize (IH pg1 w2). cbv zeta in IH.
      destruct (settle fuel env la lo pg1 w2) as [pg2 w3]. cbn [fst snd] in *.
      destruct IH as (Hm2 & Hc2 & [x2 Hx2] & Hl2 & Hdone2).
      split; [rewrite Hm2; exact Hm1|]. split; [lia|]. split.
      { exists (x1 ++ x2). rewrite Hx2, Hx1, app_assoc. reflexivity. }
      split; [intros H; exact (Hl2 (Hl1 H))|].
      intros Hfuel. apply Hdone2. lia.
Qed.

Lemma mapM_started (env : Env) (la lo : option string) (places : list ItPlace)
    (w : World) :
  map fst (fst (mapM (fun p =>
                        let* t := resolveCoordinates_start env (ip_name p) la lo in
                        ret (p, t)) places w)) = places.
Proof.
  revert w. induction places as [|p places IH]; intros w; [reflexivity|].
  cbn [mapM]. unfold bind at 1 2. unfold ret at 1.
  destruct (resolveCoordinates_start env (ip_name p) la lo w) as [t w1].
  unfold bind at 1. specialize (IH w1).
  destruct (mapM _ places w1) as [rest w2].
  cbn in *. rewrite IH. reflexivity.
Qed.

Lemma enrich_names (la lo : option string) (tasks : list (ItPlace * Task)) :
  map ep_name (map (fun pt => enrich la lo (fst pt) (result (snd pt))) tasks)
  = map ip_name (map fst tasks)
  /\ map ep_time (map (fun pt => enrich la lo (fst pt) (result (snd pt))) tasks)
     = map ip_time (map fst tasks).
Proof.
  induction tasks as [|[p t] tasks [IHn IHt]]; [split; reflexivity|].
  cbn [map fst snd]. rewrite IHn, IHt.
  destruct (result t); split; reflexivity.
Qed.

(** One day, whatever the schedule: the calls are those of the day's
    places, in order; every call has returned; each return has been
    counted once; every place whose call returned empty is listed. *)
Lemma runDay_spec (env : Env) (la lo : option string) (day : ItDay)
    (u0 : list string) (n0 : nat) (w : World) :
  let pg := fst (runDay env la lo day u0 n0 w) in
  map fst (pg_tasks pg) = d_places day
  /\ countPending (pg_tasks pg) = 0
  /\ pg_count pg + length (pg_unresolved pg) = n0 + length u0 + length (d_places day)
  /\ (exists extra, pg_unresolved pg = u0 ++ extra)
  /\ Forall (listed (pg_unresolved pg)) (pg_tasks pg).
Proof.
  unfold runDay, bind.
  pose proof (mapM_started env la lo (d_places day) w) as Hstarted.
  destruct (mapM _ (d_places day) w) as [started w1]. cbn [fst] in Hstarted.
  destruct (accountAll_spec started u0 n0) as (Hc1 & [x1 Hx1] & Hl1).
  destruct (accountAll started u0 n0) as [u1 n1]. cbn [fst snd] in *.
  pose proof (settle_spec (2 * length started) env la lo
                (mkProgress started u1 n1) w1) as Hsettle.
  destruct (settle (2 * length started) env la lo (mkProgress started u1 n1) w1)
    as [pg w2].
  cbn [fst snd pg_tasks pg_unresolved pg_count] in Hsettle.
  destruct Hsettle as (Hm & Hc & [x2 Hx2] & Hl & Hdone).
  specialize (Hdone (workLeft_bound started)). specialize (Hl Hl1).
  pose proof (countDone_all _ Hdone) as Hall.
  assert (Hlen : length (pg_tasks pg) = length (d_places day)).
  { rewrite <- (length_map fst), Hm, Hstarted. reflexivity. }
  cbn [fst].
  split; [rewrite Hm; exact Hstarted|]. split; [exact Hdone|].
  split; [lia|]. split; [|exact Hl].
  exists (x1 ++ x2). rewrite Hx2, Hx1, app_assoc. reflexivity.
Qed.

(** One day's output keeps the day number, the names and the time slots,
    in order, and accounts for each of its places exactly once. *)
Lemma resolveDay_spec (env : Env) (la lo : option string) (day : ItDay)
    (u0 : list string) (n0 : nat) (w : World) :
  let r := fst (resolveDay env la lo day u0 n0 w) in
  ed_day (fst (fst r)) = d_day day
  /\ map ep_name (ed_places (fst (fst r))) = map ip_name (d_places day)
  /\ map ep_time (ed_places (fst (fst r))) = map ip_time (d_places day)
  /\ countOf r + length (unresolvedOf r) = n0 + length u0 + length (d_places day)
  /\ (exists extra, unresolvedOf r = u0 ++ extra).
Proof.
  unfold resolveDay, bind.
  pose proof (runDay_spec env la lo day u0 n0 w) as Hrun.
  destruct (runDay env la lo day u0 n0 w) as [pg w2]. cbn [fst] in Hrun.
  destruct Hrun as (Hm & _ & Hc & Hx & _).
  destruct (enrich_names la lo (pg_tasks pg)) as [Hn Ht].
  rewrite Hm in Hn, Ht.
  unfold ret, countOf, unresolvedOf. cbn [fst snd ed_day ed_places].
  split; [reflexivity|]. split; [exact Hn|]. split; [exact Ht|].
  split; [exact Hc | exact Hx].
Qed.

(** The whole loop: the same days in the same order, and a count that
    adds up. *)
Lemma resolveDays_spec (env : Env) (la lo : option string) (days : list ItDay)
    (u0 : list string) (n0 : nat) (w : World) :
  let r := fst (resolveDays env la lo days u0 n0 w) in
  Forall2 (fun day ed =>
             ed_day ed = d_day day
             /\ map ep_name (ed_places ed) = map ip_name (d_places day)
             /\ map ep_time (ed_places ed) = map ip_time (d_places day))
          days (fst (fst r))
  /\ countOf r + length (unresolvedOf r) = n0 + length u0 + placeCount days
  /\ (exists extra, unresolvedOf r = u0 ++ extra).
Proof.
  revert u0 n0 w. induction days as [|day days IH]; intros u0 n0 w; cbn [resolveDays].
  - unfold countOf, unresolvedOf, placeCount. simpl.
    split; [constructor|]. split; [lia|]. exists []. rewrite app_nil_r. reflexivity.
  - unfold bind.
    pose proof (resolveDay_spec env la lo day u0 n0 w) as Hday.
    destruct (resolveDay env la lo day u0 n0 w) as [[[ed u1] n1] w1].
    unfold countOf, unresolvedOf in Hday. cbn [fst snd] in Hday.
    destruct Hday as (Hd & Hn & Ht & Hc & [x1 Hx1]).
    cbn [fst snd]. specialize (IH u1 n1 w1).
    destruct (resolveDays env la lo days u1 n1 w1) as [[[eds u2] n2] w2].
    unfold ret, countOf, unresolvedOf in *. cbn [fst snd] in *.
    change (placeCount (day :: days)) with (length (d_places day) + placeCount days).
    destruct IH as (Hall & Hc2 & [x2 Hx2]).
    split; [|split; [lia|]].
    + constructor; [|exact Hall]. split; [exact Hd|]. split; [exact Hn | exact Ht].
    + exists (x1 ++ x2). rewrite Hx2, Hx1, app_assoc. reflexivity.
Qed.

Lemma totalPlaces_from (days : list ItDay) (n0 : nat) :
  fold_left (fun count day => count + length (d_places day)) days n0
  = n0 + placeCount days.
Proof.
  revert n0. induction days as [|day days IH]; intros n0; simpl.
  - unfold placeCount. simpl. lia.
  - rewrite IH. unfold placeCount. simpl. lia.
Qed.

Lemma totalPlaces_sum (days : list ItDay) : totalPlaces days = placeCount days.
Proof. unfold totalPlaces. rewrite totalPlaces_from. reflexivity. Qed.

(** A call returns empty only when the nearby request threw, or when the
    autocomplete fallback threw, failed or had no prediction. *)
Lemma resume_null (env : Env) (name : string) (la lo : option string)
    (t : Task) (w : World) :
  pending t = true ->
  fst (resolveCoordinates_resume env name la lo t w) = Done None ->
  (exists e, t = AwaitNearby (Throws e))
  \/ (exists r, t = AwaitAutocomplete r
                /\ match r with Ok (_ :: _) => False | _ => True end).
Proof.
  intros Hp. unfold resolveCoordinates_resume, bind, ret.
  destruct t as [[e|err|l]|[e|err|[|p l]]|r]; try discriminate;
    try (destruct (nearbyMatch name l)); cbn; try discriminate; intros _;
    first [ left; eexists; reflexivity
          | right; eexists; split; [reflexivity | exact Logic.I] ].
Qed.


(** *** The answer built from the loop *)

(** Lines 222-307, from whatever destination coordinates, under every
    answer of the services and every schedule: the answer is the enriched
    itinerary; its resolved and unresolved places add up to
    [total_places], the number of places of the days; it repeats the
    destination, the day count and the budget, the days in order, and in
    each day the names and time slots of the places in order. *)
Lemma resolveItinerary_answer (env : Env) (itineraryData : TripItinerary)
    (days : list ItDay) (startTime : Z) (la lo : option string) (w : World) :
  exists (body : EnrichedItinerary) (w' : World),
    resolveItinerary env itineraryData days startTime la lo w = (Success body, w')
    /\ resolved_places body + length (unresolved_places body) = total_places body
    /\ total_places body = list_sum (map (fun day => length (d_places day)) days)
    /\ e_destination body = it_destination itineraryData
    /\ e_days body = it_days itineraryData
    /\ e_budget body = it_budget itineraryData
    /\ Forall2 (fun day ed =>
                  ed_day ed = d_day day
                  /\ map ep_name (ed_places ed) = map ip_name (d_places day)
                  /\ map ep_time (ed_places ed) = map ip_time (d_places day))
               days (e_itinerary body).
Proof.
  unfold resolveItinerary, bind.
  pose proof (resolveDays_spec env la lo days [] 0 w) as (Hall & Hcount & _).
  destruct (resolveDays env la lo days [] 0 w) as [[[eds u] n] w1].
  unfold countOf, unresolvedOf in *. cbn [fst snd length] in *.
  eexists. eexists. split; [reflexivity|].
  cbn [resolved_places unresolved_places total_places e_destination e_days e_budget
       e_itinerary].
  rewrite totalPlaces_sum.
  repeat split; try reflexivity; assumption.
Qed.

(** *** The handler *)

Lemma field_null (name : string) : JS.field name JNull = None.
Proof. reflexivity. Qed.

(** A body with a destination and an itinerary array gets as far as the
    [fetch] of line 203 and no further: the answer is that of the outer
    [catch] for the error of the call, and the world has changed by two
    readings of the clock. *)
Lemma POST_rejected (numberToString : Q -> string) (env : Env) (w : World) (body : JSON) :
  JS.truthy (JS.field "destination" body) = true ->
  JS.isArray (JS.field "itinerary" body) = true ->
  POST numberToString env (Some body) w
  = (catchError
       (mkError "TypeError"
          ("Failed to parse URL from "
           ++ destinationPath numberToString (JS.field "destination" body))),
     snd (now env (snd (now env w)))).
Proof.
  intros Hd Hi. unfold POST, bind. cbn [now fst snd].
  destruct body; try discriminate Hd; rewrite Hd, Hi; reflexivity.
Qed.

Lemma catchError_status (e : JSError) : statusOf (catchError e) = 500%Z.
Proof.
  unfold catchError. destruct (String.eqb _ _); [reflexivity|].
  destruct (includes _ _); reflexivity.
Qed.

Lemma catchError_error (e : JSError) :
  exists error details, catchError e = Error 500 error details.
Proof.
  unfold catchError. destruct (String.eqb _ _); [eauto|].
  destruct (includes _ _); eauto.
Qed.

(** C9 at its failing inputs.  Every body that has a destination and an
    itinerary array, which every valid itinerary has, is answered 500:
    the answer holds an error and no day of the itinerary, no upstream
    request is made and no place is looked up. *)
Theorem well_formed_itinerary_answered_500
    (numberToString : Q -> string) (env : Env) (w : World) (body : JSON) :
  JS.truthy (JS.field "destination" body) = true ->
  JS.isArray (JS.field "itinerary" body) = true ->
  exists (error : string) (details : option string) (w' : World),
    POST numberToString env (Some body) w = (Error 500 error details, w')
    /\ calls w' = calls w
    /\ coordinateCache w' = coordinateCache w.
Proof.
  intros Hd Hi. rewrite (POST_rejected numberToString env w body Hd Hi).
  destruct (catchError_error
              (mkError "TypeError"
                 ("Failed to parse URL from "
                  ++ destinationPath numberToString (JS.field "destination" body))))
    as (error & details & ->).
  exists error, details. eexists. split; [reflexivity|]. split; reflexivity.
Qed.

Lemma well_formed_itinerary_answered_500_witness :
  exists (error : string) (details : option string) (w' : World),
    POST decimal romeEnv (Some romeTripBody) emptyWorld = (Error 500 error details, w')
    /\ calls w' = []
    /\ coordinateCache w' = ∅.
Proof.
  exact (well_formed_itinerary_answered_500 decimal romeEnv emptyWorld romeTripBody
           eq_refl eq_refl).
Defined.

(** C8 at its failing input.  The handler never returns a
    [resolution_info]: whatever the request, the services and the state,
    its answer is an error.  The itinerary of two days in Rome is
    answered with the error of the [fetch] of line 203. *)
Theorem resolution_info_never_returned
    (numberToString : Q -> string) (env : Env) (w : World) :
  (forall request,
     match fst (POST numberToString env request w) with
     | Success _ => False
     | Error status _ _ => status = 400%Z \/ status = 500%Z
     end)
  /\ fst (POST numberToString env (Some romeTripBody) w)
     = Error 500 "Failed to parse URL from /api/places/autocomplete?q=Rome" None.
Proof.
  split.
  - intros [body|]; [|left; reflexivity].
    destruct (JS.truthy (JS.field "destination" body)) eqn:Hd;
      [destruct (JS.isArray (JS.field "itinerary" body)) eqn:Hi|].
    + rewrite (POST_rejected numberToString env w body Hd Hi). cbn [fst].
      destruct (catchError_error
                  (mkError "TypeError"
                     ("Failed to parse URL from "
                      ++ destinationPath numberToString (JS.field "destination" body))))
        as (error & details & ->).
      right. reflexivity.
    + unfold POST, bind. cbn [now fst snd].
      destruct body; try discriminate Hd; rewrite Hd, Hi; left; reflexivity.
    + unfold POST, bind. cbn [now fst snd].
      destruct body; try (rewrite Hd; left; reflexivity).
      right. reflexivity.
  - rewrite (POST_rejected numberToString env w romeTripBody eq_refl eq_refl).
    vm_compute. reflexivity.
Qed.

(** *** Coordinates, when the upstream data carries them *)

Lemma mapM_invariant {A B} (I : World -> Prop) (P : B -> Prop) (f : A -> M B) :
  (forall a w, I w -> I (snd (f a w)) /\ P (fst (f a w))) ->
  forall l w, I w -> I (snd (mapM f l w)) /\ Forall P (fst (mapM f l w)).
Proof.
  intros Hf. induction l as [|a l IH]; intros w HI; simpl.
  - split; [exact HI | constructor].
  - unfold bind.
    destruct (Hf a w HI) as [HI1 HP1].
    destruct (f a w) as [y w1]. simpl in HI1, HP1.
    destruct (IH w1 HI1) as [HI2 HP2].
    destruct (mapM f l w1) as [ys w2]. simpl in *.
    split; [exact HI2 | constructor; assumption].
Qed.

Lemma store_coordinates (env : Env) (key : string) (c : Coordinates) (w : World) :
  hasCoordinates c -> cacheCarriesCoordinates w ->
  cacheCarriesCoordinates (snd (store env key c w))
  /\ fst (store env key c w) = Some c.
Proof.
  intros Hc HI. split; [|reflexivity].
  intros k e. unfold store, bind. cbn. unfold ResultCache.put.
  intros Hk. apply lookup_insert_Some in Hk as [[_ <-] | [_ Hk]]; [exact Hc|].
  exact (HI k e Hk).
Qed.

Lemma start_coordinates (env : Env) (name : string) (la lo : option string) (w : World) :
  cacheCarriesCoordinates w ->
  cacheCarriesCoordinates (snd (resolveCoordinates_start env name la lo w))
  /\ taskCarriesCoordinates (fst (resolveCoordinates_start env name la lo w)).
Proof.
  intros HI. unfold resolveCoordinates_start, bind, getWorld.
  destruct (coordinateCache w !! cacheKey name la lo) as [e|] eqn:He.
  - unfold ResultCache.get_evict. cbn [now fst snd coordinateCache]. rewrite He.
    destruct (ResultCache.fresh ResultCache.CACHE_DURATION_resolve _ e); cbn.
    + split; [exact HI | exact (HI _ _ He)].
    + split; [|exact Logic.I].
      intros k e' Hk. cbn [coordinateCache] in Hk.
      apply lookup_delete_Some in Hk as [_ Hk]. exact (HI k e' Hk).
  - cbn. split; [exact HI | exact Logic.I].
Qed.

Lemma resume_coordinates (env : Env) (name : string) (la lo : option string)
    (t : Task) (w : World) :
  predictionsCarryCoordinates env ->
  taskCarriesCoordinates t ->
  cacheCarriesCoordinates w ->
  cacheCarriesCoordinates (snd (resolveCoordinates_resume env name la lo t w))
  /\ taskCarriesCoordinates (fst (resolveCoordinates_resume env name la lo t w)).
Proof.
  intros Henv Ht HI. unfold resolveCoordinates_resume.
  assert (Hfallback :
    forall w0, cacheCarriesCoordinates w0 ->
      let m := (let* fallback :=
                  fetchAutocomplete env
                    (name ++ " " ++ JS.show la ++ " " ++ JS.show lo)%string in
                ret (AwaitAutocomplete fallback)) in
      cacheCarriesCoordinates (snd (m w0)) /\ taskCarriesCoordinates (fst (m w0))).
  { intros w0 HI0. unfold bind, fetchAutocomplete, ret. cbn [fst snd logCall].
    split; [exact HI0|].
    destruct (autocomplete env _ (length (calls w0))) as [e|err|l] eqn:Ha;
      try exact Logic.I.
    intros p Hp. exact (Henv _ _ _ p Ha Hp). }
  assert (Hstore :
    forall c w0, hasCoordinates c -> cacheCarriesCoordinates w0 ->
      let m := (let* r := store env (cacheKey name la lo) c in ret (Done r)) in
      cacheCarriesCoordinates (snd (m w0)) /\ taskCarriesCoordinates (fst (m w0))).
  { intros c w0 Hc HI0. unfold bind, ret.
    destruct (store_coordinates env (cacheKey name la lo) c w0 Hc HI0) as [HI1 Hr].
    destruct (store env (cacheKey name la lo) c w0) as [r w1].
    cbn [fst snd] in *. subst r. split; [exact HI1 | exact Hc]. }
  destruct t as [[e|err|l]|[e|err|[|p l]]|r];
    try (cbn; split; [exact HI | exact Logic.I]).
  - apply Hfallback. exact HI.
  - destruct (nearbyMatch name l) as [m|].
    + apply Hstore; [split; discriminate | exact HI].
    + apply Hfallback. exact HI.
  - apply Hstore; [|exact HI].
    destruct (Ht p ltac:(left; reflexivity)) as [H1 H2]. split; assumption.
  - cbn. split; [exact HI | exact Ht].
Qed.

Lemma resumeNth_coordinates (env : Env) (la lo : option string) (k : nat)
    (l : list (ItPlace * Task)) (u : list string) (n : nat) (w : World) :
  predictionsCarryCoordinates env ->
  Forall (fun pt => taskCarriesCoordinates (snd pt)) l ->
  cacheCarriesCoordinates w ->
  cacheCarriesCoordinates (snd (resumeNth env la lo k l u n w))
  /\ Forall (fun pt => taskCarriesCoordinates (snd pt))
            (pg_tasks (fst (resumeNth env la lo k l u n w))).
Proof.
  intros Henv. revert k w. induction l as [|[p t] l IH]; intros k w Hall HI.
  - simpl. split; [exact HI | constructor].
  - inversion Hall as [|pt l0 Ht Hrest]; subst. cbn [snd] in Ht. cbn [resumeNth].
    destruct (pending t); [destruct k as [|k']|].
    + unfold bind, ret.
      destruct (resume_coordinates env (ip_name p) la lo t w Henv Ht HI) as [HI1 Ht1].
      destruct (resolveCoordinates_resume env (ip_name p) la lo t w) as [t' w'].
      cbn [fst snd pg_tasks] in *. split; [exact HI1|]. constructor; assumption.
    + unfold bind, ret. destruct (IH k' w Hrest HI) as [HI1 Hall1].
      destruct (resumeNth env la lo k' l u n w) as [pg w'].
      cbn [fst snd pg_tasks] in *. split; [exact HI1|]. constructor; assumption.
    + unfold bind, ret. destruct (IH k w Hrest HI) as [HI1 Hall1].
      destruct (resumeNth env la lo k l u n w) as [pg w'].
      cbn [fst snd pg_tasks] in *. split; [exact HI1|]. constructor; assumption.
Qed.

Lemma settle_coordinates (fuel : nat) (env : Env) (la lo : option string)
    (pg : Progress) (w : World) :
  predictionsCarryCoordinates env ->
  Forall (fun pt => taskCarriesCoordinates (snd pt)) (pg_tasks pg) ->
  cacheCarriesCoordinates w ->
  cacheCarriesCoordinates (snd (settle fuel env la lo pg w))
  /\ Forall (fun pt => taskCarriesCoordinates (snd pt))
            (pg_tasks (fst (settle fuel env la lo pg w))).
Proof.
  intros Henv. revert pg w. induction fuel as [|fuel IH]; intros pg w Hall HI.
  - simpl. split; assumption.
  - cbn [settle]. destruct (countPending (pg_tasks pg)) as [|m].
    + simpl. split; assumption.
    + unfold bind, turn.
      match goal with
      | |- context [resumeNth env la lo ?k ?l ?u ?n ?w1] =>
          destruct (resumeNth_coordinates env la lo k l u n w1 Henv Hall HI)
            as [HI1 Hall1];
          destruct (resumeNth env la lo k l u n w1) as [pg1 w2]
      end.
      cbn [fst snd] in *. exact (IH pg1 w2 Hall1 HI1).
Qed.

Lemma enrich_placed (la lo : option string) (tasks : list (ItPlace * Task)) :
  la <> None -> lo <> None ->
  Forall (fun pt => taskCarriesCoordinates (snd pt)) tasks ->
  Forall placed (map (fun pt => enrich la lo (fst pt) (result (snd pt))) tasks).
Proof.
  intros Hla Hlo Hall. induction Hall as [|[p t] l Ht _ IH]; [constructor|].
  cbn [map fst snd]. constructor; [|exact IH].
  destruct t as [r|r|[c|]]; cbn; try (split; assumption). exact Ht.
Qed.

Lemma resolveDay_placed (env : Env) (la lo : option string) (day : ItDay)
    (u0 : list string) (n0 : nat) (w : World) :
  predictionsCarryCoordinates env -> la <> None -> lo <> None ->
  cacheCarriesCoordinates w ->
  cacheCarriesCoordinates (snd (resolveDay env la lo day u0 n0 w))
  /\ Forall placed (ed_places (fst (fst (fst (resolveDay env la lo day u0 n0 w))))).
Proof.
  intros Henv Hla Hlo HI. unfold resolveDay, runDay, bind.
  destruct (mapM_invariant cacheCarriesCoordinates
              (fun pt : ItPlace * Task => taskCarriesCoordinates (snd pt))
              (fun p => let* t := resolveCoordinates_start env (ip_name p) la lo in
                        ret (p, t))) with (l := d_places day) (w := w)
    as [HI1 Hstarted]; [|exact HI|].
  { intros a w0 HI0. unfold bind, ret.
    destruct (start_coordinates env (ip_name a) la lo w0 HI0) as [H1 H2].
    destruct (resolveCoordinates_start env (ip_name a) la lo w0) as [t w1].
    split; assumption. }
  destruct (mapM _ (d_places day) w) as [started w1]. cbn [fst snd] in HI1, Hstarted.
  destruct (accountAll started u0 n0) as [u1 n1]. cbn [fst snd].
  destruct (settle_coordinates (2 * length started) env la lo
              (mkProgress started u1 n1) w1 Henv Hstarted HI1) as [HI2 Hall].
  destruct (settle (2 * length started) env la lo (mkProgress started u1 n1) w1)
    as [pg w2].
  unfold ret. cbn [fst snd ed_places] in *.
  split; [exact HI2|]. apply enrich_placed; assumption.
Qed.

Lemma resolveDays_placed (env : Env) (la lo : option string) (days : list ItDay)
    (u0 : list string) (n0 : nat) (w : World) :
  predictionsCarryCoordinates env -> la <> None -> lo <> None ->
  cacheCarriesCoordinates w ->
  cacheCarriesCoordinates (snd (resolveDays env la lo days u0 n0 w))
  /\ Forall (fun ed => Forall placed (ed_places ed))
            (fst (fst (fst (resolveDays env la lo days u0 n0 w)))).
Proof.
  intros Henv Hla Hlo. revert u0 n0 w.
  induction days as [|day days IH]; intros u0 n0 w HI; simpl.
  - split; [exact HI | constructor].
  - unfold bind.
    destruct (resolveDay_placed env la lo day u0 n0 w Henv Hla Hlo HI) as [HI1 Hday].
    destruct (resolveDay env la lo day u0 n0 w) as [[[ed u1] n1] w1].
    simpl in HI1, Hday. simpl.
    destruct (IH u1 n1 w1 HI1) as [HI2 Hdays].
    destruct (resolveDays env la lo days u1 n1 w1) as [[[eds u2] n2] w2].
    simpl in *. split; [exact HI2 | constructor; assumption].
Qed.

(** When every prediction the autocomplete service returns, and every
    entry already cached, carries [lat] and [lon], and the destination
    has both coordinates, every place of the answer the loop builds has
    both coordinates. *)
Lemma coordinates_present (env : Env) (w : World) (itineraryData : TripItinerary)
    (days : list ItDay) (startTime : Z) (la lo : option string) :
  predictionsCarryCoordinates env ->
  cacheCarriesCoordinates w ->
  la <> None -> lo <> None ->
  exists (body : EnrichedItinerary) (w' : World),
    resolveItinerary env itineraryData days startTime la lo w = (Success body, w')
    /\ Forall (fun ed => Forall placed (ed_places ed)) (e_itinerary body)
    /\ cacheCarriesCoordinates w'.
Proof.
  intros Henv HI Hla Hlo. unfold resolveItinerary, bind.
  destruct (resolveDays_placed env la lo days [] 0 w Henv Hla Hlo HI) as [HI2 Hall].
  destruct (resolveDays env la lo days [] 0 w) as [[[eds u] n] w1].
  cbn [fst snd] in *.
  eexists. eexists. split; [reflexivity|]. split; [exact Hall | exact HI2].
Qed.

(** C4 at its failing input.  [Villa Nowhere] is not among the nearby
    places, and the autocomplete handler answers the fallback query with
    a prediction built from a Foursquare result that has no latitude and
    no longitude.  [resolveCoordinates] returns a result without
    coordinates; the loop counts the place as resolved, does not list it
    as unresolved, and gives its entry neither coordinate.  Sent to the
    handler, the itinerary with that place is answered 500. *)
Theorem resolved_place_without_coordinates :
  let la := Some "42" in
  let lo := Some "12" in
  let call := resolveCoordinates localEnv "Villa Nowhere" la lo emptyWorld in
  fst call
  = Some {| c_lat := None; c_lon := None; c_place_id := Some "fsq-bare";
            c_address := None; c_type := Some "place" |}
  /\ calls (snd call)
     = [CallNearby "42" "12" "20000"; CallAutocomplete "Villa Nowhere 42 12"]
  /\ fst (resolveDay localEnv la lo villaDay [] 0 emptyWorld)
     = (mkEnrichedDay 1
          [mkEnrichedPlace "Villa Nowhere" morning None None
                           (Some "fsq-bare") None (Some "place")],
        [], 1)
  /\ forall env w, statusOf (fst (POST decimal env (Some villaTripBody) w)) = 500%Z.
Proof.
  cbv zeta. split; [vm_compute; reflexivity|]. split; [vm_compute; reflexivity|].
  split; [vm_compute; reflexivity|].
  intros env w.
  rewrite (POST_rejected decimal env w villaTripBody eq_refl eq_refl).
  cbn [fst]. apply catchError_status.
Qed.

(** *** The two passes over the nearby places *)

Import ResultCache.

Lemma includes_empty (s : string) : includes s EmptyString = true.
Proof. destruct s; reflexivity. Qed.

(** X9.  The matcher of trip/resolve is layered: a candidate whose name
    equals the searched name, up to case and surrounding blanks, is
    chosen over every candidate that only matches by substring, wherever
    it stands in the pool; within a pass the first candidate wins; nothing
    is chosen exactly when no candidate passes either test. *)
Theorem nearbyMatch_layered (placeName : string) (nearbyPlaces : list NearbyPlace) :
  let search := trim (toLowerCase placeName) in
  let exact p := trim (toLowerCase (np_name p)) = search in
  let fuzzy p := includes (toLowerCase (np_name p)) search
                 || includes search (toLowerCase (np_name p)) = true in
  match nearbyMatch placeName nearbyPlaces with
  | Some chosen =>
      exists before after,
        nearbyPlaces = before ++ chosen :: after
        /\ ((exact chosen /\ Forall (fun p => ~ exact p) before)
            \/ (Forall (fun p => ~ exact p) nearbyPlaces
                /\ fuzzy chosen /\ Forall (fun p => ~ fuzzy p) before))
  | None => Forall (fun p => ~ exact p /\ ~ fuzzy p) nearbyPlaces
  end.
Proof.
  intros search exact fuzzy. unfold nearbyMatch. fold search.
  pose proof (ReconcilerFacts.find_first
                (fun p => String.eqb (trim (toLowerCase (np_name p))) search)
                nearbyPlaces) as He.
  destruct (List.find _ nearbyPlaces) as [c|].
  - destruct He as (before & after & Hsplit & Hc & Hb).
    exists before, after. split; [exact Hsplit|]. left. split.
    + apply String.eqb_eq. exact Hc.
    + eapply List.Forall_impl; [|exact Hb]. intros p Hp Hex.
      apply String.eqb_eq in Hex. cbn beta in Hp. congruence.
  - assert (Hne : Forall (fun p => ~ exact p) nearbyPlaces).
    { eapply List.Forall_impl; [|exact He]. intros p Hp Hex.
      apply String.eqb_eq in Hex. cbn beta in Hp. congruence. }
    pose proof (ReconcilerFacts.find_first
                  (fun p => includes (toLowerCase (np_name p)) search
                            || includes search (toLowerCase (np_name p)))
                  nearbyPlaces) as Hf.
    destruct (List.find _ nearbyPlaces) as [c|].
    + destruct Hf as (before & after & Hsplit & Hc & Hb).
      exists before, after. split; [exact Hsplit|]. right.
      split; [exact Hne|]. split; [exact Hc|].
      eapply List.Forall_impl; [|exact Hb]. intros p Hp Hfz.
      unfold fuzzy in Hfz. cbn beta in Hp. congruence.
    + apply List.Forall_forall. intros p Hin. split.
      * exact (proj1 (List.Forall_forall _ _) Hne p Hin).
      * intros Hfz. pose proof (proj1 (List.Forall_forall _ _) Hf p Hin) as Hp.
        unfold fuzzy in Hfz. cbn beta in Hp. congruence.
Qed.

(** X10.  A place name that is empty or blank is matched whenever the pool is
    not empty: with no candidate of blank name, by the first candidate of
    the pool. *)
Theorem blank_name_matches_first_candidate
    (placeName : string) (first : NearbyPlace) (others : list NearbyPlace) :
  trim (toLowerCase placeName) = EmptyString ->
  Forall (fun p => trim (toLowerCase (np_name p)) <> EmptyString) (first :: others) ->
  nearbyMatch placeName (first :: others) = Some first.
Proof.
  intros Hblank Hnames. unfold nearbyMatch. rewrite Hblank.
  assert (Hnone : List.find
                    (fun p => String.eqb (trim (toLowerCase (np_name p))) EmptyString)
                    (first :: others) = None).
  { pose proof (ReconcilerFacts.find_first
                  (fun p => String.eqb (trim (toLowerCase (np_name p))) EmptyString)
                  (first :: others)) as H.
    destruct (List.find _ (first :: others)) as [c|]; [|reflexivity].
    destruct H as (before & after & Hsplit & Hc & _). exfalso.
    apply String.eqb_eq in Hc.
    assert (Hin : In c (first :: others)) by (rewrite Hsplit; apply in_elt).
    exact (proj1 (List.Forall_forall _ _) Hnames c Hin Hc). }
  rewrite Hnone. cbn [List.find]. rewrite includes_empty. reflexivity.
Qed.

Lemma blank_name_matches_first_candidate_witness :
  nearbyMatch "   " [colosseo; fontanaDiTrevi] = Some colosseo.
Proof.
  apply blank_name_matches_first_candidate; [reflexivity|].
  repeat constructor; vm_compute; discriminate.
Defined.

(** *** One call of resolveCoordinates, step by step *)

(** The start of a call: a fresh entry under the key ends it at once and
    changes nothing but the clock; otherwise the nearby request is issued,
    and a stale entry under the key is gone. *)
Lemma start_spec (env : Env) (placeName : string) (la lo : option string) (w : World) :
  let key := cacheKey placeName la lo in
  let r := resolveCoordinates_start env placeName la lo w in
  (exists e,
     coordinateCache w !! key = Some e
     /\ fresh CACHE_DURATION_resolve (clock env (clockReads w)) e = true
     /\ fst r = Done (Some (data e))
     /\ coordinateCache (snd r) = coordinateCache w
     /\ calls (snd r) = calls w)
  \/ (get CACHE_DURATION_resolve key (clock env (clockReads w)) (coordinateCache w) = None
      /\ fst r = AwaitNearby (nearby env (JS.show la) (JS.show lo) "20000"
                                     (length (calls w)))
      /\ coordinateCache (snd r) = delete key (coordinateCache w)
      /\ calls (snd r) = calls w ++ [CallNearby (JS.show la) (JS.show lo) "20000"]).
Proof.
  intros key r. subst r. unfold resolveCoordinates_start, bind, getWorld. fold key.
  unfold get, get_evict.
  destruct (coordinateCache w !! key) as [e|] eqn:He.
  - cbn [now fst snd coordinateCache].
    destruct (fresh CACHE_DURATION_resolve (clock env (clockReads w)) e) eqn:Hf.
    + left. exists e. cbn. auto.
    + right. cbn. auto.
  - right. cbn. rewrite delete_id by exact He. auto.
Qed.

(** A resumption either returns empty and changes nothing, or returns a
    result it has just put in the cache under the key of the call, or
    issues the autocomplete request and waits again. *)
Lemma resume_spec (env : Env) (placeName : string) (la lo : option string)
    (t : Task) (w : World) :
  let key := cacheKey placeName la lo in
  let r := resolveCoordinates_resume env placeName la lo t w in
  pending t = true ->
  (fst r = Done None /\ snd r = w)
  \/ (exists c,
        fst r = Done (Some c)
        /\ coordinateCache (snd r)
           = put key c (clock env (clockReads w)) (coordinateCache w)
        /\ calls (snd r) = calls w)
  \/ (exists response,
        t = AwaitNearby response
        /\ fst r = AwaitAutocomplete
                     (autocomplete env
                        (placeName ++ " " ++ JS.show la ++ " " ++ JS.show lo)%string
                        (length (calls w)))
        /\ coordinateCache (snd r) = coordinateCache w
        /\ calls (snd r)
           = calls w ++ [CallAutocomplete
                           (placeName ++ " " ++ JS.show la ++ " " ++ JS.show lo)%string]).
Proof.
  intros key r Hp. subst r. unfold resolveCoordinates_resume. fold key.
  destruct t as [[e|err|l]|[e|err|[|p l]]|res]; try discriminate;
    try (left; split; reflexivity);
    try (right; right; eexists; cbn; repeat split; reflexivity);
    try (right; left; eexists; cbn; repeat split; reflexivity).
  destruct (nearbyMatch placeName l) as [m|].
  - right; left; eexists; cbn; repeat split; reflexivity.
  - right; right; eexists; cbn; repeat split; reflexivity.
Qed.

Lemma resume_done (env : Env) (placeName : string) (la lo : option string)
    (res : option Coordinates) (w : World) :
  resolveCoordinates_resume env placeName la lo (Done res) w = (Done res, w).
Proof. reflexivity. Qed.

(** What one call, run from start to return, does to the cache: a result
    is under the key of the call when the call returns it; an empty
    return leaves nothing under the key, and no other key is touched
    either way. *)
Lemma resolveCoordinates_cache (env : Env) (placeName : string) (la lo : option string)
    (w : World) :
  let key := cacheKey placeName la lo in
  let r := resolveCoordinates env placeName la lo w in
  match fst r with
  | Some c =>
      (exists e, coordinateCache (snd r) !! key = Some e /\ data e = c)
  | None => coordinateCache (snd r) = delete key (coordinateCache w)
  end
  /\ (forall k, k <> key -> coordinateCache (snd r) !! k = coordinateCache w !! k).
Proof.
  intros key r. subst r. unfold resolveCoordinates, bind.
  destruct (start_spec env placeName la lo w)
    as [(e & He & Hf & Ht & Hc & _) | (_ & Ht & Hc & _)];
    destruct (resolveCoordinates_start env placeName la lo w) as [t0 w0];
    cbn [fst snd] in *; fold key in He || fold key in Hc; subst t0.
  - cbn. split; [exists e; rewrite Hc; auto|]. intros k _. rewrite Hc. reflexivity.
  - match goal with
    | |- context [resolveCoordinates_resume env placeName la lo ?t w0] =>
        destruct (resume_spec env placeName la lo t w0 eq_refl)
          as [[H1 Hw] | [(c & H1 & Hc1 & _) | (resp & _ & H1 & Hc1 & _)]];
        destruct (resolveCoordinates_resume env placeName la lo t w0) as [t1 w1]
    end; cbn [fst snd] in *; fold key in Hc1 || idtac; subst t1.
    + subst w1. cbn. split; [exact Hc|].
      intros k Hk. rewrite Hc. apply lookup_delete_ne. congruence.
    + cbn. split.
      * eexists. rewrite Hc1. unfold put. split; [apply lookup_insert_eq | reflexivity].
      * intros k Hk. rewrite Hc1, Hc. unfold put.
        rewrite lookup_insert_ne by congruence. apply lookup_delete_ne. congruence.
    + match goal with
      | |- context [resolveCoordinates_resume env placeName la lo ?t w1] =>
          destruct (resume_spec env placeName la lo t w1 eq_refl)
            as [[H2 Hw] | [(c & H2 & Hc2 & _) | (resp' & Hresp & _)]];
          [ | | discriminate Hresp];
          destruct (resolveCoordinates_resume env placeName la lo t w1) as [t2 w2]
      end; cbn [fst snd] in *; fold key in Hc2 || idtac; subst t2.
      * subst w2. cbn. rewrite Hc1. split; [exact Hc|].
        intros k Hk. rewrite Hc. apply lookup_delete_ne. congruence.
      * cbn. split.
        -- eexists. rewrite Hc2. unfold put. split; [apply lookup_insert_eq | reflexivity].
        -- intros k Hk. rewrite Hc2, Hc1, Hc. unfold put.
           rewrite lookup_insert_ne by congruence. apply lookup_delete_ne. congruence.
Qed.

(** *** What the cache remembers *)

(** X11.  A result returned by a call is remembered: the next call for a name
    with the same lower-case text and the same destination coordinates,
    made while the entry is fresh, returns the same result without any
    upstream request and leaves the cache as it is. *)
Theorem resolved_coordinates_memoized
    (env : Env) (placeName again : string) (la lo : option string) (w : World)
    (c : Coordinates) :
  let w1 := snd (resolveCoordinates env placeName la lo w) in
  fst (resolveCoordinates env placeName la lo w) = Some c ->
  toLowerCase again = toLowerCase placeName ->
  (forall e, coordinateCache w1 !! cacheKey placeName la lo = Some e ->
             (clock env (clockReads w1) - timestamp e < CACHE_DURATION_resolve)%Z) ->
  fst (resolveCoordinates env again la lo w1) = Some c
  /\ calls (snd (resolveCoordinates env again la lo w1)) = calls w1
  /\ coordinateCache (snd (resolveCoordinates env again la lo w1)) = coordinateCache w1.
Proof.
  intros w1 Hres Hsame Hfresh.
  destruct (resolveCoordinates_cache env placeName la lo w) as [Hc _].
  rewrite Hres in Hc. destruct Hc as (e & He & Hdata). fold w1 in He.
  assert (Hkey : cacheKey again la lo = cacheKey placeName la lo).
  { unfold cacheKey. rewrite Hsame. reflexivity. }
  unfold resolveCoordinates, bind.
  destruct (start_spec env again la lo w1)
    as [(e' & He' & _ & Ht & Hc & Hcalls) | (Hmiss & _)].
  - rewrite Hkey, He in He'. inversion He'; subst e'.
    destruct (resolveCoordinates_start env again la lo w1) as [t0 w2].
    cbn [fst snd] in *. subst t0. cbn. rewrite Hdata. auto.
  - exfalso. rewrite Hkey in Hmiss. unfold get in Hmiss. rewrite He in Hmiss.
    unfold fresh in Hmiss.
    destruct (Z.ltb_spec (clock env (clockReads w1) - timestamp e) CACHE_DURATION_resolve);
      [discriminate|]. specialize (Hfresh e He). lia.
Qed.

Lemma resolved_coordinates_memoized_witness :
  let w1 := snd (resolveCoordinates romeEnv "Colosseo" (Some "41.9028") (Some "12.4964")
                                    emptyWorld) in
  fst (resolveCoordinates romeEnv "COLOSSEO" (Some "41.9028") (Some "12.4964") w1)
  = Some (fromNearby colosseo)
  /\ calls (snd (resolveCoordinates romeEnv "COLOSSEO" (Some "41.9028") (Some "12.4964") w1))
     = [CallNearby "41.9028" "12.4964" "20000"].
Proof.
  intros w1.
  destruct (resolved_coordinates_memoized romeEnv "Colosseo" "COLOSSEO"
              (Some "41.9028") (Some "12.4964") emptyWorld (fromNearby colosseo)
              ltac:(vm_compute; reflexivity) ltac:(vm_compute; reflexivity))
    as (Hres & Hcalls & _).
  - intros e He. vm_compute in He. inversion He. vm_compute. reflexivity.
  - split; [exact Hres|]. etransitivity; [exact Hcalls|]. vm_compute. reflexivity.
Defined.

(** X12.  An empty return is not remembered: it leaves no entry under the key
    of the call, touches no other entry, and the next call for the same
    place issues the nearby request again. *)
Theorem empty_result_not_cached
    (env : Env) (placeName : string) (la lo : option string) (w : World) :
  let w1 := snd (resolveCoordinates env placeName la lo w) in
  fst (resolveCoordinates env placeName la lo w) = None ->
  coordinateCache w1 !! cacheKey placeName la lo = None
  /\ (forall k, k <> cacheKey placeName la lo ->
                coordinateCache w1 !! k = coordinateCache w !! k)
  /\ fst (resolveCoordinates_start env placeName la lo w1)
     = AwaitNearby (nearby env (JS.show la) (JS.show lo) "20000" (length (calls w1))).
Proof.
  intros w1 Hres.
  destruct (resolveCoordinates_cache env placeName la lo w) as [Hc Hother].
  rewrite Hres in Hc. fold w1 in Hc, Hother.
  assert (Hnone : coordinateCache w1 !! cacheKey placeName la lo = None).
  { rewrite Hc. apply lookup_delete_eq. }
  split; [exact Hnone|]. split; [exact Hother|].
  destruct (start_spec env placeName la lo w1)
    as [(e & He & _) | (_ & Ht & _)]; [congruence | exact Ht].
Qed.

Lemma empty_result_not_cached_witness :
  let w1 := snd (resolveCoordinates romeEnv "NonexistentPlaceXYZ" (Some "41.9028")
                                    (Some "12.4964") emptyWorld) in
  coordinateCache w1 = ∅
  /\ calls w1 = [CallNearby "41.9028" "12.4964" "20000";
                 CallAutocomplete "NonexistentPlaceXYZ 41.9028 12.4964"].
Proof.
  intros w1.
  destruct (empty_result_not_cached romeEnv "NonexistentPlaceXYZ" (Some "41.9028")
              (Some "12.4964") emptyWorld ltac:(vm_compute; reflexivity))
    as (Hnone & _ & _).
  split; vm_compute; reflexivity.
Defined.

(** *** When a call returns empty *)


(** *** Where the names of the unresolved list come from *)








(** *** The status of the answer *)

(** X13.  The answer is 400 exactly when the body cannot be parsed or, not
    being [null], lacks a destination or an itinerary array; every other
    body, [null] among them, is answered 500.  The handler never answers
    200, and it makes no upstream request and leaves the cache as it
    is. *)
Theorem resolve_status
    (numberToString : Q -> string) (env : Env) (w : World) (request : option JSON) :
  let r := POST numberToString env request w in
  let refused :=
    match request with
    | None => true
    | Some JNull => false
    | Some body =>
        negb (JS.truthy (JS.field "destination" body))
        || negb (JS.isArray (JS.field "itinerary" body))
    end in
  statusOf (fst r) = (if refused then 400 else 500)%Z
  /\ calls (snd r) = calls w
  /\ coordinateCache (snd r) = coordinateCache w.
Proof.
  cbv zeta. destruct request as [body|]; [|repeat split; reflexivity].
  destruct (JS.truthy (JS.field "destination" body)) eqn:Hd;
    [destruct (JS.isArray (JS.field "itinerary" body)) eqn:Hi|].
  - rewrite (POST_rejected numberToString env w body Hd Hi). cbn [fst snd negb orb].
    destruct body; try discriminate Hd; rewrite catchError_status; repeat split; reflexivity.
  - unfold POST, bind. cbn [now fst snd].
    destruct body; try discriminate Hd; rewrite Hd, Hi; repeat split; reflexivity.
  - unfold POST, bind. cbn [now fst snd].
    destruct body; try (rewrite Hd; repeat split; reflexivity).
    cbn. repeat split; reflexivity.
Qed.

(** *** The number of upstream requests *)

Lemma countAwaitingNearby_cons (pt : ItPlace * Task) (l : list (ItPlace * Task)) :
  countAwaitingNearby (pt :: l)
  = (if awaitsNearby (snd pt) then 1 else 0) + countAwaitingNearby l.
Proof. unfold countAwaitingNearby. simpl. destruct (awaitsNearby (snd pt)); reflexivity. Qed.

Lemma countAwaitingNearby_bound (l : list (ItPlace * Task)) :
  countAwaitingNearby l <= length l.
Proof. unfold countAwaitingNearby. apply List.filter_length_le. Qed.

(** A resumption issues a request only by using up a call that waited
    for the nearby answer. *)
Lemma resume_requests (env : Env) (placeName : string) (la lo : option string)
    (t : Task) (w : World) :
  let r := resolveCoordinates_resume env placeName la lo t w in
  length (calls (snd r)) + (if awaitsNearby (fst r) then 1 else 0)
  <= length (calls w) + (if awaitsNearby t then 1 else 0).
Proof.
  intros r. subst r. destruct (pending t) eqn:Hp.
  - destruct (resume_spec env placeName la lo t w Hp)
      as [[H1 Hw] | [(c & H1 & _ & Hc) | (resp & Ht & H1 & _ & Hc)]];
      destruct (resolveCoordinates_resume env placeName la lo t w) as [t1 w1];
      cbn [fst snd] in *; subst t1.
    + subst w1. cbn. lia.
    + rewrite Hc. cbn. lia.
    + rewrite Hc, Ht, length_app. cbn. lia.
  - destruct t; try discriminate. cbn. lia.
Qed.

Lemma resumeNth_requests (env : Env) (la lo : option string) (k : nat)
    (l : list (ItPlace * Task)) (u : list string) (n : nat) (w : World) :
  let r := resumeNth env la lo k l u n w in
  length (calls (snd r)) + countAwaitingNearby (pg_tasks (fst r))
  <= length (calls w) + countAwaitingNearby l.
Proof.
  revert k w. induction l as [|[p t] l IH]; intros k w; cbn [resumeNth].
  - cbn. lia.
  - destruct (pending t) eqn:Hp; [destruct k as [|k']|].
    + unfold bind, ret.
      pose proof (resume_requests env (ip_name p) la lo t w) as H.
      destruct (resolveCoordinates_resume env (ip_name p) la lo t w) as [t' w'].
      cbn [fst snd pg_tasks] in *. rewrite !countAwaitingNearby_cons. cbn [snd]. lia.
    + unfold bind, ret. specialize (IH k' w).
      destruct (resumeNth env la lo k' l u n w) as [pg w'].
      cbn [fst snd pg_tasks] in *. rewrite !countAwaitingNearby_cons. cbn [snd]. lia.
    + unfold bind, ret. specialize (IH k w).
      destruct (resumeNth env la lo k l u n w) as [pg w'].
      cbn [fst snd pg_tasks] in *. rewrite !countAwaitingNearby_cons. cbn [snd]. lia.
Qed.

Lemma settle_requests (fuel : nat) (env : Env) (la lo : option string)
    (pg : Progress) (w : World) :
  let r := settle fuel env la lo pg w in
  length (calls (snd r)) + countAwaitingNearby (pg_tasks (fst r))
  <= length (calls w) + countAwaitingNearby (pg_tasks pg).
Proof.
  revert pg w. induction fuel as [|fuel IH]; intros pg w; cbn [settle].
  - cbn. lia.
  - destruct (countPending (pg_tasks pg)) as [|m]; [cbn; lia|].
    unfold bind, turn.
    match goal with
    | |- context [resumeNth env la lo ?k ?l ?u ?n ?w1] =>
        pose proof (resumeNth_requests env la lo k l u n w1) as Hstep;
        destruct (resumeNth env la lo k l u n w1) as [pg1 w2]
    end.
    cbn [fst snd calls] in Hstep. specialize (IH pg1 w2). cbv zeta in IH.
    destruct (settle fuel env la lo pg1 w2) as [pg2 w3]. cbn [fst snd] in *. lia.
Qed.

Lemma mapM_cons {A B} (f : A -> M B) (x : A) (xs : list A) (w : World) :
  mapM f (x :: xs) w
  = (fst (f x w) :: fst (mapM f xs (snd (f x w))), snd (mapM f xs (snd (f x w)))).
Proof.
  cbn [mapM]. unfold bind, ret. destruct (f x w) as [y w1].
  cbn [fst snd]. destruct (mapM f xs w1) as [ys w2]. reflexivity.
Qed.

Lemma mapM_start_requests (env : Env) (la lo : option string) (places : list ItPlace)
    (w : World) :
  let r := mapM (fun p =>
                   let* t := resolveCoordinates_start env (ip_name p) la lo in
                   ret (p, t)) places w in
  length (calls (snd r)) = length (calls w) + countAwaitingNearby (fst r).
Proof.
  cbv zeta.
  set (f := fun p => let* t := resolveCoordinates_start env (ip_name p) la lo in
                     ret (p, t)).
  assert (Hf : forall p w0,
             f p w0 = ((p, fst (resolveCoordinates_start env (ip_name p) la lo w0)),
                       snd (resolveCoordinates_start env (ip_name p) la lo w0))).
  { intros p w0. unfold f, bind, ret.
    destruct (resolveCoordinates_start env (ip_name p) la lo w0); reflexivity. }
  revert w. induction places as [|p places IH]; intros w; [cbn; lia|].
  rewrite mapM_cons, Hf. cbn [fst snd].
  rewrite countAwaitingNearby_cons, IH. cbn [snd].
  destruct (start_spec env (ip_name p) la lo w)
    as [(e & _ & _ & Ht & _ & Hc) | (_ & Ht & _ & Hc)];
    rewrite Ht, Hc, ?length_app; cbn [length awaitsNearby]; lia.
Qed.

Lemma runDay_requests (env : Env) (la lo : option string) (day : ItDay)
    (u0 : list string) (n0 : nat) (w : World) :
  length (calls (snd (runDay env la lo day u0 n0 w)))
  <= length (calls w) + 2 * length (d_places day).
Proof.
  unfold runDay, bind.
  pose proof (mapM_start_requests env la lo (d_places day) w) as Hstart.
  pose proof (mapM_started env la lo (d_places day) w) as Hnames.
  destruct (mapM _ (d_places day) w) as [started w1]. cbn [fst snd] in *.
  pose proof (countAwaitingNearby_bound started) as Hb.
  assert (Hlen : length started = length (d_places day)).
  { rewrite <- Hnames, length_map. reflexivity. }
  destruct (accountAll started u0 n0) as [u1 n1]. cbn [fst snd].
  pose proof (settle_requests (2 * length started) env la lo
                (mkProgress started u1 n1) w1) as Hs.
  cbv zeta in Hs. cbn [pg_tasks] in Hs.
  destruct (settle _ env la lo _ w1) as [pg w2]. cbn [fst snd] in *. lia.
Qed.

Lemma resolveDays_requests (env : Env) (la lo : option string) (days : list ItDay)
    (u0 : list string) (n0 : nat) (w : World) :
  length (calls (snd (resolveDays env la lo days u0 n0 w)))
  <= length (calls w) + 2 * placeCount days.
Proof.
  revert u0 n0 w. induction days as [|day days IH]; intros u0 n0 w; cbn [resolveDays].
  - cbn. lia.
  - unfold bind.
    pose proof (runDay_requests env la lo day u0 n0 w) as Hday.
    unfold resolveDay, bind. destruct (runDay env la lo day u0 n0 w) as [pg w1].
    cbn [ret fst snd] in *.
    match goal with
    | |- context [resolveDays env la lo days ?u ?n w1] =>
        specialize (IH u n w1); destruct (resolveDays env la lo days u n w1) as [r' w2]
    end.
    unfold ret. cbn [fst snd] in *.
    change (placeCount (day :: days)) with (length (d_places day) + placeCount days).
    lia.
Qed.

(** One call issues at most two requests. *)
Lemma resolveCoordinates_requests (env : Env) (placeName : string)
    (la lo : option string) (w : World) :
  length (calls (snd (resolveCoordinates env placeName la lo w))) <= length (calls w) + 2.
Proof.
  unfold resolveCoordinates, bind.
  assert (Hs : length (calls (snd (resolveCoordinates_start env placeName la lo w)))
               = length (calls w)
                 + (if awaitsNearby (fst (resolveCoordinates_start env placeName la lo w))
                    then 1 else 0)).
  { destruct (start_spec env placeName la lo w)
      as [(e & _ & _ & Ht & _ & Hc) | (_ & Ht & _ & Hc)];
      rewrite Ht, Hc, ?length_app; cbn [length awaitsNearby]; lia. }
  destruct (resolveCoordinates_start env placeName la lo w) as [t0 w0].
  cbn [fst snd] in *.
  pose proof (resume_requests env placeName la lo t0 w0) as H1. cbv zeta in H1.
  destruct (resolveCoordinates_resume env placeName la lo t0 w0) as [t1 w1].
  cbn [fst snd] in *.
  pose proof (resume_requests env placeName la lo t1 w1) as H2. cbv zeta in H2.
  destruct (resolveCoordinates_resume env placeName la lo t1 w1) as [t2 w2].
  cbn [fst snd ret] in *.
  destruct (awaitsNearby t0), (awaitsNearby t1), (awaitsNearby t2); lia.
Qed.

(** X14.  The handler itself makes no upstream request: the one it attempts
    for the destination is rejected before it leaves.  The loop over the
    days, from whatever destination coordinates, makes at most two
    requests for each place of the itinerary, whatever the services answer
    and in whatever order the lookups of a day complete; one call of
    [resolveCoordinates] makes at most two. *)
Theorem upstream_requests_bounded
    (numberToString : Q -> string) (env : Env) (w : World) (request : option JSON)
    (itineraryData : TripItinerary) (days : list ItDay) (startTime : Z)
    (la lo : option string) :
  calls (snd (POST numberToString env request w)) = calls w
  /\ length (calls (snd (resolveItinerary env itineraryData days startTime la lo w)))
     <= length (calls w) + 2 * list_sum (map (fun day => length (d_places day)) days)
  /\ forall placeName,
       length (calls (snd (resolveCoordinates env placeName la lo w)))
       <= length (calls w) + 2.
Proof.
  split; [|split].
  - unfold POST, bind. cbn [now fst snd].
    destruct request as [body|]; [|reflexivity].
    destruct body; try reflexivity;
      match goal with
      | |- context [if ?c then _ else _] => destruct c; reflexivity
      end.
  - fold (placeCount days). unfold resolveItinerary, bind.
    pose proof (resolveDays_requests env la lo days [] 0 w) as H.
    destruct (resolveDays env la lo days [] 0 w) as [r w1].
    cbn [now fst snd calls ret] in *. exact H.
  - intros placeName. apply resolveCoordinates_requests.
Qed.

End TripResolveFacts.

(** ** trip/create *)

Module TripCreateFacts.
Import TripCreate Samples.

Lemma append_assoc (a b c : string) : ((a ++ b) ++ c = a ++ (b ++ c))%string.
Proof.
  induction a as [|x a IH]; [reflexivity|].
  change (String x ((a ++ b) ++ c) = String x (a ++ b ++ c))%string.
  f_equal. exact IH.
Qed.

Lemma append_nil_r (a : string) : (a ++ "" = a)%string.
Proof.
  induction a as [|x a IH]; [reflexivity|].
  change (String x (a ++ "") = String x a)%string.
  f_equal. exact IH.
Qed.

(** A joined array contains each of its elements as a substring. *)
Lemma join_contains (sep : string) (l : list string) (x : string) :
  In x l -> exists before after, join sep l = (before ++ x ++ after)%string.
Proof.
  induction l as [|y l IH]; [contradiction|].
  intros [-> | Hin].
  - destruct l as [|z l].
    + exists "", "". simpl. rewrite append_nil_r. reflexivity.
    + exists "", (sep ++ join sep (z :: l))%string. reflexivity.
  - destruct l as [|z l]; [contradiction|].
    destruct (IH Hin) as (before & after & Hj).
    exists (y ++ sep ++ before)%string, after.
    change (join sep (y :: z :: l)) with (y ++ sep ++ join sep (z :: l))%string.
    rewrite Hj, !append_assoc. reflexivity.
Qed.

(** *** Entries that are [null] *)


Lemma objects_None_iff (entries : list (option SelectedPlace)) :
  objects entries = None <-> In None entries.
Proof.
  induction entries as [|[p|] l IH]; cbn [objects In].
  - split; [discriminate | contradiction].
  - destruct (objects l) as [selected|]; cbn [option_map]; split.
    + discriminate.
    + intros [H | H]; [discriminate H | apply IH in H; discriminate H].
    + intros _. right. apply IH. reflexivity.
    + reflexivity.
  - split; [auto | reflexivity].
Qed.

Lemma objects_length (entries : list (option SelectedPlace)) (selected : list SelectedPlace) :
  objects entries = Some selected -> length selected = length entries.
Proof.
  revert selected. induction entries as [|[p|] l IH]; intros selected; cbn [objects].
  - intros H. inversion H. reflexivity.
  - destruct (objects l) as [rest|]; cbn [option_map]; [|discriminate].
    intros H. inversion H. cbn [length]. f_equal. apply IH. reflexivity.
  - discriminate.
Qed.

(** C10.  A request whose [selectedPlaces] is an array of more than 20
    entries never reaches the generator: nothing is added to the log of
    upstream calls and the time of the last generator request is
    untouched.  When no entry is [null] the answer is 400
    [Validation failed], and [Maximum 20 places allowed per trip] is one
    of the errors joined into [details].  When an entry is [null], reading
    its name at line 94 throws and the answer is 500
    [Internal server error]. *)
Theorem too_many_places_rejected
    (env : Env) (w : World) (body : Body) (entries : list (option SelectedPlace)) :
  selectedPlaces body = Entries entries ->
  20 < length entries ->
  let r := POST env (Some body) w in
  calls (snd r) = calls w
  /\ lastGroqRequest (snd r) = lastGroqRequest w
  /\ (~ In None entries ->
      exists (errors : list string) (before after : string),
        fst r = Error 400 "Validation failed" (Some (join "; " errors))
        /\ In "Maximum 20 places allowed per trip" errors
        /\ join "; " errors
           = (before ++ "Maximum 20 places allowed per trip" ++ after)%string)
  /\ (In None entries ->
      fst r = Error 500 "Internal server error"
                (Some "Cannot read properties of null (reading 'name')")).
Proof.
  intros Hsel Hlen r. subst r.
  unfold POST, bind. cbn [now fst snd]. rewrite Hsel.
  destruct (objects entries) as [selected|] eqn:Hobj.
  - pose proof (objects_length _ _ Hobj) as Hl.
    set (errors := validate (destination body) selected (days body) (budget body)).
    assert (Hin : In "Maximum 20 places allowed per trip" errors).
    { unfold errors, validate. apply in_or_app. right. apply in_or_app. left.
      destruct (Nat.eqb_spec (length selected) 0) as [H0|_]; [lia|].
      destruct (Nat.ltb_spec 20 (length selected)) as [_|Hle]; [|lia].
      left. reflexivity. }
    destruct (join_contains "; " errors _ Hin) as (before & after & Hj).
    destruct errors as [|e errors'] eqn:He; [contradiction|].
    cbn [length Nat.ltb Nat.leb ret fst snd calls lastGroqRequest].
    split; [reflexivity|]. split; [reflexivity|]. split.
    + intros _. exists (e :: errors'), before, after. auto.
    + intros Hnull. apply objects_None_iff in Hnull. congruence.
  - cbn [ret fst snd calls lastGroqRequest].
    split; [reflexivity|]. split; [reflexivity|]. split.
    + intros Hnot. apply objects_None_iff in Hobj. contradiction.
    + intros _. reflexivity.
Qed.

Lemma too_many_places_rejected_witness :
  fst (POST romeEnv (Some nullEntryBody) emptyWorld)
  = Error 500 "Internal server error"
      (Some "Cannot read properties of null (reading 'name')")
  /\ calls (snd (POST romeEnv (Some nullEntryBody) emptyWorld)) = []
  /\ exists (errors : list string) (before after : string),
       fst (POST romeEnv (Some crowdedBody) emptyWorld)
       = Error 400 "Validation failed" (Some (join "; " errors))
       /\ join "; " errors
          = (before ++ "Maximum 20 places allowed per trip" ++ after)%string.
Proof.
  destruct (too_many_places_rejected romeEnv emptyWorld nullEntryBody
              (repeat (Some selectedColosseo) 20 ++ [None]) eq_refl
              ltac:(vm_compute; lia))
    as (Hcalls & _ & _ & Hnull).
  destruct (too_many_places_rejected romeEnv emptyWorld crowdedBody
              (repeat (Some selectedColosseo) 21) eq_refl ltac:(vm_compute; lia))
    as (_ & _ & Hfull & _).
  split; [apply Hnull; vm_compute; tauto|].
  split; [exact Hcalls|].
  destruct Hfull as (errors & before & after & Hr & _ & Hj).
  - vm_compute. intros H. repeat (destruct H as [H|H]; [discriminate H|]). exact H.
  - exists errors, before, after. split; [exact Hr | exact Hj].
Defined.

(** *** What the validation lets through *)






(** *** The generator call *)





(** *** Properties of a value after an assignment *)









(** *** The repair on a typed itinerary *)







(** *** When the repair throws *)






(** *** Filling in coordinates *)





End TripCreateFacts.

(** ** places/autocomplete *)

Module PlacesAutocompleteFacts.
Import JSGlobal PlacesAutocomplete Samples.

Lemma length16_truthy (s : string) :
  JSString.truthy s && Nat.leb 2 (length16 s) = Nat.leb 2 (length16 s).
Proof. destruct s; reflexivity. Qed.

(** X20.  The handler asks Foursquare exactly when the query has at least two
    UTF-16 code units; a missing, empty or one-character query is
    answered 200 with no prediction and without any upstream request. *)
Theorem short_query_skips_foursquare
    (numberToString : Q -> string)
    (fetch : string -> Fetched (option (list FsqPlace))) (p : Params) :
  let r := GET numberToString fetch p in
  (snd r = [] <-> forall query, q p = Some query -> length16 query < 2)
  /\ (snd r = [] -> fst r = Predictions [])
  /\ length (snd r) <= 1.
Proof.
  cbv zeta. unfold GET. destruct (q p) as [query|].
  - rewrite length16_truthy. destruct (Nat.leb_spec 2 (length16 query)); cbn.
    + split; [|split; [discriminate | lia]]. split; [discriminate|].
      intros Hshort. specialize (Hshort query eq_refl). lia.
    + split; [|split; [reflexivity | lia]]. split; [|reflexivity].
      intros _ s Hs. inversion Hs; subst. assumption.
  - cbn. split; [|split; [reflexivity | lia]]. split; [discriminate | reflexivity].
Qed.

(** X21.  A failed upstream request, a response that is not ok and a body that
    is not JSON, or is [null], are all answered 500, with the message of
    the error; for a response that is not ok the message carries its
    status and text. *)
Theorem foursquare_failure_is_500
    (numberToString : Q -> string)
    (fetch : string -> Fetched (option (list FsqPlace))) (p : Params) (query : string) :
  let address := url query (orElse (limit p) "5") (lat p) (lng p) in
  q p = Some query ->
  2 <= length16 query ->
  (forall results, fetch address <> FetchJson results) ->
  statusOf (fst (GET numberToString fetch p)) = 500%Z
  /\ snd (GET numberToString fetch p) = [address]
  /\ (forall status errorText,
        fetch address = FetchStatus status errorText ->
        fst (GET numberToString fetch p)
        = Failure ("Foursquare API error: " ++ pretty status ++ " - " ++ errorText))
  /\ (forall e, fetch address = FetchFails e \/ fetch address = FetchNotJson e ->
                fst (GET numberToString fetch p) = Failure (err_message e)).
Proof.
  intros address Hq Hlen Hfail. unfold GET. rewrite Hq, length16_truthy.
  destruct (Nat.leb_spec 2 (length16 query)); [|lia]. fold address. cbn [fst snd].
  destruct (fetch address) as [e|status text|e| |results] eqn:Hf;
    [| | | |exfalso; exact (Hfail results eq_refl)];
    (split; [reflexivity|]; split; [reflexivity|]; split).
  - intros st tx Heq. discriminate.
  - intros e' [Heq | Heq]; inversion Heq; reflexivity.
  - intros st tx Heq. inversion Heq. reflexivity.
  - intros e' [Heq | Heq]; discriminate.
  - intros st tx Heq. discriminate.
  - intros e' [Heq | Heq]; inversion Heq; reflexivity.
  - intros st tx Heq. discriminate.
  - intros e' [Heq | Heq]; discriminate.
Qed.

Lemma orElse_truthy (v : option string) (fallback : string) :
  fallback <> EmptyString -> orElse v fallback <> EmptyString.
Proof.
  intros Hf. unfold orElse. destruct v as [s|]; [|exact Hf].
  destruct s; [exact Hf | discriminate].
Qed.

(** X22.  An answer of Foursquare is turned into one prediction per result, in
    the order of the results.  A prediction has the name and the id of
    its result, a description that is the name, a comma and a blank, and
    then an address, and a type that is never empty; it has a latitude
    exactly when its result has one, and likewise a longitude. *)
Theorem predictions_follow_results
    (numberToString : Q -> string)
    (fetch : string -> Fetched (option (list FsqPlace))) (p : Params) (query : string)
    (results : list FsqPlace) :
  q p = Some query ->
  2 <= length16 query ->
  fetch (url query (orElse (limit p) "5") (lat p) (lng p)) = FetchJson (Some results) ->
  exists predictions,
    fst (GET numberToString fetch p) = Predictions predictions
    /\ Forall2
         (fun place s =>
            sg_name s = fsq_name place
            /\ sg_place_id s = fsq_place_id place
            /\ (exists address,
                  sg_description s = (JS.show (fsq_name place) ++ ", " ++ address)%string)
            /\ sg_type s <> EmptyString
            /\ (sg_lat s = None <-> fsq_latitude place = None)
            /\ (sg_lon s = None <-> fsq_longitude place = None))
         results predictions.
Proof.
  intros Hq Hlen Hf. unfold GET. rewrite Hq, length16_truthy.
  destruct (Nat.leb_spec 2 (length16 query)); [|lia]. rewrite Hf. cbn [fst].
  eexists. split; [reflexivity|]. clear.
  induction results as [|place rest IH]; cbn [map]; [constructor|].
  constructor; [|exact IH].
  cbn. split; [reflexivity|]. split; [reflexivity|]. split; [eexists; reflexivity|].
  split; [apply orElse_truthy; discriminate|].
  split; (destruct (_ place); cbn; split; intros; congruence).
Qed.

(** *** The address of the upstream request *)

Lemma hexDigit_unreserved (c : ascii) :
  unreserved (hexDigit (nat_of_ascii c / 16)) = true
  /\ unreserved (hexDigit (nat_of_ascii c mod 16)) = true.
Proof. destruct c as [[] [] [] [] [] [] [] []]; vm_compute; split; reflexivity. Qed.

Lemma encodeURIComponent_safe (s : string) :
  Forall uriSafe (list_ascii_of_string (encodeURIComponent s)).
Proof.
  induction s as [|c s IH]; cbn [encodeURIComponent]; [constructor|].
  destruct (unreserved c) eqn:Hc; cbn [list_ascii_of_string].
  - constructor; [left; exact Hc | exact IH].
  - destruct (hexDigit_unreserved c) as [H1 H2].
    constructor; [right; reflexivity|].
    constructor; [left; exact H1|]. constructor; [left; exact H2 | exact IH].
Qed.

(** X23.  The query enters the address of the upstream request percent-encoded:
    between [query=] and [&limit=] every character is unreserved or a
    percent sign, so that no character of the query can end the
    parameter or start another one. *)
Theorem query_is_percent_encoded (query limit : string) (lat lng : option string) :
  exists encoded rest,
    url query limit lat lng
    = ("https://places-api.foursquare.com/autocomplete?query=" ++ encoded
       ++ "&limit=" ++ limit ++ rest)%string
    /\ Forall uriSafe (list_ascii_of_string encoded)
    /\ Forall (fun c => c <> "&"%char /\ c <> "="%char /\ c <> "?"%char
                        /\ c <> "#"%char /\ c <> " "%char /\ c <> "/"%char)
              (list_ascii_of_string encoded).
Proof.
  exists (encodeURIComponent query). eexists. split; [reflexivity|].
  pose proof (encodeURIComponent_safe query) as H. split; [exact H|].
  eapply List.Forall_impl; [|exact H].
  intros c [Hc | ->]; repeat split; try discriminate;
    intros ->; vm_compute in Hc; discriminate.
Qed.

Lemma foursquare_failure_is_500_witness :
  GET decimal foursquare (mkParams (Some "down") None None None)
  = (Failure "Foursquare API error: 503 - unavailable",
     ["https://places-api.foursquare.com/autocomplete?query=down&limit=5"]).
Proof.
  destruct (foursquare_failure_is_500 decimal foursquare
              (mkParams (Some "down") None None None) "down"
              eq_refl ltac:(vm_compute; lia)
              ltac:(intros results; vm_compute; discriminate))
    as (_ & Hsent & Hstatus & _).
  rewrite (surjective_pairing (GET decimal foursquare _)).
  rewrite Hsent, (Hstatus 503%Z "unavailable" ltac:(vm_compute; reflexivity)).
  vm_compute. reflexivity.
Defined.

Lemma predictions_follow_results_witness :
  fst (GET decimal foursquare (mkParams (Some "Rome") None None (Some "3")))
  = Predictions
      [mkSuggestion (Some "fsq-rome") "Rome, Roma RM, Italia" (Some "42") (Some "12")
                    "City" (Some "Rome");
       mkSuggestion (Some "fsq-bare") "Villa Nowhere, " None None "place"
                    (Some "Villa Nowhere")].
Proof.
  destruct (predictions_follow_results decimal foursquare
              (mkParams (Some "Rome") None None (Some "3")) "Rome" [fsqRome; fsqBare]
              eq_refl ltac:(vm_compute; lia) ltac:(vm_compute; reflexivity))
    as (predictions & HP & _).
  vm_compute. reflexivity.
Defined.

End PlacesAutocompleteFacts.

(** ** places/nearby *)

Module PlacesNearbyFacts.
Import JSGlobal PlacesNearby Samples.

Lemma GET_cases (numberToString : Q -> string)
    (overpass : Query -> Fetched (list Element)) (p : Params) :
  (statusOf (fst (GET numberToString overpass p)) = 400%Z
   /\ snd (GET numberToString overpass p) = [])
  \/ (exists radiusNum,
        given (lat p) = true /\ given (lon p) = true
        /\ parsesAsNumber (JS.show (lat p)) = true
        /\ parsesAsNumber (JS.show (lon p)) = true
        /\ parseInt (orElse (radius p) "2000") = Some radiusNum
        /\ (1 <= radiusNum <= 50000)%Z
        /\ GET numberToString overpass p
           = search numberToString overpass (JS.show (lat p)) (JS.show (lon p))
                    (orElse (radius p) "2000") (orElse (type p) "tourist_attraction")).
Proof.
  unfold GET.
  destruct (given (lat p)); [|left; split; reflexivity].
  destruct (given (lon p)); [|left; split; reflexivity].
  destruct (parsesAsNumber (JS.show (lat p))); [|left; split; reflexivity].
  destruct (parsesAsNumber (JS.show (lon p))); [|left; split; reflexivity].
  cbn [negb orb].
  destruct (parseInt (orElse (radius p) "2000")) as [n|]; [|left; split; reflexivity].
  destruct (Z.ltb_spec n 1); [left; split; reflexivity|].
  destruct (Z.ltb_spec 50000 n); [left; split; reflexivity|].
  right. exists n. cbn [orb]. repeat split; try reflexivity; lia.
Qed.

Lemma search_request (numberToString : Q -> string)
    (overpass : Query -> Fetched (list Element)) (lat lon radius type : string) :
  snd (search numberToString overpass lat lon radius type)
  = [mkQuery (osmTypeOf type) radius lat lon]
  /\ statusOf (fst (search numberToString overpass lat lon radius type)) <> 400%Z.
Proof.
  unfold search. cbn [fst snd]. split; [reflexivity|].
  destruct (overpass _) as [e|status text|e| |elements]; cbn; try discriminate.
  destruct (toPlaces _ _ _ _); cbn; discriminate.
Qed.

(** X24.  The handler answers 400 exactly when it sends nothing upstream.  It
    sends a query exactly when [lat] and [lon] are given and begin with a
    number and the radius, 2000 when none is given, begins with an
    integer between 1 and 50000; the query then carries the latitude,
    the longitude and the radius as they were given, not as they were
    parsed. *)
Theorem parameters_checked_before_search
    (numberToString : Q -> string)
    (overpass : Query -> Fetched (list Element)) (p : Params) :
  let r := GET numberToString overpass p in
  let accepted :=
    given (lat p) = true /\ given (lon p) = true
    /\ parsesAsNumber (JS.show (lat p)) = true
    /\ parsesAsNumber (JS.show (lon p)) = true
    /\ exists radiusNum,
         parseInt (orElse (radius p) "2000") = Some radiusNum
         /\ (1 <= radiusNum <= 50000)%Z in
  (statusOf (fst r) = 400%Z <-> snd r = [])
  /\ (statusOf (fst r) = 400%Z <-> ~ accepted)
  /\ (accepted ->
      snd r = [mkQuery (osmTypeOf (orElse (type p) "tourist_attraction"))
                       (orElse (radius p) "2000") (JS.show (lat p)) (JS.show (lon p))]).
Proof.
  intros r accepted. subst r.
  assert (Hacc : accepted ->
            GET numberToString overpass p
            = search numberToString overpass (JS.show (lat p)) (JS.show (lon p))
                     (orElse (radius p) "2000") (orElse (type p) "tourist_attraction")).
  { intros (H1 & H2 & H3 & H4 & n & Hn & Hr). unfold GET.
    rewrite H1, H2, H3, H4, Hn. cbn [negb orb].
    destruct (Z.ltb_spec n 1); [lia|]. destruct (Z.ltb_spec 50000 n); [lia|]. reflexivity. }
  destruct (GET_cases numberToString overpass p)
    as [[H400 Hnone] | (n & H1 & H2 & H3 & H4 & Hn & Hr & HG)].
  - assert (Hnot : ~ accepted).
    { intros Ha. rewrite (Hacc Ha) in H400.
      exact (proj2 (search_request _ _ _ _ _ _) H400). }
    split; [tauto|]. split; [tauto|]. intros Ha. contradiction.
  - assert (Ha : accepted) by (unfold accepted; eauto 10).
    rewrite HG. destruct (search_request numberToString overpass
                            (JS.show (lat p)) (JS.show (lon p))
                            (orElse (radius p) "2000")
                            (orElse (type p) "tourist_attraction")) as [Hq Hs].
    split; [|split].
    + split; [intros H; contradiction | rewrite Hq; discriminate].
    + split; [intros H; contradiction | intros H; contradiction].
    + intros _. exact Hq.
Qed.

Lemma parameters_checked_before_search_witness :
  let p := mkParams (Some "41.9028") (Some "12.4964") (Some "100); node(1") None in
  snd (GET (fun _ => "0") (fun _ => FetchJson []) p)
  = [mkQuery (Tag "attraction") "100); node(1" "41.9028" "12.4964"].
Proof.
  intros p.
  destruct (parameters_checked_before_search (fun _ => "0") (fun _ => FetchJson []) p)
    as (_ & _ & Hsent).
  apply Hsent. repeat split; try reflexivity.
  exists 100%Z. split; [reflexivity | lia].
Defined.

(** *** The places of an answer *)

Lemma nonZero_Some (v : option Q) :
  nonZero v = true -> exists x, v = Some x /\ Qeq_bool x 0 = false.
Proof.
  destruct v as [x|]; [|discriminate]. cbn. intros H. exists x. split; [reflexivity|].
  destruct (Qeq_bool x 0); [discriminate | reflexivity].
Qed.

Lemma coordinate_given (numberToString : Q -> string) (a b : option Q) :
  nonZero a = true \/ nonZero b = true ->
  exists x, (a = Some x \/ b = Some x) /\ Qeq_bool x 0 = false
            /\ coordinate numberToString a b = numberToString x.
Proof.
  intros H. destruct (nonZero a) eqn:Ha.
  - destruct (nonZero_Some a Ha) as (x & -> & Hx). exists x.
    split; [left; reflexivity|]. split; [exact Hx|].
    unfold coordinate. rewrite Ha. reflexivity.
  - destruct H as [H | H]; [discriminate|].
    destruct (nonZero_Some b H) as (y & -> & Hy). exists y.
    split; [right; reflexivity|]. split; [exact Hy|].
    unfold coordinate. rewrite H. destruct a; [rewrite Ha|]; reflexivity.
Qed.

Lemma toPlaces_each (numberToString : Q -> string) (osmType : OsmType)
    (category : string) (elements : list Element) (places : list Place) :
  toPlaces numberToString osmType category elements = inr places ->
  Forall (fun place =>
            exists element,
              In element elements
              /\ toPlace numberToString osmType category element = inr place)
         places.
Proof.
  revert places. induction elements as [|element rest IH]; intros places; cbn [toPlaces].
  - intros H. inversion H. constructor.
  - destruct (toPlace numberToString osmType category element) as [e|place] eqn:Hp;
      [discriminate|].
    destruct (toPlaces numberToString osmType category rest) as [e|ps]; [discriminate|].
    intros H. inversion H; subst. constructor.
    + exists element. split; [left; reflexivity | exact Hp].
    + eapply List.Forall_impl; [|exact (IH ps eq_refl)].
      intros pl (el & Hin & Hel). exists el. split; [right; exact Hin | exact Hel].
Qed.

(** The place built from an element the filter kept. *)
Lemma toPlace_kept (numberToString : Q -> string) (osmType : OsmType)
    (category : string) (element : Element) (place : Place) :
  keep element = true ->
  toPlace numberToString osmType category element = inr place ->
  pl_category place = category
  /\ pl_name place <> EmptyString
  /\ tag t_name element = Some (pl_name place)
  /\ (exists x,
        (el_lat element = Some x \/ center ce_lat element = Some x)
        /\ Qeq_bool x 0 = false
        /\ pl_lat place = numberToString x)
  /\ (exists y,
        (el_lon element = Some y \/ center ce_lon element = Some y)
        /\ Qeq_bool y 0 = false
        /\ pl_lon place = numberToString y).
Proof.
  unfold keep, hasCoords, hasName. intros Hk Hp.
  apply andb_true_iff in Hk as [Hc Hn].
  unfold toPlace in Hp. destruct (el_id element) as [id|]; [|discriminate].
  inversion Hp; subst place; clear Hp. cbn. rewrite Hn.
  destruct (tag t_name element) as [name|] eqn:Hname; [|discriminate].
  cbn in Hn. split; [reflexivity|]. split.
  { cbn. intros Hs. rewrite Hs in Hn. discriminate. }
  split; [reflexivity|].
  apply orb_true_iff in Hc as [Hc | Hc]; apply andb_true_iff in Hc as [H1 H2];
    split; apply coordinate_given; auto.
Qed.

Lemma toPlaces_fails (numberToString : Q -> string) (osmType : OsmType)
    (category : string) (elements : list Element) (element : Element) :
  In element elements -> el_id element = None ->
  toPlaces numberToString osmType category elements
  = inl (mkError "TypeError" "Cannot read properties of undefined (reading 'toString')").
Proof.
  intros Hin Hid. induction elements as [|x rest IH]; [contradiction|].
  cbn [toPlaces]. unfold toPlace at 1.
  destruct (el_id x) as [id|] eqn:Hx; [|reflexivity].
  destruct Hin as [-> | Hin]; [congruence|]. rewrite (IH Hin). reflexivity.
Qed.

Lemma In_firstn {A} (n : nat) (l : list A) (x : A) : In x (firstn n l) -> In x l.
Proof.
  revert l. induction n as [|n IH]; intros [|y l]; cbn; try contradiction.
  intros [-> | H]; [left; reflexivity | right; exact (IH l H)].
Qed.

(** An answer that holds places, read backwards: the places are the
    first 20 of those built from the elements the filter kept. *)
Lemma GET_places
    (numberToString : Q -> string)
    (overpass : Query -> Fetched (list Element)) (p : Params) (places : list Place) :
  fst (GET numberToString overpass p) = Places places ->
  exists query elements all,
    snd (GET numberToString overpass p) = [query]
    /\ overpass query = FetchJson elements
    /\ places = firstn 20 all
    /\ Forall
         (fun place =>
            exists element,
              In element elements /\ keep element = true
              /\ toPlace numberToString (osmTypeOf (orElse (type p) "tourist_attraction"))
                         (orElse (type p) "tourist_attraction") element
                 = inr place)
         all.
Proof.
  intros HP.
  destruct (GET_cases numberToString overpass p)
    as [[H400 _] | (n & _ & _ & _ & _ & _ & _ & HG)];
    [rewrite HP in H400; discriminate|].
  rewrite HG in *. unfold search in *. cbn [fst snd] in *.
  destruct (overpass _) as [e|status text|e| |elements] eqn:Ho; try discriminate.
  destruct (toPlaces numberToString _ _ (List.filter keep elements)) as [e|all] eqn:Hall;
    [discriminate|].
  inversion HP; subst places; clear HP.
  eexists _, elements, all. split; [reflexivity|]. split; [exact Ho|].
  split; [reflexivity|].
  apply toPlaces_each in Hall.
  eapply List.Forall_impl; [|exact Hall].
  intros place (element & Hel & Hplace). apply filter_In in Hel as [Hel Hkeep].
  exists element. auto.
Qed.

(** X25.  An answer holds at most 20 places, whatever limit was asked for.
    Every place comes from an element of the Overpass answer that has a
    name and coordinates: its name is the [name] tag of the element, and
    its latitude and longitude are renderings of numbers of the element
    or of its centre that are not zero, so that neither the [Unnamed]
    name nor the ['0'] coordinate of the handler is ever used, and an
    element on the equator or on the prime meridian that has no centre is
    never returned.  The category of a place is the [type] parameter,
    [tourist_attraction] when none is given. *)
Theorem places_are_named_and_located
    (numberToString : Q -> string)
    (overpass : Query -> Fetched (list Element)) (p : Params) (places : list Place) :
  fst (GET numberToString overpass p) = Places places ->
  length places <= 20
  /\ exists query elements,
       snd (GET numberToString overpass p) = [query]
       /\ overpass query = FetchJson elements
       /\ Forall
            (fun place =>
               pl_category place = orElse (type p) "tourist_attraction"
               /\ pl_name place <> EmptyString
               /\ exists element,
                    In element elements
                    /\ tag t_name element = Some (pl_name place)
                    /\ (exists x,
                          (el_lat element = Some x \/ center ce_lat element = Some x)
                          /\ Qeq_bool x 0 = false
                          /\ pl_lat place = numberToString x)
                    /\ (exists y,
                          (el_lon element = Some y \/ center ce_lon element = Some y)
                          /\ Qeq_bool y 0 = false
                          /\ pl_lon place = numberToString y))
            places.
Proof.
  intros HP.
  destruct (GET_places numberToString overpass p places HP)
    as (query & elements & all & Hsent & Ho & -> & Hall).
  split; [apply firstn_le_length|].
  exists query, elements. split; [exact Hsent|]. split; [exact Ho|].
  apply List.Forall_forall. intros place Hin. apply In_firstn in Hin.
  destruct (proj1 (List.Forall_forall _ _) Hall place Hin)
    as (element & Hel & Hkeep & Hplace).
  destruct (toPlace_kept _ _ _ _ _ Hkeep Hplace) as (Hcat & Hname & Htag & Hlat & Hlon).
  split; [exact Hcat|]. split; [exact Hname|].
  exists element. auto.
Qed.

(** X26.  An element that has a name and coordinates but no id makes the whole
    request fail with a 500, wherever it stands among the elements, also
    beyond the twentieth. *)
Theorem element_without_id_fails_request
    (numberToString : Q -> string)
    (overpass : Query -> Fetched (list Element)) (p : Params)
    (query : Query) (elements : list Element) (element : Element) :
  snd (GET numberToString overpass p) = [query] ->
  overpass query = FetchJson elements ->
  In element elements ->
  keep element = true ->
  el_id element = None ->
  fst (GET numberToString overpass p)
  = Error 500 "Cannot read properties of undefined (reading 'toString')".
Proof.
  intros Hsent Ho Hin Hkeep Hid.
  destruct (GET_cases numberToString overpass p)
    as [[_ Hnone] | (n & _ & _ & _ & _ & _ & _ & HG)];
    [rewrite Hnone in Hsent; discriminate|].
  rewrite HG in *. unfold search in *. cbn [fst snd] in *.
  inversion Hsent; subst query; clear Hsent. rewrite Ho.
  rewrite (toPlaces_fails numberToString _ _ (List.filter keep elements) element);
    [reflexivity | | exact Hid].
  apply filter_In. split; assumption.
Qed.

Lemma places_are_named_and_located_witness :
  fst (GET decimal overpassRome (mkParams (Some "41.9") (Some "12.5") None None))
  = Places [mkPlace "1001" "Colosseo" "42" "12" (Some "monument") "tourist_attraction";
            mkPlace "1002" "Foro Romano" "42" "13" (Some "attraction")
                    "tourist_attraction"]
  /\ 2 <= 20.
Proof.
  assert (HP : fst (GET decimal overpassRome (mkParams (Some "41.9") (Some "12.5") None None))
               = Places [mkPlace "1001" "Colosseo" "42" "12" (Some "monument")
                                 "tourist_attraction";
                         mkPlace "1002" "Foro Romano" "42" "13" (Some "attraction")
                                 "tourist_attraction"])
    by (vm_compute; reflexivity).
  split; [exact HP|].
  exact (proj1 (places_are_named_and_located decimal overpassRome _ _ HP)).
Defined.

Lemma element_without_id_fails_request_witness :
  fst (GET decimal overpassBroken (mkParams (Some "41.9") (Some "12.5") None None))
  = Error 500 "Cannot read properties of undefined (reading 'toString')".
Proof.
  apply (element_without_id_fails_request decimal overpassBroken
           (mkParams (Some "41.9") (Some "12.5") None None)
           (mkQuery (Tag "attraction") "2000" "41.9" "12.5")
           [colosseoNode; anonymousNode] anonymousNode);
    try reflexivity.
  right. left. reflexivity.
Defined.

End PlacesNearbyFacts.

(** ** The trip routes served by the two handlers *)

Module HandlersTogetherFacts.
Import ResultCache Samples.

Lemma append_cons (c : ascii) (a b : string) :
  (String c a ++ b)%string = String c (a ++ b)%string.
Proof. reflexivity. Qed.

Lemma split_nonempty (sep : ascii) (s : string) : split sep s <> [].
Proof.
  induction s as [|c s IH]; cbn [split]; [discriminate|].
  destruct (Ascii.eqb c sep); [discriminate|].
  destruct (split sep s); discriminate.
Qed.

(** The first piece of a text does not depend on what follows its first
    separator. *)
Lemma split_head (sep : ascii) (a rest : string) :
  hd EmptyString (split sep (a ++ String sep rest))
  = hd EmptyString (split sep a).
Proof.
  induction a as [|c a IH].
  - change (EmptyString ++ String sep rest)%string with (String sep rest).
    cbn [split]. rewrite Ascii.eqb_refl. reflexivity.
  - rewrite append_cons. cbn [split]. destruct (Ascii.eqb c sep); [reflexivity|].
    pose proof (split_nonempty sep (a ++ String sep rest)) as H1.
    pose proof (split_nonempty sep a) as H2.
    destruct (split sep (a ++ String sep rest)) as [|w ws]; [contradiction|].
    destruct (split sep a) as [|w' ws']; [contradiction|].
    cbn in *. rewrite IH. reflexivity.
Qed.

Lemma split_whole (sep : ascii) (a : string) :
  ~ In sep (list_ascii_of_string a) -> split sep a = [a].
Proof.
  induction a as [|c a IH]; intros Hnot; [reflexivity|].
  cbn [split]. destruct (Ascii.eqb_spec c sep) as [->|Hne].
  - exfalso. apply Hnot. left. reflexivity.
  - rewrite IH; [reflexivity|]. intros Hin. apply Hnot. right. exact Hin.
Qed.

(** X27.  When the destination of trip/init is validated by a result of this
    autocomplete handler, the destination name of the answer is the
    Foursquare name of the result up to its first comma, trimmed: the
    whole name when it has no comma, never a part of the address. *)
Theorem destination_name_is_foursquare_name
    (numberToString : Q -> string) (place : PlacesAutocomplete.FsqPlace) (name : string)
    (destination : string) (places : list string) (days : Q) (budget : string)
    (validated : list TripInit.ValidatedPlace) (invalid : list string)
    (b : TripInit.ValidatedResponse) :
  PlacesAutocomplete.fsq_name place = Some name ->
  TripInit.respond destination places days budget
    (PlacesAutocomplete.asPrediction (PlacesAutocomplete.toSuggestion numberToString place))
    validated invalid = TripInit.Success b ->
  TripInit.r_destination_name b = trim (hd EmptyString (split "," name))
  /\ (~ In ","%char (list_ascii_of_string name) -> TripInit.r_destination_name b = trim name)
  /\ TripInit.r_destination_lat b
     = option_map numberToString (PlacesAutocomplete.fsq_latitude place)
  /\ TripInit.r_destination_lon b
     = option_map numberToString (PlacesAutocomplete.fsq_longitude place).
Proof.
  intros Hname Hr. unfold TripInit.respond in Hr.
  destruct (Nat.eqb (length validated) 0); [discriminate|].
  inversion Hr; subst b; clear Hr. cbn. rewrite Hname. cbn [JS.show].
  assert (Hhead : hd EmptyString
                    (split "," (name ++ ", "
                                ++ JSGlobal.orElse (PlacesAutocomplete.fsq_formatted_address place)
                                     (JSGlobal.orElse (PlacesAutocomplete.fsq_locality place) "")))
                  = hd EmptyString (split "," name)).
  { change (", " ++ ?x)%string with (String "," (String " " x)). apply split_head. }
  rewrite Hhead. split; [reflexivity|]. split; [|split; reflexivity].
  intros Hnot. rewrite (split_whole _ _ Hnot). reflexivity.
Qed.

(** X28.  With this autocomplete handler behind it, trip/init never finds a
    destination of a single character: the handler answers such a query
    with no prediction, without asking Foursquare, and the request is
    answered 404. *)
Theorem one_character_destination_is_not_found
    (numberToString : Q -> string)
    (foursquare : string -> nat -> Fetched (option (list PlacesAutocomplete.FsqPlace)))
    (env : Env) (w : World) (body : JSON) :
  let destination := JS.asString (TripInit.field "destination" body) in
  autocomplete env = PlacesAutocomplete.served numberToString foursquare ->
  TripInit.validate (TripInit.field "destination" body) (TripInit.field "places" body)
                    (TripInit.field "days" body) (TripInit.field "budget" body) = [] ->
  get CACHE_DURATION_init (TripInit.destinationCacheKey destination)
      (clock env (clockReads w)) (validationDest w) = None ->
  JSGlobal.length16 destination < 2 ->
  exists w',
    TripInit.POST env (Some body) w
    = (TripInit.Error 404
         ("Destination " ++ JS.quote ++ destination ++ JS.quote ++ " not found")
         (Some ["Please try a more specific location name"]), w').
Proof.
  intros destination Henv Hv Hmiss Hshort.
  rewrite (TripInitFacts.POST_accepted env w body Hv). fold destination.
  rewrite (TripInitFacts.validateDestination_miss env destination w Hmiss).
  assert (Hnone : autocomplete env destination (length (calls w)) = Ok []).
  { rewrite Henv. unfold PlacesAutocomplete.served, PlacesAutocomplete.GET.
    cbn [PlacesAutocomplete.q].
    rewrite PlacesAutocompleteFacts.length16_truthy.
    destruct (Nat.leb_spec 2 (JSGlobal.length16 destination)); [lia | reflexivity]. }
  rewrite Hnone. eexists. reflexivity.
Qed.

(** X29.  With this nearby handler behind it, the pool of candidates trip/init
    fetches has at most 20 places, although the request asks for a limit
    of 100; each candidate has a name that is not empty and the category
    [tourist_attraction], the default of the handler, since the
    [category] the request sends is not a parameter the handler reads. *)
Theorem candidate_pool_has_at_most_twenty
    (numberToString : Q -> string)
    (overpass : PlacesNearby.Query -> nat -> Fetched (list PlacesNearby.Element))
    (env : Env) (w w' : World) (p : Prediction) (pool : list NearbyPlace) :
  nearby env = PlacesNearby.served numberToString overpass ->
  get CACHE_DURATION_init (TripInit.placesCacheKey (pr_lat p) (pr_lon p))
      (clock env (clockReads w)) (validationPlaces w) = None ->
  TripInit.nearbyCandidates env p w = (inr pool, w') ->
  length pool <= 20
  /\ Forall (fun c => np_name c <> EmptyString /\ np_category c = "tourist_attraction")
            pool.
Proof.
  intros Henv Hmiss Hn.
  rewrite (TripInitFacts.nearbyCandidates_miss env p w Hmiss) in Hn.
  rewrite Henv in Hn. unfold PlacesNearby.served in Hn.
  match type of Hn with
  | context [PlacesNearby.GET numberToString ?o ?q] =>
      pose proof (PlacesNearbyFacts.GET_places numberToString o q) as Hplaces;
      destruct (fst (PlacesNearby.GET numberToString o q)) as [status error | places]
  end; [discriminate|].
  cbn in Hn. inversion Hn; subst pool; clear Hn.
  destruct (Hplaces places eq_refl) as (query & elements & all & _ & _ & -> & Hall).
  rewrite length_map. split; [apply firstn_le_length|].
  apply List.Forall_forall. intros c Hin. apply in_map_iff in Hin as (place & <- & Hin).
  apply PlacesNearbyFacts.In_firstn in Hin.
  destruct (proj1 (List.Forall_forall _ _) Hall place Hin)
    as (element & _ & Hkeep & Hplace).
  destruct (PlacesNearbyFacts.toPlace_kept _ _ _ _ _ Hkeep Hplace) as (Hcat & Hname & _).
  split; [exact Hname | exact Hcat].
Qed.

(** X30.  With both handlers behind it, trip/init answers 500 when the result
    that validates the destination has no latitude or no longitude: the
    nearby handler is then sent the text [undefined] and refuses it. *)
Theorem destination_without_coordinates_is_refused
    (numberToString : Q -> string)
    (overpass : PlacesNearby.Query -> nat -> Fetched (list PlacesNearby.Element))
    (env : Env) (w w1 : World) (body : JSON) (p : Prediction) :
  let destination := JS.asString (TripInit.field "destination" body) in
  nearby env = PlacesNearby.served numberToString overpass ->
  TripInit.validate (TripInit.field "destination" body) (TripInit.field "places" body)
                    (TripInit.field "days" body) (TripInit.field "budget" body) = [] ->
  TripInit.validateDestination env destination w = (inr p, w1) ->
  get CACHE_DURATION_init (TripInit.placesCacheKey (pr_lat p) (pr_lon p))
      (clock env (clockReads w1)) (validationPlaces w1) = None ->
  pr_lat p = None \/ pr_lon p = None ->
  exists w2,
    TripInit.POST env (Some body) w
    = (TripInit.Error 500 "Failed to validate places"
         (Some [("Valid " ++ JS.quote ++ "lat" ++ JS.quote ++ " and " ++ JS.quote ++ "lon"
                 ++ JS.quote ++ " query parameters are required")%string]), w2).
Proof.
  intros destination Henv Hv Hd Hmiss Hbare.
  rewrite (TripInitFacts.POST_accepted env w body Hv). fold destination. rewrite Hd.
  rewrite (TripInitFacts.nearbyCandidates_miss env p w1 Hmiss).
  assert (Hrefused : nearby env (JS.show (pr_lat p)) (JS.show (pr_lon p)) "10000"
                            (length (calls w1))
                     = NotOk (Some ("Valid " ++ JS.quote ++ "lat" ++ JS.quote ++ " and "
                                    ++ JS.quote ++ "lon" ++ JS.quote
                                    ++ " query parameters are required")%string)).
  { rewrite Henv. unfold PlacesNearby.served, PlacesNearby.GET.
    cbn [PlacesNearby.lat PlacesNearby.lon JSGlobal.given JS.show].
    destruct Hbare as [-> | ->]; cbn [JS.show].
    - change (JSGlobal.parsesAsNumber "undefined") with false.
      rewrite ?orb_true_r. cbn [negb orb]. rewrite ?orb_true_r. reflexivity.
    - change (JSGlobal.parsesAsNumber "undefined") with false.
      cbn [negb]. rewrite ?orb_true_r. reflexivity. }
  rewrite Hrefused. eexists. reflexivity.
Qed.

Lemma destination_name_is_foursquare_name_witness :
  match TripInit.respond "rome" ["Colosseo"] 2 "low"
          (PlacesAutocomplete.asPrediction (PlacesAutocomplete.toSuggestion decimal fsqRome))
          [TripInit.asValidated colosseo] [] with
  | TripInit.Success b => TripInit.r_destination_name b = "Rome"
  | TripInit.Error _ _ _ => False
  end.
Proof.
  destruct (TripInit.respond "rome" ["Colosseo"] 2 "low"
              (PlacesAutocomplete.asPrediction
                 (PlacesAutocomplete.toSuggestion decimal fsqRome))
              [TripInit.asValidated colosseo] []) as [status error details | b] eqn:Hr.
  - vm_compute in Hr. discriminate.
  - destruct (destination_name_is_foursquare_name decimal fsqRome "Rome" _ _ _ _ _ _ b
                eq_refl Hr) as (_ & Hwhole & _).
    rewrite Hwhole; [reflexivity|]. vm_compute. intuition discriminate.
Defined.

Lemma one_character_destination_is_not_found_witness :
  exists w',
    TripInit.POST localEnv
      (Some (JObj [("destination", JStr "R"); ("places", JArr [JStr "Colosseo"]);
                   ("days", JNum 2); ("budget", JStr "low")])) emptyWorld
    = (TripInit.Error 404 ("Destination " ++ JS.quote ++ "R" ++ JS.quote ++ " not found")
         (Some ["Please try a more specific location name"]), w').
Proof.
  exact (one_character_destination_is_not_found decimal (fun address _ => foursquare address)
           localEnv emptyWorld
           (JObj [("destination", JStr "R"); ("places", JArr [JStr "Colosseo"]);
                  ("days", JNum 2); ("budget", JStr "low")])
           eq_refl ltac:(vm_compute; reflexivity) ltac:(vm_compute; reflexivity)
           ltac:(vm_compute; lia)).
Defined.

Lemma candidate_pool_has_at_most_twenty_witness :
  exists pool w',
    TripInit.nearbyCandidates localEnv rome emptyWorld = (inr pool, w')
    /\ map np_name pool = ["Colosseo"; "Foro Romano"]
    /\ length pool <= 20.
Proof.
  refine (let H := (eq_refl : TripInit.nearbyCandidates localEnv rome emptyWorld
                              = (inr _, _)) in _).
  eexists _, _. split; [exact H|]. split; [vm_compute; reflexivity|].
  exact (proj1 (candidate_pool_has_at_most_twenty decimal (fun query _ => overpassRome query)
                  localEnv emptyWorld _ rome _ eq_refl
                  ltac:(vm_compute; reflexivity) H)).
Defined.

Lemma destination_without_coordinates_is_refused_witness :
  exists w2,
    TripInit.POST localEnv
      (Some (JObj [("destination", JStr "Rome"); ("places", JArr [JStr "Colosseo"]);
                   ("days", JNum 2); ("budget", JStr "low")]))
      (mkWorld (<["dest_rome" := mkEntry bareVilla 0%Z]> ∅) ∅ ∅ 0 0 [] 0)
    = (TripInit.Error 500 "Failed to validate places"
         (Some [("Valid " ++ JS.quote ++ "lat" ++ JS.quote ++ " and " ++ JS.quote ++ "lon"
                 ++ JS.quote ++ " query parameters are required")%string]), w2).
Proof.
  refine (let H := (eq_refl :
            TripInit.validateDestination localEnv "Rome"
              (mkWorld (<["dest_rome" := mkEntry bareVilla 0%Z]> ∅) ∅ ∅ 0 0 [] 0)
            = (inr bareVilla, _)) in _).
  exact (destination_without_coordinates_is_refused decimal
           (fun query _ => overpassRome query) localEnv _ _
           (JObj [("destination", JStr "Rome"); ("places", JArr [JStr "Colosseo"]);
                  ("days", JNum 2); ("budget", JStr "low")])
           bareVilla eq_refl ltac:(vm_compute; reflexivity) H
           ltac:(vm_compute; reflexivity) ltac:(left; reflexivity)).
Defined.

End HandlersTogetherFacts.

(** ** Unmatched places across the two routes *)

Module PartialResults.
Import Samples.



End PartialResults.
